(** * Late-Marking Relay: a shallow embedding of [index.js]

    The relay is one HTTP handler, [POST /mark-late], over an OAuth2 token
    cache ([getToken]) and a generic upstream call ([callMeevoAPI]).  The
    source holds two revisions of the handler: the current one (header
    "Version: 3.0.0", lines 75-205) is embedded in [Module V3]; the earlier
    one (lines 284-412) in [Module Legacy].  [getToken] and [callMeevoAPI]
    are textually the same in both.

    Conventions of the embedding.
    - A JavaScript string is a [string] (its characters below 128 are the
      ASCII characters; a character beyond ASCII is held as its UTF-8
      bytes, all of which are 128 or more); [null]/[undefined] is [None].
    - The [data] of an upstream body is untyped JSON: it is read through
      [response_data] as [undefined], an object or an array, and a
      property that an object does not have reads as [undefined].
    - Numbers are [Z] (times are milliseconds since the epoch).
    - The upstream platform and the clock are a [Runtime] over an abstract
      world [W]; every upstream call and every clock read of a run is
      recorded, in order, in the run's list of [Event]s.
    - A rejected promise, or an error raised by the handler's own code,
      is [Thrown]; the handler's [try]/[catch] is [try_catch]. *)

From Stdlib Require Import ZArith List String Ascii Bool Lia.
Import ListNotations.

Local Open Scope string_scope.
Local Open Scope Z_scope.

(* ===================================================================== *)
(** ** JavaScript primitives used by the handler *)
(* ===================================================================== *)

Module JS.

(** [\d] of a RegExp without the [u] flag: the ten characters 0-9. *)
Definition is_digit (c : ascii) : bool :=
  let n := nat_of_ascii c in (48 <=? n)%nat && (n <=? 57)%nat.

(** [s.replace(/\D/g, '')]: every character that is not a digit is
    removed, the others stay in order. *)
Fixpoint replace_non_digits (s : string) : string :=
  match s with
  | EmptyString => EmptyString
  | String c s' =>
      if is_digit c then String c (replace_non_digits s')
      else replace_non_digits s'
  end.

(** [s.slice(start)]: a negative [start] counts from the end and is
    clamped at 0, a positive one is clamped at the length. *)
Definition slice (start : Z) (s : string) : string :=
  let len := Z.of_nat (String.length s) in
  let from := if start <? 0 then Z.max (len + start) 0 else Z.min start len in
  substring (Z.to_nat from) (Z.to_nat (len - from)) s.

Definition is_upper (c : ascii) : bool :=
  let n := nat_of_ascii c in (65 <=? n)%nat && (n <=? 90)%nat.

Definition lower_char (c : ascii) : ascii :=
  if is_upper c then ascii_of_nat (nat_of_ascii c + 32) else c.

(** Lower-casing of a string of ASCII characters: A-Z go to a-z, every
    other character is kept. *)
Fixpoint lower_ascii (s : string) : string :=
  match s with
  | EmptyString => EmptyString
  | String c s' => String (lower_char c) (lower_ascii s')
  end.

Definition is_ascii (c : ascii) : bool := (nat_of_ascii c <? 128)%nat.

Fixpoint ascii_only (s : string) : bool :=
  match s with
  | EmptyString => true
  | String c s' => is_ascii c && ascii_only s'
  end.

(** [s.toLowerCase()].  On a string of ASCII characters it is
    [lower_ascii].  On a string that holds a character beyond ASCII the
    engine's Unicode tables decide (the result can differ in length, and
    a letter can depend on its neighbours); they are not part of the
    program, so that case is left to [unicode], which is given the
    non-empty string as its first character and its rest and returns the
    result the same way: lower-casing never empties a string. *)
Definition toLowerCase (unicode : ascii -> string -> ascii * string) (s : string) : string :=
  if ascii_only s then lower_ascii s
  else match s with
       | EmptyString => EmptyString
       | String c s' => let (c', t) := unicode c s' in String c' t
       end.

(** Truthiness of a string: every string but the empty one. *)
Definition truthy_string (s : string) : bool :=
  match s with EmptyString => false | String _ _ => true end.

(** Truthiness of a possibly absent string ([undefined] and [null] are
    falsy). *)
Definition truthy (v : option string) : bool :=
  match v with Some s => truthy_string s | None => false end.

(** Truthiness of a number held as an integer: every number but 0. *)
Definition truthy_number (n : Z) : bool := negb (n =? 0).

(** [a || b] on possibly absent strings. *)
Definition or_else (a : option string) (b : string) : string :=
  match a with
  | Some s => if truthy_string s then s else b
  | None => b
  end.

(** [Array.prototype.sort(cmp)]: a stable sort.  [cmp a b] is the
    comparator's number, [None] standing for [NaN], which [sort] reads
    as [+0].  An element moves in front of the ones it does not compare
    greater than, so elements that compare equal keep their order. *)
Section Sort.
Context {A : Type} (cmp : A -> A -> option Z).

Definition before_or_equal (a b : A) : bool :=
  match cmp a b with Some v => v <=? 0 | None => true end.

Fixpoint insert (x : A) (l : list A) : list A :=
  match l with
  | [] => [x]
  | y :: l' => if before_or_equal x y then x :: y :: l' else y :: insert x l'
  end.

Fixpoint sort (l : list A) : list A :=
  match l with
  | [] => []
  | x :: l' => insert x (sort l')
  end.
End Sort.

End JS.

(* ===================================================================== *)
(** ** Normalisation of the caller's phone (line 89) *)
(* ===================================================================== *)

(** [client_phone?.replace(/\D/g, '').slice(-10)] on a present phone. *)
Definition normalizePhone (phone : string) : string :=
  JS.slice (-10) (JS.replace_non_digits phone).

Definition normalizedPhone (client_phone : option string) : option string :=
  option_map normalizePhone client_phone.

(** The specification's wording of the phone rule: the digit characters
    of the input, of which the last [n] are kept. *)
Definition digits_of (s : string) : list ascii :=
  filter JS.is_digit (list_ascii_of_string s).

Definition last_n {A : Type} (n : nat) (l : list A) : list A :=
  rev (firstn n (rev l)).

Definition last_digits (n : nat) (s : string) : string :=
  string_of_list_ascii (last_n n (digits_of s)).

(** The specification's wording of lower-casing, for the letters of
    ASCII: a capital letter becomes the small letter at the same place of
    the alphabet, every other character stays as it is. *)
Definition capitals : string := "ABCDEFGHIJKLMNOPQRSTUVWXYZ".
Definition smalls : string := "abcdefghijklmnopqrstuvwxyz".

Fixpoint small_letter (caps lows : string) (c : ascii) : ascii :=
  match caps, lows with
  | String a caps', String b lows' =>
      if Ascii.eqb c a then b else small_letter caps' lows' c
  | _, _ => c
  end.

Fixpoint lower_case (s : string) : string :=
  match s with
  | EmptyString => EmptyString
  | String c s' => String (small_letter capitals smalls c) (lower_case s')
  end.


(* ===================================================================== *)
(** ** Configuration and data model *)
(* ===================================================================== *)

Module CONFIG.
Definition AUTH_URL : string := "https://marketplace.meevo.com/oauth2/token".
Definition API_URL : string := "https://na1pub.meevo.com/publicapi/v1".
Definition CLIENT_ID : string := "f6a5046d-208e-4829-9941-034ebdd2aa65".
Definition CLIENT_SECRET : string := "2f8feb2e-51f5-40a3-83af-3d4a6a454abe".
Definition TENANT_ID : string := "200507".
Definition LOCATION_ID : string := "201664".
End CONFIG.

(** [req.body] of [POST /mark-late]; an absent field is [None]. *)
Module Req.
Record t : Type := mk {
  appointment_service_id : option string;
  client_phone : option string;
  client_email : option string;
  location_id : option string;
  estimated_minutes : option Z
}.
End Req.

(** The JSON object handed to [res.json]; an absent field is [None]. *)
Module Res.
Record t : Type := mk {
  success : bool;
  marked_late : option bool;
  appointment_service_id : option string;
  appointment_time : option string;
  message : option string;
  error : option string
}.
End Res.

(** What the handler sends back: [res.json] never sets a status, so the
    status is Express's default. *)
Record HttpResponse : Type := { status : Z; body : Res.t }.

Definition res_json (b : Res.t) : HttpResponse := {| status := 200; body := b |}.

(** [{ success: false, error: msg }] *)
Definition failure (msg : string) : Res.t :=
  Res.mk false None None None None (Some msg).

(** A client record of the upstream platform. *)
Module Client.
Record t : Type := mk {
  clientId : string;
  firstName : string;
  lastName : string;
  primaryPhoneNumber : option string;
  emailAddress : option string
}.
End Client.

(** An entry of the "client's appointments" listing. *)
Module Appointment.
Record t : Type := mk {
  appointmentServiceId : string;
  startTime : string;
  isCancelled : bool;
  serviceId : string;
  clientId : string;
  employeeId : string;
  concurrencyCheckDigits : Z
}.
End Appointment.

(** The [data] of the running-late read. *)
Module Details.
Record t : Type := mk {
  serviceId : string;
  clientId : string;
  employeeId : string;
  concurrencyCheckDigits : Z;
  startTime : string
}.
End Details.

Inductive Method : Type := GET | POST | PUT.

(** The endpoints the handlers build with template literals; the tenant
    is always [CONFIG.TENANT_ID]. *)
Inductive Endpoint : Type :=
| ClientsLookup (LocationId : string)
| ClientsList (LocationId : string)
| ClientServices (clientId LocationId : string)
| RunningLate (LocationId AppointmentServiceId : string).

Definition scope (LocationId : string) : string :=
  "?TenantId=" ++ CONFIG.TENANT_ID ++ "&LocationId=" ++ LocationId.

Definition endpoint_path (e : Endpoint) : string :=
  match e with
  | ClientsLookup loc => "/clients/lookup" ++ scope loc
  | ClientsList loc => "/clients" ++ scope loc
  | ClientServices cid loc => "/book/client/" ++ cid ++ "/services" ++ scope loc
  | RunningLate loc apt =>
      "/book/service/runninglate" ++ scope loc ++ "&AppointmentServiceId=" ++ apt
  end.

(** [lookupBody] of the client lookup. *)
Record LookupBody : Type := {
  PhoneNumbers : option (list string);
  EmailIds : option (list string)
}.

(** [updateBody] of the running-late write.  A member whose value is
    [undefined] is [None] (JSON serialisation leaves it out). *)
Record UpdateBody : Type := {
  ServiceId : option string;
  ClientId : option string;
  EmployeeId : option string;
  ConcurrencyCheckDigits : option Z;
  StartTime : option string;
  IsRunningLate : bool
}.

Inductive RequestData : Type :=
| LookupData (b : LookupBody)
| UpdateData (b : UpdateBody).

(** The [config] object [callMeevoAPI] passes to [axios]. *)
Record AxiosConfig : Type := {
  method : Method;
  endpoint : Endpoint;
  Authorization : string;
  data : option RequestData
}.

Definition url (cfg : AxiosConfig) : string :=
  CONFIG.API_URL ++ endpoint_path (endpoint cfg).

(** The arguments of [axios.post] in [getToken]. *)
Record TokenRequest : Type := {
  token_url : string;
  client_id : string;
  client_secret : string
}.

(** [res.data] of the token endpoint. *)
Record TokenData : Type := { access_token : string; expires_in : Z }.

(** [response.data] of an API call, by what its [data] member holds: an
    array of clients, an array of appointments, one details object, or
    nothing ([NoData]: a body without the member).  Any endpoint can
    answer with any of them: the handler does not check. *)
Inductive ResponseData : Type :=
| ClientsData (l : list Client.t)
| AppointmentsData (l : list Appointment.t)
| DetailsData (d : Details.t)
| NoData.

(** An object of an upstream body, by its shape. *)
Inductive Item : Type :=
| OfClient (c : Client.t)
| OfAppointment (a : Appointment.t)
| OfDetails (d : Details.t).

(** [o.name], for the properties the handler reads: [None] is the
    [undefined] that JavaScript gives for a property the object does not
    have. *)
Module Field.
Definition clientId (o : Item) : option string :=
  match o with
  | OfClient c => Some (Client.clientId c)
  | OfAppointment a => Some (Appointment.clientId a)
  | OfDetails d => Some (Details.clientId d)
  end.

Definition primaryPhoneNumber (o : Item) : option string :=
  match o with OfClient c => Client.primaryPhoneNumber c | _ => None end.

Definition emailAddress (o : Item) : option string :=
  match o with OfClient c => Client.emailAddress c | _ => None end.

Definition appointmentServiceId (o : Item) : option string :=
  match o with OfAppointment a => Some (Appointment.appointmentServiceId a) | _ => None end.

Definition startTime (o : Item) : option string :=
  match o with
  | OfClient _ => None
  | OfAppointment a => Some (Appointment.startTime a)
  | OfDetails d => Some (Details.startTime d)
  end.

(** The truthiness of [o.isCancelled]; [undefined] is falsy. *)
Definition isCancelled (o : Item) : bool :=
  match o with OfAppointment a => Appointment.isCancelled a | _ => false end.

Definition serviceId (o : Item) : option string :=
  match o with
  | OfClient _ => None
  | OfAppointment a => Some (Appointment.serviceId a)
  | OfDetails d => Some (Details.serviceId d)
  end.

Definition employeeId (o : Item) : option string :=
  match o with
  | OfClient _ => None
  | OfAppointment a => Some (Appointment.employeeId a)
  | OfDetails d => Some (Details.employeeId d)
  end.

Definition concurrencyCheckDigits (o : Item) : option Z :=
  match o with
  | OfClient _ => None
  | OfAppointment a => Some (Appointment.concurrencyCheckDigits a)
  | OfDetails d => Some (Details.concurrencyCheckDigits d)
  end.
End Field.

(** A JSON value as the handler meets it: [undefined] (or [null]), an
    object, or an array of objects. *)
Inductive Json : Type :=
| Undefined
| Object (o : Item)
| Array (l : list Item).

(** [result?.data] *)
Definition response_data (r : ResponseData) : Json :=
  match r with
  | ClientsData l => Array (map OfClient l)
  | AppointmentsData l => Array (map OfAppointment l)
  | DetailsData d => Object (OfDetails d)
  | NoData => Undefined
  end.

(** Truthiness of a value: every object and every array is truthy, the
    empty array too. *)
Definition truthy_data (v : Json) : bool :=
  match v with Undefined => false | _ => true end.

(** [v.name] on a truthy value: an array has none of the properties the
    handler reads by name. *)
Definition property {A : Type} (name : Item -> option A) (v : Json) : option A :=
  match v with Object o => name o | _ => None end.

(** What is thrown, by the one thing the handler reads from it:
    [error.response?.data?.error?.message].  A rejected upstream call can
    carry one. *)
Record AxiosError : Type := { response_error_message : option string }.

(** A [TypeError] raised by the handler's own code has no [response]. *)
Definition TypeError : AxiosError := {| response_error_message := None |}.

(** What a run does to the outside, in order. *)
Inductive Event : Type :=
| Clock (now : Z)
| TokenCall (req : TokenRequest) (res : AxiosError + TokenData)
| ApiCall (cfg : AxiosConfig) (res : AxiosError + ResponseData).

(** The module-level [let token] and [let tokenExpiry]. *)
Record TokenCache : Type := { token : option string; tokenExpiry : option Z }.

Definition empty_cache : TokenCache := {| token := None; tokenExpiry := None |}.

(* ===================================================================== *)
(** ** Runs: state, exceptions and the event log *)
(* ===================================================================== *)

Inductive Outcome (A : Type) : Type :=
| Returned (a : A)
| Thrown (e : AxiosError).
Arguments Returned {A} a.
Arguments Thrown {A} e.

Record Run (W A : Type) : Type := {
  outcome : Outcome A;
  cache : TokenCache;
  world : W;
  events : list Event
}.
Arguments outcome {W A} r.
Arguments cache {W A} r.
Arguments world {W A} r.
Arguments events {W A} r.

Definition Prog (W A : Type) : Type := TokenCache -> W -> Run W A.

Definition ret {W A : Type} (a : A) : Prog W A :=
  fun c w => {| outcome := Returned a; cache := c; world := w; events := [] |}.

Definition throw {W A : Type} (e : AxiosError) : Prog W A :=
  fun c w => {| outcome := Thrown e; cache := c; world := w; events := [] |}.

(** The run [r], after the events [evs]. *)
Definition after {W A : Type} (evs : list Event) (r : Run W A) : Run W A :=
  {| outcome := outcome r; cache := cache r; world := world r;
     events := evs ++ events r |}.

Definition bind {W A B : Type} (m : Prog W A) (k : A -> Prog W B) : Prog W B :=
  fun c w =>
    let r := m c w in
    match outcome r with
    | Returned a => after (events r) (k a (cache r) (world r))
    | Thrown e =>
        {| outcome := Thrown e; cache := cache r; world := world r;
           events := events r |}
    end.

(** [try { m } catch (error) { h error }] *)
Definition try_catch {W A : Type} (m : Prog W A) (h : AxiosError -> Prog W A) : Prog W A :=
  fun c w =>
    let r := m c w in
    match outcome r with
    | Returned a => r
    | Thrown e => after (events r) (h e (cache r) (world r))
    end.

Declare Scope prog_scope.
Delimit Scope prog_scope with prog.
Notation "x <- m ;; k" := (bind m (fun x => k))
  (at level 61, m at next level, right associativity) : prog_scope.
Notation "m ;; k" := (bind m (fun _ => k))
  (at level 61, right associativity) : prog_scope.
Local Open Scope prog_scope.

(** The outside of the process: the clock, [Date] parsing, the engine's
    lower-casing beyond ASCII (see [JS.toLowerCase]) and the two ways the
    code reaches the network. *)
Record Runtime (W : Type) : Type := {
  Date_now : W -> Z * W;
  Date_parse : string -> option Z;
  toLowerCase_unicode : ascii -> string -> ascii * string;
  axios_post : TokenRequest -> W -> (AxiosError + TokenData) * W;
  axios : AxiosConfig -> W -> (AxiosError + ResponseData) * W
}.
Arguments Date_now {W} r.
Arguments Date_parse {W} r.
Arguments toLowerCase_unicode {W} r.
Arguments axios_post {W} r.
Arguments axios {W} r.

Section Relay.
Context {W : Type} (rt : Runtime W).

(** [Date.now()] and [new Date()] *)
Definition now : Prog W Z :=
  fun c w =>
    let (t, w') := Date_now rt w in
    {| outcome := Returned t; cache := c; world := w'; events := [Clock t] |}.

Definition of_result {A : Type} (res : AxiosError + A) : Outcome A :=
  match res with inl e => Thrown e | inr a => Returned a end.

(** [await axios.post(url, body)] *)
Definition post (req : TokenRequest) : Prog W TokenData :=
  fun c w =>
    let (res, w') := axios_post rt req w in
    {| outcome := of_result res; cache := c; world := w';
       events := [TokenCall req res] |}.

(** [await axios(config)] *)
Definition request (cfg : AxiosConfig) : Prog W ResponseData :=
  fun c w =>
    let (res, w') := axios rt cfg w in
    {| outcome := of_result res; cache := c; world := w';
       events := [ApiCall cfg res] |}.

Definition read_cache : Prog W TokenCache :=
  fun c w => {| outcome := Returned c; cache := c; world := w; events := [] |}.

Definition write_token (v : string) : Prog W unit :=
  fun c w =>
    {| outcome := Returned tt;
       cache := {| token := Some v; tokenExpiry := tokenExpiry c |};
       world := w; events := [] |}.

Definition write_tokenExpiry (v : Z) : Prog W unit :=
  fun c w =>
    {| outcome := Returned tt;
       cache := {| token := token c; tokenExpiry := Some v |};
       world := w; events := [] |}.

(** Lines 44-47: the URL and the body of the token request. *)
Definition credentials : TokenRequest :=
  {| token_url := CONFIG.AUTH_URL;
     client_id := CONFIG.CLIENT_ID;
     client_secret := CONFIG.CLIENT_SECRET |}.

(** Lines 41-53.  The guard short-circuits: the clock is read only
    when both slots are truthy.  [fetch] is the part below the guard. *)
Definition getToken : Prog W string :=
  let fetch : Prog W string :=
    res <- post credentials ;;
    write_token (access_token res) ;;
    t <- now ;;
    write_tokenExpiry (t + expires_in res * 1000) ;;
    ret (access_token res) in
  c <- read_cache ;;
  match token c, tokenExpiry c with
  | Some tk, Some expiry =>
      if JS.truthy_string tk && JS.truthy_number expiry then
        t <- now ;;
        if t <? expiry - 300000 then ret tk else fetch
      else fetch
  | _, _ => fetch
  end.

(** Lines 55-73.  [config.data] is set only for a truthy [data] (every
    object is) and a method other than GET. *)
Definition config (ep : Endpoint) (m : Method) (d : option RequestData)
  (authToken : string) : AxiosConfig :=
  {| method := m;
     endpoint := ep;
     Authorization := "Bearer " ++ authToken;
     data := match m with GET => None | _ => d end |}.

Definition callMeevoAPI (ep : Endpoint) (m : Method) (d : option RequestData)
  : Prog W ResponseData :=
  authToken <- getToken ;;
  request (config ep m d authToken).

(** Line 90: [client_email?.toLowerCase()] on a present e-mail. *)
Definition normalizeEmail (email : string) : string :=
  JS.toLowerCase (toLowerCase_unicode rt) email.

Definition normalizedEmail (client_email : option string) : option string :=
  option_map normalizeEmail client_email.

(** Lines 94-99.  In a truthy branch the identifier is present, so
    the one-element array is. *)
Definition lookupBody (normalizedPhone normalizedEmail : option string) : LookupBody :=
  if JS.truthy normalizedPhone then
    {| PhoneNumbers := option_map (fun p => [p]) normalizedPhone; EmailIds := None |}
  else if JS.truthy normalizedEmail then
    {| PhoneNumbers := None; EmailIds := option_map (fun e => [e]) normalizedEmail |}
  else
    {| PhoneNumbers := None; EmailIds := None |}.

(** Lines 133-135 on a listing of appointments, which is what the
    appointments query is meant to return.

    [new Date(a.startTime)] as a number; [None] is an invalid date. *)
Definition time_of (a : Appointment.t) : option Z :=
  Date_parse rt (Appointment.startTime a).

(** The instant of an appointment whose date parses. *)
Definition starts_at (a : Appointment.t) (ta : Z) : Prop := time_of a = Some ta.

(** Line 134: [!a.isCancelled && new Date(a.startTime) >= now]; a
    comparison with an invalid date is false. *)
Definition is_upcoming (t : Z) (a : Appointment.t) : bool :=
  negb (Appointment.isCancelled a) &&
  match time_of a with Some ta => t <=? ta | None => false end.

(** Line 135: [new Date(a.startTime) - new Date(b.startTime)] *)
Definition by_startTime (a b : Appointment.t) : option Z :=
  match time_of a, time_of b with
  | Some ta, Some tb => Some (ta - tb)
  | _, _ => None
  end.

(** Lines 133-135: [data.filter(...).sort(...)[0]] *)
Definition upcoming (t : Z) (l : list Appointment.t) : option Appointment.t :=
  hd_error (JS.sort by_startTime (filter (is_upcoming t) l)).

(** Lines 133-135 as the handler runs them: on the elements of whatever
    array came back.  [new Date(undefined)] is an invalid date, so an
    element without [startTime] is never kept, and an element without
    [isCancelled] counts as not cancelled.  On an array of appointments
    this is [upcoming] (lemma [upcoming_entry_appointments]). *)
Definition entry_time (o : Item) : option Z :=
  match Field.startTime o with Some s => Date_parse rt s | None => None end.

Definition entry_is_upcoming (t : Z) (o : Item) : bool :=
  negb (Field.isCancelled o) &&
  match entry_time o with Some ta => t <=? ta | None => false end.

Definition entry_by_startTime (a b : Item) : option Z :=
  match entry_time a, entry_time b with
  | Some ta, Some tb => Some (ta - tb)
  | _, _ => None
  end.

Definition upcoming_entry (t : Z) (l : list Item) : option Item :=
  hd_error (JS.sort entry_by_startTime (filter (entry_is_upcoming t) l)).

(** Lines 190-196; [appointment_time] is left out when it is
    [undefined]. *)
Definition marked (aptServiceId : string) (startTime : option string) : Res.t :=
  Res.mk true (Some true) (Some aptServiceId) startTime
    (Some "Your barber has been notified that you're running late.") None.

(** Lines 198-204: the [catch] block. *)
Definition on_error (e : AxiosError) : Res.t :=
  failure (JS.or_else (response_error_message e)
             "Failed to mark appointment as running late").
End Relay.

(* ===================================================================== *)
(** ** The handler, version 3.0.0 (lines 75-205) *)
(* ===================================================================== *)

Module V3.
Section Handler.
Context {W : Type} (rt : Runtime W).

(** Lines 107-111: [lookupResult?.data || []], then the [clientId] of
    its first element when [clients.length > 0]; an object has no
    [length], and [undefined > 0] is false. *)
Definition first_clientId (lookupResult : ResponseData) : option string :=
  let clients :=
    match response_data lookupResult with Undefined => Array [] | data => data end in
  match clients with
  | Array (client :: _) => Field.clientId client
  | _ => None
  end.

(** Lines 85-146, the lookup by phone or e-mail.  The block either
    answers the request ([inl]) or leaves [aptServiceId] set ([inr]). *)
Definition resolve (locationId : string) (client_phone client_email : option string)
  : Prog W (Res.t + option string) :=
  let normalizedPhone := normalizedPhone client_phone in
  let normalizedEmail := normalizedEmail rt client_email in
  lookupResult <- callMeevoAPI rt (ClientsLookup locationId) POST
                    (Some (LookupData (lookupBody normalizedPhone normalizedEmail))) ;;
  match first_clientId lookupResult with
  | Some (String _ _ as clientId) =>
      aptsResult <- callMeevoAPI rt (ClientServices clientId locationId) GET None ;;
      match response_data aptsResult with
      | Array ((_ :: _) as data) =>
          t <- now rt ;;
          match upcoming_entry rt t data with
          | Some u => ret (inr (Field.appointmentServiceId u))
          | None =>
              ret (inl (failure "No upcoming appointments found to mark as running late"))
          end
      | _ => ret (inl (failure "No appointments found for this client"))
      end
  | _ => ret (inl (failure "No client found with that phone number or email"))
  end.

(** Lines 172-179: every member is read from [details]. *)
Definition updateBody (details : Json) : UpdateBody :=
  {| ServiceId := property Field.serviceId details;
     ClientId := property Field.clientId details;
     EmployeeId := property Field.employeeId details;
     ConcurrencyCheckDigits := property Field.concurrencyCheckDigits details;
     StartTime := property Field.startTime details;
     IsRunningLate := true |}.

(** Lines 155-196: the running-late read, then the write.  Line 162
    tests [detailsResult?.data] for truthiness only. *)
Definition mark (locationId aptServiceId : string) : Prog W Res.t :=
  detailsResult <- callMeevoAPI rt (RunningLate locationId aptServiceId) GET None ;;
  let details := response_data detailsResult in
  if truthy_data details then
    callMeevoAPI rt (RunningLate locationId aptServiceId) PUT
      (Some (UpdateData (updateBody details))) ;;
    ret (marked aptServiceId (property Field.startTime details))
  else ret (failure "Could not get appointment details").

(** Lines 148-196, after the lookup block: its answer if it gave one,
    the "Missing ..." failure for a falsy [aptServiceId], else [mark]. *)
Definition finish (locationId : string) (resolved : Res.t + option string)
  : Prog W Res.t :=
  match resolved with
  | inl response => ret response
  | inr (Some (String _ _ as aptServiceId)) => mark locationId aptServiceId
  | inr _ =>
      ret (failure "Missing appointment_service_id or client_phone/client_email to lookup")
  end.

(** The body of the [try] block. *)
Definition attempt (req : Req.t) : Prog W Res.t :=
  let locationId := JS.or_else (Req.location_id req) CONFIG.LOCATION_ID in
  let aptServiceId := Req.appointment_service_id req in
  resolved <-
    (if negb (JS.truthy aptServiceId) &&
        (JS.truthy (Req.client_phone req) || JS.truthy (Req.client_email req))
     then resolve locationId (Req.client_phone req) (Req.client_email req)
     else ret (inr aptServiceId)) ;;
  finish locationId resolved.

(** [app.post('/mark-late', ...)] *)
Definition mark_late (req : Req.t) : Prog W HttpResponse :=
  try_catch (response <- attempt req ;; ret (res_json response))
            (fun error => ret (res_json (on_error error))).
End Handler.
End V3.

(* ===================================================================== *)
(** ** The handler, earlier revision (lines 284-412) *)
(* ===================================================================== *)

Module Legacy.
Section Handler.
Context {W : Type} (rt : Runtime W).

(** Lines 307-314: the predicate given to [find]. *)
Definition matches (normalizedPhone normalizedEmail : option string) (c : Item) : bool :=
  (match normalizedPhone with
   | Some (String _ _ as p) =>
       let cPhone :=
         JS.slice (-10)
           (JS.replace_non_digits (JS.or_else (Field.primaryPhoneNumber c) "")) in
       String.eqb cPhone p
   | _ => false
   end)
  ||
  (match normalizedEmail, Field.emailAddress c with
   | Some (String _ _ as e), Some address => String.eqb (normalizeEmail rt address) e
   | _, _ => false
   end).

(** Lines 302-317.  [clientsResult.data.find] is a function only when
    the data is an array: on an object the call raises a [TypeError]. *)
Definition found_clientId (client_phone client_email : option string)
  (clientsResult : ResponseData) : Prog W (option string) :=
  match response_data clientsResult with
  | Undefined => ret None
  | Object _ => throw TypeError
  | Array l =>
      ret match find (matches (normalizedPhone client_phone)
                        (normalizedEmail rt client_email)) l with
          | Some client => Field.clientId client
          | None => None
          end
  end.

(** Lines 295-352.  The block answers the request ([inl]) or leaves
    [aptServiceId] and [appointmentDetails] set ([inr]); line 350 keeps
    the listing entry itself as [appointmentDetails]. *)
Definition resolve (locationId : string) (client_phone client_email : option string)
  : Prog W (Res.t + (option string * Json)) :=
  clientsResult <- callMeevoAPI rt (ClientsList locationId) GET None ;;
  clientId <- found_clientId client_phone client_email clientsResult ;;
  match clientId with
  | Some (String _ _ as clientId) =>
      aptsResult <- callMeevoAPI rt (ClientServices clientId locationId) GET None ;;
      match response_data aptsResult with
      | Array ((_ :: _) as data) =>
          t <- now rt ;;
          match upcoming_entry rt t data with
          | Some u => ret (inr (Field.appointmentServiceId u, Object u))
          | None =>
              ret (inl (failure "No upcoming appointments found to mark as running late"))
          end
      | _ => ret (inl (failure "No appointments found for this client"))
      end
  | _ => ret (inl (failure "No client found with that phone number or email"))
  end.

(** Lines 361-403: the read happens only [if (!appointmentDetails)]
    ([Undefined] stands for the initial [null]). *)
Definition mark (locationId aptServiceId : string) (appointmentDetails : Json)
  : Prog W Res.t :=
  fetched <-
    (if truthy_data appointmentDetails then ret appointmentDetails
     else
       detailsResult <- callMeevoAPI rt (RunningLate locationId aptServiceId) GET None ;;
       ret (response_data detailsResult)) ;;
  if truthy_data fetched then
    callMeevoAPI rt (RunningLate locationId aptServiceId) PUT
      (Some (UpdateData (V3.updateBody fetched))) ;;
    ret (marked aptServiceId (property Field.startTime fetched))
  else ret (failure "Could not get appointment details").

(** Lines 354-403, after the lookup block. *)
Definition finish (locationId : string)
  (resolved : Res.t + (option string * Json)) : Prog W Res.t :=
  match resolved with
  | inl response => ret response
  | inr (Some (String _ _ as aptServiceId), appointmentDetails) =>
      mark locationId aptServiceId appointmentDetails
  | inr _ =>
      ret (failure "Missing appointment_service_id or client_phone/client_email to lookup")
  end.

Definition attempt (req : Req.t) : Prog W Res.t :=
  let locationId := JS.or_else (Req.location_id req) CONFIG.LOCATION_ID in
  let aptServiceId := Req.appointment_service_id req in
  resolved <-
    (if negb (JS.truthy aptServiceId) &&
        (JS.truthy (Req.client_phone req) || JS.truthy (Req.client_email req))
     then resolve locationId (Req.client_phone req) (Req.client_email req)
     else ret (inr (aptServiceId, Undefined))) ;;
  finish locationId resolved.

Definition mark_late (req : Req.t) : Prog W HttpResponse :=
  try_catch (response <- attempt req ;; ret (res_json response))
            (fun error => ret (res_json (on_error error))).
End Handler.
End Legacy.

(* ===================================================================== *)
(** ** Reading a run's event log *)
(* ===================================================================== *)

(** The API requests of a log, in order. *)
Fixpoint api_requests (evs : list Event) : list AxiosConfig :=
  match evs with
  | [] => []
  | ApiCall cfg _ :: evs' => cfg :: api_requests evs'
  | _ :: evs' => api_requests evs'
  end.

(** The API calls of a log, each with its result, in order. *)
Fixpoint api_calls (evs : list Event) : list (AxiosConfig * (AxiosError + ResponseData)) :=
  match evs with
  | [] => []
  | ApiCall cfg res :: evs' => (cfg, res) :: api_calls evs'
  | _ :: evs' => api_calls evs'
  end.

(** The token requests of a log, in order. *)
Fixpoint token_requests (evs : list Event) : list TokenRequest :=
  match evs with
  | [] => []
  | TokenCall req _ :: evs' => req :: token_requests evs'
  | _ :: evs' => token_requests evs'
  end.

(** The error of an upstream call that was rejected. *)
Definition rejection (ev : Event) : option AxiosError :=
  match ev with
  | TokenCall _ (inl e) => Some e
  | ApiCall _ (inl e) => Some e
  | _ => None
  end.

(** The errors of the rejected upstream calls of a log, in order. *)
Definition rejections (evs : list Event) : list AxiosError :=
  flat_map (fun ev => match rejection ev with Some e => [e] | None => [] end) evs.

Definition is_api_call (ev : Event) : bool :=
  match ev with ApiCall _ _ => true | _ => false end.

(** The clock reads of a log, in order. *)
Fixpoint clock_reads (evs : list Event) : list Z :=
  match evs with
  | [] => []
  | Clock t :: evs' => t :: clock_reads evs'
  | _ :: evs' => clock_reads evs'
  end.


(** Every event of every run of [m] satisfies [Q]. *)
Definition emits {W A : Type} (Q : Event -> Prop) (m : Prog W A) : Prop :=
  forall c w, Forall Q (events (m c w)).

(** A run of [m] that returns has no rejected call; one that throws ends
    with the rejected call whose error it throws, the only one. *)
Definition stops_at_rejection {W A : Type} (m : Prog W A) : Prop :=
  forall c w,
    match outcome (m c w) with
    | Returned _ => rejections (events (m c w)) = []
    | Thrown e =>
        exists before ev,
          events (m c w) = (before ++ [ev])%list /\ rejection ev = Some e /\
          rejections before = []
    end.

(** The same for code that can also throw an error of its own: a run
    has no rejected call, or it ends with the only one and throws its
    error. *)
Definition rejection_ends {W A : Type} (m : Prog W A) : Prop :=
  forall c w,
    rejections (events (m c w)) = [] \/
    exists before ev e,
      events (m c w) = (before ++ [ev])%list /\ rejection ev = Some e /\
      rejections before = [] /\ outcome (m c w) = Thrown e.

(** An event that is an API request satisfies [P] on its [config]. *)
Definition api_call_satisfies (P : AxiosConfig -> Prop) (ev : Event) : Prop :=
  match ev with ApiCall cfg _ => P cfg | _ => True end.

(** The events of a token fetch: no API request among them. *)
Definition token_events (evs : list Event) : Prop :=
  Forall (fun ev => is_api_call ev = false) evs.


(** The API requests with method PUT. *)
Definition is_write_call (ev : Event) : bool :=
  match ev with
  | ApiCall cfg _ => match method cfg with PUT => true | _ => false end
  | _ => false
  end.

(* ===================================================================== *)
(** ** A scripted upstream, for concrete runs *)
(* ===================================================================== *)

Module Demo.

(** The world is the clock; every upstream call takes one millisecond. *)
Record Script : Type := {
  token_reply : AxiosError + TokenData;
  api_reply : AxiosConfig -> AxiosError + ResponseData
}.

(** [new Date(s)] on the two date strings the examples use. *)
Definition parse (s : string) : option Z :=
  if String.eqb s "2030-01-01T10:00:00.000Z" then Some 1893492000000
  else if String.eqb s "2030-01-01T12:00:00.000Z" then Some 1893499200000
  else None.

(** The engine's lower-casing on the strings beyond ASCII that the
    examples use: "JOSÉ@X.COM" lower-cases to "josé@x.com", which is
    already in lower case.  (No example uses another such string; the
    theorems hold for every engine.) *)
Definition lower_unicode (c : ascii) (rest : string) : ascii * string :=
  if String.eqb (String c rest) "JOSÉ@X.COM" then ("j"%char, "osé@x.com")
  else (c, rest).

Definition runtime (s : Script) : Runtime Z :=
  {| Date_now := fun w => (w, w);
     Date_parse := parse;
     toLowerCase_unicode := lower_unicode;
     axios_post := fun _ w => (token_reply s, w + 1);
     axios := fun cfg w => (api_reply s cfg, w + 1) |}.

(** 2026-11-03T00:00:00Z *)
Definition t0 : Z := 1793664000000.

Definition hour_token : AxiosError + TokenData :=
  inr {| access_token := "tok"; expires_in := 3600 |}.

Definition minute_token : AxiosError + TokenData :=
  inr {| access_token := "tok"; expires_in := 60 |}.

Definition ann : Client.t :=
  Client.mk "C-1" "Ann" "Lee" (Some "(555) 123-4567") (Some "Ann@Example.com").

Definition apt (id time : string) (cancelled : bool) (digits : Z) : Appointment.t :=
  Appointment.mk id time cancelled "S-1" "C-1" "E-1" digits.

Definition listing : list Appointment.t :=
  [ apt "APT-2" "2030-01-01T12:00:00.000Z" false 20;
    apt "APT-1" "2030-01-01T10:00:00.000Z" false 10 ].

Definition details_of (digits : Z) : Details.t :=
  Details.mk "S-1" "C-1" "E-1" digits "2030-01-01T10:00:00.000Z".

(** A platform with one client and the two appointments of [listing];
    the running-late read reports concurrency digits 11. *)
Definition salon_reply (cfg : AxiosConfig) : AxiosError + ResponseData :=
  match endpoint cfg, method cfg with
  | ClientsLookup _, _ => inr (ClientsData [ann])
  | ClientsList _, _ => inr (ClientsData [ann])
  | ClientServices _ _, _ => inr (AppointmentsData listing)
  | RunningLate _ _, GET => inr (DetailsData (details_of 11))
  | RunningLate _ _, _ => inr NoData
  end.

Definition salon : Runtime Z :=
  runtime {| token_reply := hour_token; api_reply := salon_reply |}.

(** The same platform, rejecting the write. *)
Definition conflict_reply (cfg : AxiosConfig) : AxiosError + ResponseData :=
  match endpoint cfg, method cfg with
  | RunningLate _ _, PUT =>
      inl {| response_error_message := Some "Concurrency conflict" |}
  | _, _ => salon_reply cfg
  end.

Definition conflicting_salon : Runtime Z :=
  runtime {| token_reply := hour_token; api_reply := conflict_reply |}.

(** A platform whose tokens live for one minute. *)
Definition short_lived : Runtime Z :=
  runtime {| token_reply := minute_token; api_reply := salon_reply |}.

Definition by_phone (phone : string) : Req.t :=
  Req.mk None (Some phone) None None None.

Definition by_id (id : string) : Req.t :=
  Req.mk (Some id) None None None None.

Definition empty_request : Req.t := Req.mk None None None None None.

End Demo.

(* ===================================================================== *)
(** ** Further readings of a run and of the cache *)
(* ===================================================================== *)

(** The location an endpoint is scoped to (its [LocationId] parameter). *)
Definition endpoint_location (e : Endpoint) : string :=
  match e with
  | ClientsLookup loc => loc
  | ClientsList loc => loc
  | ClientServices _ loc => loc
  | RunningLate loc _ => loc
  end.

(** A token request that was answered with a token. *)
Definition token_granted (ev : Event) : bool :=
  match ev with TokenCall _ (inr _) => true | _ => false end.

(** Both slots of the cache are set, or neither is. *)
Definition slots_paired (c : TokenCache) : Prop :=
  token c = None <-> tokenExpiry c = None.

(** Every value a run of [m] returns satisfies [Q]. *)
Definition answers {W A : Type} (Q : A -> Prop) (m : Prog W A) : Prop :=
  forall c w a, outcome (m c w) = Returned a -> Q a.

(** A run of [m] in which no token is granted leaves the cache as it
    was. *)
Definition cache_moves_by_grant {W A : Type} (m : Prog W A) : Prop :=
  forall c w,
    Forall (fun ev => token_granted ev = false) (events (m c w)) ->
    cache (m c w) = c.

(** Runs of [m] keep the property [I] of the cache. *)
Definition keeps {W A : Type} (I : TokenCache -> Prop) (m : Prog W A) : Prop :=
  forall c w, I c -> I (cache (m c w)).

(** The two shapes of an answer of the handler. *)
Definition is_marked (b : Res.t) : Prop :=
  exists aptServiceId startTime, b = marked aptServiceId startTime.

Definition is_failure (b : Res.t) : Prop := exists msg, b = failure msg.

(** The body the handler sends for an outcome of its [try] block. *)
Definition answer_of (o : Outcome Res.t) : Res.t :=
  match o with Returned b => b | Thrown e => on_error e end.

(** What the write sends and what the answer reports as
    [appointment_time], by the body [x] that the running-late read
    returned: the five members are those of a details object; an array
    has none of them, so they are left out; a body without [data] is
    never written from. *)
Inductive UpdateFrom : ResponseData -> UpdateBody -> option string -> Prop :=
| update_from_details d :
    UpdateFrom (DetailsData d)
      {| ServiceId := Some (Details.serviceId d);
         ClientId := Some (Details.clientId d);
         EmployeeId := Some (Details.employeeId d);
         ConcurrencyCheckDigits := Some (Details.concurrencyCheckDigits d);
         StartTime := Some (Details.startTime d);
         IsRunningLate := true |}
      (Some (Details.startTime d))
| update_from_clients l :
    UpdateFrom (ClientsData l)
      {| ServiceId := None; ClientId := None; EmployeeId := None;
         ConcurrencyCheckDigits := None; StartTime := None;
         IsRunningLate := true |}
      None
| update_from_appointments l :
    UpdateFrom (AppointmentsData l)
      {| ServiceId := None; ClientId := None; EmployeeId := None;
         ConcurrencyCheckDigits := None; StartTime := None;
         IsRunningLate := true |}
      None.

(** *** The paths of the current handler

    Each path of the handler, by the API calls it makes (with their
    results, in order) and by how it ends.  [attempt_path] below proves
    that every run follows one of them. *)
Definition Calls : Type := list (AxiosConfig * (AxiosError + ResponseData)).

Section Paths.
Context {W : Type} (rt : Runtime W).

(** Lines 155-196. *)
Inductive MarkPath (loc id : string) : Calls -> Outcome Res.t -> Prop :=
| mark_read_unauthorised e :
    MarkPath loc id [] (Thrown e)
| mark_read_rejected tk e :
    MarkPath loc id
      [(config (RunningLate loc id) GET None tk, inl e)] (Thrown e)
| mark_read_empty tk x :
    truthy_data (response_data x) = false ->
    MarkPath loc id
      [(config (RunningLate loc id) GET None tk, inr x)]
      (Returned (failure "Could not get appointment details"))
| mark_write_unauthorised tk x e :
    truthy_data (response_data x) = true ->
    MarkPath loc id
      [(config (RunningLate loc id) GET None tk, inr x)] (Thrown e)
| mark_write_rejected tk x tk2 e :
    truthy_data (response_data x) = true ->
    MarkPath loc id
      [(config (RunningLate loc id) GET None tk, inr x);
       (config (RunningLate loc id) PUT
          (Some (UpdateData (V3.updateBody (response_data x)))) tk2, inl e)]
      (Thrown e)
| mark_written tk x tk2 y :
    truthy_data (response_data x) = true ->
    MarkPath loc id
      [(config (RunningLate loc id) GET None tk, inr x);
       (config (RunningLate loc id) PUT
          (Some (UpdateData (V3.updateBody (response_data x)))) tk2, inr y)]
      (Returned (marked id (property Field.startTime (response_data x)))).

(** Lines 85-146. *)
Inductive ResolvePath (loc : string) (phone email : option string)
  : Calls -> Outcome (Res.t + option string) -> Prop :=
| resolve_lookup_unauthorised e :
    ResolvePath loc phone email [] (Thrown e)
| resolve_lookup_rejected tk e :
    ResolvePath loc phone email
      [(config (ClientsLookup loc) POST
          (Some (LookupData (lookupBody (normalizedPhone phone) (normalizedEmail rt email)))) tk,
        inl e)]
      (Thrown e)
| resolve_no_client tk x :
    JS.truthy (V3.first_clientId x) = false ->
    ResolvePath loc phone email
      [(config (ClientsLookup loc) POST
          (Some (LookupData (lookupBody (normalizedPhone phone) (normalizedEmail rt email)))) tk,
        inr x)]
      (Returned (inl (failure "No client found with that phone number or email")))
| resolve_listing_unauthorised tk x cid e :
    V3.first_clientId x = Some cid -> cid <> "" ->
    ResolvePath loc phone email
      [(config (ClientsLookup loc) POST
          (Some (LookupData (lookupBody (normalizedPhone phone) (normalizedEmail rt email)))) tk,
        inr x)]
      (Thrown e)
| resolve_listing_rejected tk x cid tk2 e :
    V3.first_clientId x = Some cid -> cid <> "" ->
    ResolvePath loc phone email
      [(config (ClientsLookup loc) POST
          (Some (LookupData (lookupBody (normalizedPhone phone) (normalizedEmail rt email)))) tk,
        inr x);
       (config (ClientServices cid loc) GET None tk2, inl e)]
      (Thrown e)
| resolve_no_appointment tk x cid tk2 y :
    V3.first_clientId x = Some cid -> cid <> "" ->
    (forall o l, response_data y <> Array (o :: l)) ->
    ResolvePath loc phone email
      [(config (ClientsLookup loc) POST
          (Some (LookupData (lookupBody (normalizedPhone phone) (normalizedEmail rt email)))) tk,
        inr x);
       (config (ClientServices cid loc) GET None tk2, inr y)]
      (Returned (inl (failure "No appointments found for this client")))
| resolve_listed tk x cid tk2 y o l t :
    V3.first_clientId x = Some cid -> cid <> "" ->
    response_data y = Array (o :: l) ->
    ResolvePath loc phone email
      [(config (ClientsLookup loc) POST
          (Some (LookupData (lookupBody (normalizedPhone phone) (normalizedEmail rt email)))) tk,
        inr x);
       (config (ClientServices cid loc) GET None tk2, inr y)]
      (Returned match upcoming_entry rt t (o :: l) with
                | Some u => inr (Field.appointmentServiceId u)
                | None =>
                    inl (failure "No upcoming appointments found to mark as running late")
                end).

(** Lines 148-196. *)
Inductive FinishPath (loc : string) : Res.t + option string -> Calls -> Outcome Res.t -> Prop :=
| finish_answered response :
    FinishPath loc (inl response) [] (Returned response)
| finish_missing aptServiceId :
    JS.truthy aptServiceId = false ->
    FinishPath loc (inr aptServiceId) []
      (Returned (failure "Missing appointment_service_id or client_phone/client_email to lookup"))
| finish_mark id calls o :
    id <> "" ->
    MarkPath loc id calls o ->
    FinishPath loc (inr (Some id)) calls o.

(** The body of the [try] block. *)
Inductive AttemptPath (req : Req.t) : Calls -> Outcome Res.t -> Prop :=
| attempt_without_lookup calls o :
    negb (JS.truthy (Req.appointment_service_id req)) &&
      (JS.truthy (Req.client_phone req) || JS.truthy (Req.client_email req)) = false ->
    FinishPath (JS.or_else (Req.location_id req) CONFIG.LOCATION_ID)
      (inr (Req.appointment_service_id req)) calls o ->
    AttemptPath req calls o
| attempt_lookup_thrown calls e :
    negb (JS.truthy (Req.appointment_service_id req)) &&
      (JS.truthy (Req.client_phone req) || JS.truthy (Req.client_email req)) = true ->
    ResolvePath (JS.or_else (Req.location_id req) CONFIG.LOCATION_ID)
      (Req.client_phone req) (Req.client_email req) calls (Thrown e) ->
    AttemptPath req calls (Thrown e)
| attempt_lookup_returned calls1 resolved calls2 o :
    negb (JS.truthy (Req.appointment_service_id req)) &&
      (JS.truthy (Req.client_phone req) || JS.truthy (Req.client_email req)) = true ->
    ResolvePath (JS.or_else (Req.location_id req) CONFIG.LOCATION_ID)
      (Req.client_phone req) (Req.client_email req) calls1 (Returned resolved) ->
    FinishPath (JS.or_else (Req.location_id req) CONFIG.LOCATION_ID) resolved calls2 o ->
    AttemptPath req (calls1 ++ calls2)%list o.
End Paths.

(** More scripted platforms. *)
Module Scenarios.

(** The lookup finds nobody. *)
Definition nobody_reply (cfg : AxiosConfig) : AxiosError + ResponseData :=
  match endpoint cfg with
  | ClientsLookup _ => inr (ClientsData [])
  | _ => Demo.salon_reply cfg
  end.

Definition nobody : Runtime Z :=
  Demo.runtime {| Demo.token_reply := Demo.hour_token; Demo.api_reply := nobody_reply |}.

(** The client has no appointment. *)
Definition idle_reply (cfg : AxiosConfig) : AxiosError + ResponseData :=
  match endpoint cfg with
  | ClientServices _ _ => inr (AppointmentsData [])
  | _ => Demo.salon_reply cfg
  end.

Definition idle : Runtime Z :=
  Demo.runtime {| Demo.token_reply := Demo.hour_token; Demo.api_reply := idle_reply |}.

(** The token endpoint rejects the credentials. *)
Definition locked_out : Runtime Z :=
  Demo.runtime {| Demo.token_reply := inl {| response_error_message := None |};
                  Demo.api_reply := Demo.salon_reply |}.

Definition warm_cache : TokenCache :=
  {| token := Some "tok"; tokenExpiry := Some (Demo.t0 + 3600000) |}.

(** Platforms that answer an endpoint with data of another shape. *)

(** The lookup answers with the listing of appointments. *)
Definition listing_for_lookup_reply (cfg : AxiosConfig) : AxiosError + ResponseData :=
  match endpoint cfg with
  | ClientsLookup _ => inr (AppointmentsData Demo.listing)
  | _ => Demo.salon_reply cfg
  end.

Definition listing_for_lookup : Runtime Z :=
  Demo.runtime {| Demo.token_reply := Demo.hour_token;
                  Demo.api_reply := listing_for_lookup_reply |}.

(** The appointments query answers with a list of clients. *)
Definition clients_for_listing_reply (cfg : AxiosConfig) : AxiosError + ResponseData :=
  match endpoint cfg with
  | ClientServices _ _ => inr (ClientsData [Demo.ann])
  | _ => Demo.salon_reply cfg
  end.

Definition clients_for_listing : Runtime Z :=
  Demo.runtime {| Demo.token_reply := Demo.hour_token;
                  Demo.api_reply := clients_for_listing_reply |}.

(** The running-late read answers with a list. *)
Definition listing_for_details_reply (cfg : AxiosConfig) : AxiosError + ResponseData :=
  match endpoint cfg, method cfg with
  | RunningLate _ _, GET => inr (AppointmentsData Demo.listing)
  | _, _ => Demo.salon_reply cfg
  end.

Definition listing_for_details : Runtime Z :=
  Demo.runtime {| Demo.token_reply := Demo.hour_token;
                  Demo.api_reply := listing_for_details_reply |}.

(** The client list answers with one object. *)
Definition details_for_clients_reply (cfg : AxiosConfig) : AxiosError + ResponseData :=
  match endpoint cfg with
  | ClientsList _ => inr (DetailsData (Demo.details_of 11))
  | _ => Demo.salon_reply cfg
  end.

Definition details_for_clients : Runtime Z :=
  Demo.runtime {| Demo.token_reply := Demo.hour_token;
                  Demo.api_reply := details_for_clients_reply |}.

End Scenarios.

(* ===================================================================== *)
(** * Properties *)
(* ===================================================================== *)

Local Open Scope list_scope.

Example normalizePhone_scenario_A :
  normalizePhone "+1 (555) 123-4567" = "5551234567".
Proof. reflexivity. Qed.

Example normalizePhone_short : normalizePhone "555-1234" = "5551234".
Proof. reflexivity. Qed.

Example normalizePhone_no_digit : normalizePhone "n/a" = "".
Proof. reflexivity. Qed.


(* ===================================================================== *)
(** ** Strings as lists of characters *)
(* ===================================================================== *)

Lemma length_list_ascii (s : string) :
  Datatypes.length (list_ascii_of_string s) = String.length s.
Proof. induction s as [|c s IH]; simpl; congruence. Qed.

Lemma list_ascii_substring (s : string) : forall n m,
  list_ascii_of_string (substring n m s) = firstn m (skipn n (list_ascii_of_string s)).
Proof.
  induction s as [|c s IH]; intros n m.
  - destruct n, m; reflexivity.
  - destruct n as [|n]; simpl.
    + destruct m as [|m]; simpl; [reflexivity|].
      rewrite IH. reflexivity.
    + apply IH.
Qed.

Lemma list_ascii_replace_non_digits (s : string) :
  list_ascii_of_string (JS.replace_non_digits s) = digits_of s.
Proof.
  unfold digits_of.
  induction s as [|c s IH]; simpl; [reflexivity|].
  destruct (JS.is_digit c); simpl; congruence.
Qed.

Lemma list_ascii_inj (s1 s2 : string) :
  list_ascii_of_string s1 = list_ascii_of_string s2 -> s1 = s2.
Proof.
  intros H.
  rewrite <- (string_of_list_ascii_of_string s1), <- (string_of_list_ascii_of_string s2).
  now rewrite H.
Qed.

Lemma last_n_skipn {A : Type} (n : nat) (l : list A) :
  last_n n l = skipn (Datatypes.length l - n) l.
Proof. unfold last_n. rewrite firstn_rev, rev_involutive. reflexivity. Qed.

(** [slice(-k)] keeps the last [k] characters, or all of them when there
    are fewer. *)
Lemma list_ascii_slice_negative (k : nat) (s : string) :
  (0 < k)%nat ->
  list_ascii_of_string (JS.slice (- Z.of_nat k) s) = last_n k (list_ascii_of_string s).
Proof.
  intros Hk. unfold JS.slice.
  destruct (Z.ltb_spec (- Z.of_nat k) 0) as [_|Hge]; [|lia].
  rewrite list_ascii_substring, last_n_skipn, length_list_ascii.
  set (len := String.length s).
  replace (Z.to_nat (Z.max (Z.of_nat len + - Z.of_nat k) 0)) with (len - k)%nat by lia.
  apply firstn_all2.
  rewrite length_skipn, length_list_ascii. fold len. lia.
Qed.

Lemma normalizePhone_as_list (phone : string) :
  list_ascii_of_string (normalizePhone phone) = last_n 10 (digits_of phone).
Proof.
  unfold normalizePhone.
  change (-10) with (- Z.of_nat 10).
  rewrite list_ascii_slice_negative by lia.
  now rewrite list_ascii_replace_non_digits.
Qed.

Lemma digits_of_all_digits (s : string) :
  Forall (fun c => JS.is_digit c = true) (digits_of s).
Proof.
  unfold digits_of. apply Forall_forall. intros c Hc.
  apply filter_In in Hc. tauto.
Qed.

(** C4. For a phone string with at least ten digit characters, the
    normalisation [replace(/\D/g,'').slice(-10)] is exactly the string of
    its last ten digits: it has length ten, holds digits only, and what it
    drops from the digit sequence is a prefix (the country code). *)
Theorem normalizePhone_last_ten_digits (phone : string) :
  (10 <= Datatypes.length (digits_of phone))%nat ->
  normalizePhone phone = last_digits 10 phone /\
  String.length (normalizePhone phone) = 10%nat /\
  Forall (fun c => JS.is_digit c = true) (list_ascii_of_string (normalizePhone phone)) /\
  exists country_code,
    digits_of phone = (country_code ++ list_ascii_of_string (normalizePhone phone))%list.
Proof.
  intros Hten.
  pose proof (normalizePhone_as_list phone) as Hl.
  split; [|split; [|split]].
  - apply list_ascii_inj. unfold last_digits.
    now rewrite list_ascii_of_string_of_list_ascii.
  - rewrite <- length_list_ascii, Hl, last_n_skipn, length_skipn. lia.
  - rewrite Hl, last_n_skipn.
    apply Forall_forall. intros c Hc.
    pose proof (digits_of_all_digits phone) as Hall.
    rewrite Forall_forall in Hall. apply Hall.
    rewrite <- (firstn_skipn (Datatypes.length (digits_of phone) - 10) (digits_of phone)).
    apply in_or_app. now right.
  - exists (firstn (Datatypes.length (digits_of phone) - 10) (digits_of phone)).
    rewrite Hl, last_n_skipn. symmetry. apply firstn_skipn.
Qed.

Lemma normalizePhone_last_ten_digits_witness :
  (10 <= Datatypes.length (digits_of "+1 (555) 123-4567"))%nat /\
  normalizePhone "+1 (555) 123-4567" = last_digits 10 "+1 (555) 123-4567".
Proof.
  assert (H : (10 <= Datatypes.length (digits_of "+1 (555) 123-4567"))%nat)
    by (vm_compute; lia).
  split; [exact H|].
  exact (proj1 (normalizePhone_last_ten_digits "+1 (555) 123-4567" H)).
Defined.

(* ===================================================================== *)
(** ** Lower-casing (line 90) *)
(* ===================================================================== *)



Lemma lower_char_small_letter (c : ascii) :
  JS.lower_char c = small_letter capitals smalls c.
Proof.
  destruct c as [[] [] [] [] [] [] [] []]; vm_compute; reflexivity.
Qed.





Lemma lower_ascii_lower_case (s : string) : JS.lower_ascii s = lower_case s.
Proof.
  induction s as [|c s IH]; [reflexivity|].
  cbn [JS.lower_ascii lower_case]. now rewrite IH, lower_char_small_letter.
Qed.



Lemma toLowerCase_ascii unicode (s : string) :
  JS.ascii_only s = true -> JS.toLowerCase unicode s = JS.lower_ascii s.
Proof. unfold JS.toLowerCase. now intros ->. Qed.

(** Lower-casing keeps a string empty or non-empty, whatever the
    engine does beyond ASCII. *)
Lemma toLowerCase_truthy unicode (s : string) :
  JS.truthy_string (JS.toLowerCase unicode s) = JS.truthy_string s.
Proof.
  unfold JS.toLowerCase.
  destruct s as [|c s]; [reflexivity|].
  destruct (JS.ascii_only (String c s)); [reflexivity|].
  now destruct (unicode c s).
Qed.

Section Email.
Context {W : Type} (rt : Runtime W).

End Email.


(* ===================================================================== *)
(** ** The next upcoming appointment (lines 132-135) *)
(* ===================================================================== *)

Lemma hd_error_insert {A : Type} (cmp : A -> A -> option Z) (x : A) (l : list A) :
  hd_error (JS.insert cmp x l) =
  Some match hd_error l with
       | None => x
       | Some y => if JS.before_or_equal cmp x y then x else y
       end.
Proof.
  destruct l as [|y l]; simpl; [reflexivity|].
  destruct (JS.before_or_equal cmp x y); reflexivity.
Qed.

Lemma filter_split {A : Type} (f : A -> bool) (l : list A) : forall b x a,
  filter f l = b ++ x :: a ->
  exists b' a', l = b' ++ x :: a' /\ filter f b' = b /\ filter f a' = a.
Proof.
  induction l as [|y l IH]; intros b x a H; simpl in H.
  - destruct b; discriminate.
  - destruct (f y) eqn:Hy.
    + destruct b as [|z b]; simpl in H; injection H as <- H.
      * exists [], l. simpl. auto.
      * destruct (IH _ _ _ H) as (b' & a' & -> & Hb & Ha).
        exists (y :: b'), a'. simpl. rewrite Hy, Hb. auto.
    + destruct (IH _ _ _ H) as (b' & a' & -> & Hb & Ha).
      exists (y :: b'), a'. simpl. rewrite Hy. auto.
Qed.

Section Upcoming.
Context {W : Type} (rt : Runtime W).

Lemma is_upcoming_inv (t : Z) (a : Appointment.t) :
  is_upcoming rt t a = true ->
  Appointment.isCancelled a = false /\ exists ta, starts_at rt a ta /\ t <= ta.
Proof.
  unfold is_upcoming, starts_at. intros H.
  apply andb_prop in H as [Hc Ht].
  apply negb_true_iff in Hc. split; [exact Hc|].
  destruct (time_of rt a) as [ta|]; [|discriminate].
  exists ta. split; [reflexivity|]. now apply Z.leb_le.
Qed.


(** The head of the sorted list, on appointments whose dates all
    parse: the first one of the earliest instant. *)
Lemma hd_sort_by_startTime (l : list Appointment.t) :
  Forall (fun a => exists ta, starts_at rt a ta) l ->
  match hd_error (JS.sort (by_startTime rt) l) with
  | None => l = []
  | Some u =>
      exists tu before after,
        l = before ++ u :: after /\ starts_at rt u tu /\
        (forall a ta, In a before -> starts_at rt a ta -> tu < ta) /\
        (forall a ta, In a after -> starts_at rt a ta -> tu <= ta)
  end.
Proof.
  induction l as [|x l IH]; intros Hall; [reflexivity|].
  inversion Hall as [|? ? [tx Hx] Hl]; subst.
  simpl. rewrite hd_error_insert.
  specialize (IH Hl).
  destruct (hd_error (JS.sort (by_startTime rt) l)) as [y|].
  - destruct IH as (ty & before & after & -> & Hy & Hb & Ha).
    unfold JS.before_or_equal, by_startTime.
    unfold starts_at in Hx, Hy. rewrite Hx, Hy.
    destruct (Z.leb_spec (tx - ty) 0) as [Hle|Hgt].
    + exists tx, [], (before ++ y :: after). simpl.
      repeat split; [exact Hx|contradiction|].
      intros a ta Hin Hta.
      apply in_app_or in Hin as [Hin|[<-|Hin]].
      * specialize (Hb a ta Hin Hta). lia.
      * unfold starts_at in Hta. rewrite Hy in Hta. injection Hta as <-. lia.
      * specialize (Ha a ta Hin Hta). lia.
    + exists ty, (x :: before), after. simpl.
      repeat split; [exact Hy| |exact Ha].
      intros a ta [<-|Hin] Hta.
      * unfold starts_at in Hta. rewrite Hx in Hta. injection Hta as <-. lia.
      * eauto.
  - subst l. exists tx, [], []. simpl.
    repeat split; [exact Hx|contradiction|contradiction].
Qed.

(** [upcoming] picks, among the appointments that are not cancelled
    and start at [t] or later, the first one in the listing's order of
    the earliest start; it finds nothing exactly when there is none. *)
Lemma upcoming_spec (t : Z) (l : list Appointment.t) :
  match upcoming rt t l with
  | None => forall a, In a l -> is_upcoming rt t a = false
  | Some u =>
      exists tu before after,
        l = before ++ u :: after /\
        Appointment.isCancelled u = false /\ starts_at rt u tu /\ t <= tu /\
        (forall a ta, In a before -> is_upcoming rt t a = true ->
                      starts_at rt a ta -> tu < ta) /\
        (forall a ta, In a after -> is_upcoming rt t a = true ->
                      starts_at rt a ta -> tu <= ta)
  end.
Proof.
  unfold upcoming.
  assert (Hall : Forall (fun a => exists ta, starts_at rt a ta) (filter (is_upcoming rt t) l)).
  { apply Forall_forall. intros a Ha. apply filter_In in Ha as [_ Ha].
    apply is_upcoming_inv in Ha as (_ & ta & Hta & _). eauto. }
  pose proof (hd_sort_by_startTime _ Hall) as H.
  destruct (hd_error (JS.sort (by_startTime rt) (filter (is_upcoming rt t) l))) as [u|].
  - destruct H as (tu & before & after & Hsplit & Hu & Hb & Ha).
    assert (Hin : In u (filter (is_upcoming rt t) l))
      by (rewrite Hsplit; apply in_or_app; right; now left).
    apply filter_In in Hin as [_ Hup].
    apply is_upcoming_inv in Hup as (Hc & tu' & Hu' & Hle).
    unfold starts_at in Hu, Hu'. rewrite Hu in Hu'. injection Hu' as <-.
    destruct (filter_split _ _ _ _ _ Hsplit) as (b' & a' & -> & <- & <-).
    exists tu, b', a'. repeat split; auto.
    + intros a ta Hin Hup Hta. apply (Hb a ta); [|exact Hta].
      apply filter_In. auto.
    + intros a ta Hin Hup Hta. apply (Ha a ta); [|exact Hta].
      apply filter_In. auto.
  - intros a Hin. destruct (is_upcoming rt t a) eqn:Hup; [|reflexivity].
    assert (Hf : In a (filter (is_upcoming rt t) l)) by (apply filter_In; auto).
    rewrite H in Hf. contradiction.
Qed.
(** The entries of an array, read as the handler reads them. *)
Lemma insert_map {A B : Type} (f : A -> B) cmp cmp' (x : A) (l : list A) :
  (forall a b, cmp' (f a) (f b) = cmp a b) ->
  JS.insert cmp' (f x) (map f l) = map f (JS.insert cmp x l).
Proof.
  intros Hcmp. induction l as [|y l IH]; [reflexivity|].
  cbn [map JS.insert]. unfold JS.before_or_equal. rewrite Hcmp.
  destruct (match cmp x y with Some v => v <=? 0 | None => true end);
    [reflexivity|]. cbn [map]. now rewrite IH.
Qed.

Lemma sort_map {A B : Type} (f : A -> B) cmp cmp' (l : list A) :
  (forall a b, cmp' (f a) (f b) = cmp a b) ->
  JS.sort cmp' (map f l) = map f (JS.sort cmp l).
Proof.
  intros Hcmp. induction l as [|x l IH]; [reflexivity|].
  cbn [map JS.sort]. rewrite IH. now apply insert_map.
Qed.

Lemma filter_map {A B : Type} (f : A -> B) (p : B -> bool) (l : list A) :
  filter p (map f l) = map f (filter (fun a => p (f a)) l).
Proof.
  induction l as [|x l IH]; [reflexivity|].
  cbn [map filter]. rewrite IH. now destruct (p (f x)).
Qed.

(** On an array of appointments [upcoming_entry] is [upcoming]. *)
Lemma upcoming_entry_appointments (t : Z) (l : list Appointment.t) :
  upcoming_entry rt t (map OfAppointment l) = option_map OfAppointment (upcoming rt t l).
Proof.
  unfold upcoming_entry, upcoming.
  rewrite filter_map.
  rewrite (sort_map OfAppointment (by_startTime rt) (entry_by_startTime rt))
    by reflexivity.
  now destruct (JS.sort (by_startTime rt) _).
Qed.

(** An entry without [startTime] is never upcoming: on an array of
    clients the filter keeps nothing. *)
Lemma upcoming_entry_clients (t : Z) (l : list Client.t) :
  upcoming_entry rt t (map OfClient l) = None.
Proof.
  unfold upcoming_entry. rewrite filter_map.
  replace (filter (fun a => entry_is_upcoming rt t (OfClient a)) l) with (@nil Client.t);
    [reflexivity|].
  induction l as [|x l IH]; [reflexivity|].
  cbn [filter]. unfold entry_is_upcoming at 1, entry_time. cbn [Field.startTime].
  rewrite andb_false_r. exact IH.
Qed.

(** What [upcoming_entry] picks is an entry of the array that passed
    the filter. *)
Lemma in_insert {A : Type} (cmp : A -> A -> option Z) (x y : A) (l : list A) :
  In y (JS.insert cmp x l) -> y = x \/ In y l.
Proof.
  induction l as [|z l IH]; cbn [JS.insert].
  - intros [<-|[]]. now left.
  - destruct (JS.before_or_equal cmp x z).
    + intros [<-|H]; [now left|now right].
    + intros [<-|H]; [right; now left|].
      destruct (IH H) as [->|Hin]; [now left|right; now right].
Qed.

Lemma in_sort {A : Type} (cmp : A -> A -> option Z) (y : A) (l : list A) :
  In y (JS.sort cmp l) -> In y l.
Proof.
  induction l as [|x l IH]; cbn [JS.sort]; [easy|].
  intros H. destruct (in_insert _ _ _ _ H) as [->|Hin]; [now left|right; auto].
Qed.

Lemma upcoming_entry_in (t : Z) (l : list Item) (u : Item) :
  upcoming_entry rt t l = Some u -> In u l /\ entry_is_upcoming rt t u = true.
Proof.
  unfold upcoming_entry. intros H.
  assert (Hin : In u (JS.sort (entry_by_startTime rt) (filter (entry_is_upcoming rt t) l))).
  { destruct (JS.sort _ _) as [|y rest]; [discriminate H|].
    injection H as ->. now left. }
  apply in_sort in Hin. now apply filter_In in Hin.
Qed.
End Upcoming.

(* ===================================================================== *)
(** ** Reasoning about runs *)
(* ===================================================================== *)

Lemma api_requests_app (l1 l2 : list Event) :
  api_requests (l1 ++ l2) = api_requests l1 ++ api_requests l2.
Proof.
  induction l1 as [|[t|rq rs|cfg rs] l1 IH]; simpl; rewrite ?IH; reflexivity.
Qed.

Lemma rejections_app (l1 l2 : list Event) :
  rejections (l1 ++ l2) = rejections l1 ++ rejections l2.
Proof. unfold rejections. apply flat_map_app. Qed.

Lemma api_requests_none (l : list Event) :
  Forall (fun ev => is_api_call ev = false) l -> api_requests l = [].
Proof.
  induction 1 as [|[t|rq rs|cfg rs] l Hx Hl IH]; simpl; auto; discriminate.
Qed.

(** A log is cut in one way only at an event that is the only one of
    its kind. *)
Lemma split_unique {A : Type} (P : A -> bool) (l1 : list A) : forall x l2 pre y post,
  l1 ++ x :: l2 = pre ++ y :: post ->
  P y = true ->
  Forall (fun a => P a = false) l1 ->
  Forall (fun a => P a = false) l2 ->
  pre = l1 /\ y = x /\ post = l2.
Proof.
  induction l1 as [|a l1 IH]; intros x l2 pre y post Heq Hy H1 H2.
  - destruct pre as [|b pre]; simpl in Heq; injection Heq as -> Heq.
    + auto.
    + exfalso. subst l2. rewrite Forall_forall in H2.
      assert (Hin : In y (pre ++ y :: post)) by (apply in_or_app; right; now left).
      specialize (H2 y Hin). congruence.
  - inversion H1; subst.
    destruct pre as [|b pre]; simpl in Heq; injection Heq as -> Heq.
    + congruence.
    + destruct (IH _ _ _ _ _ Heq Hy) as (-> & -> & ->); auto.
Qed.

Section Runs.
Context {W : Type} (rt : Runtime W).

Lemma emits_ret {A : Type} Q (a : A) : emits Q (ret a : Prog W A).
Proof. intros c w. constructor. Qed.

Lemma emits_throw {A : Type} Q e : emits Q (throw e : Prog W A).
Proof. intros c w. constructor. Qed.

Lemma emits_bind {A B : Type} Q (m : Prog W A) (k : A -> Prog W B) :
  emits Q m -> (forall a, emits Q (k a)) -> emits Q (bind m k).
Proof.
  intros Hm Hk c w. unfold bind.
  specialize (Hm c w).
  destruct (outcome (m c w)) as [a|e]; simpl; [|exact Hm].
  apply Forall_app. split; [exact Hm|apply Hk].
Qed.

Lemma stops_ret {A : Type} (a : A) : stops_at_rejection (ret a : Prog W A).
Proof. intros c w. reflexivity. Qed.

Lemma stops_bind {A B : Type} (m : Prog W A) (k : A -> Prog W B) :
  stops_at_rejection m -> (forall a, stops_at_rejection (k a)) ->
  stops_at_rejection (bind m k).
Proof.
  intros Hm Hk c w. unfold bind.
  specialize (Hm c w).
  destruct (outcome (m c w)) as [a|e]; cbn [outcome events after]; [|exact Hm].
  specialize (Hk a (cache (m c w)) (world (m c w))).
  destruct (outcome (k a (cache (m c w)) (world (m c w)))) as [b|e].
  - now rewrite rejections_app, Hm, Hk.
  - destruct Hk as (before & ev & -> & Hev & Hbefore).
    exists (events (m c w) ++ before), ev.
    rewrite app_assoc, rejections_app, Hm, Hbefore. auto.
Qed.

Lemma stops_rejections {A : Type} (m : Prog W A) c w :
  stops_at_rejection m ->
  rejections (events (m c w)) =
  match outcome (m c w) with Returned _ => [] | Thrown e => [e] end.
Proof.
  intros Hm. specialize (Hm c w).
  destruct (outcome (m c w)) as [a|e]; [exact Hm|].
  destruct Hm as (before & ev & -> & Hev & Hbefore).
  rewrite rejections_app, Hbefore. cbn. now rewrite Hev.
Qed.

Lemma emits_now Q : (forall t, Q (Clock t)) -> emits Q (now rt).
Proof.
  intros HQ c w. unfold now. destruct (Date_now rt w). simpl. auto.
Qed.

Lemma stops_now : stops_at_rejection (now rt).
Proof. intros c w. unfold now. destruct (Date_now rt w). reflexivity. Qed.

Lemma emits_post Q req : (forall res, Q (TokenCall req res)) -> emits Q (post rt req).
Proof.
  intros HQ c w. unfold post. destruct (axios_post rt req w). simpl. auto.
Qed.

Lemma stops_post req : stops_at_rejection (post rt req).
Proof.
  intros c w. unfold post. destruct (axios_post rt req w) as [[e|a] w'];
    cbn [outcome events of_result]; [|reflexivity].
  exists [], (TokenCall req (inl e)). auto.
Qed.

Lemma emits_request Q cfg : (forall res, Q (ApiCall cfg res)) -> emits Q (request rt cfg).
Proof.
  intros HQ c w. unfold request. destruct (axios rt cfg w). simpl. auto.
Qed.

Lemma stops_request cfg : stops_at_rejection (request rt cfg).
Proof.
  intros c w. unfold request. destruct (axios rt cfg w) as [[e|a] w'];
    cbn [outcome events of_result]; [|reflexivity].
  exists [], (ApiCall cfg (inl e)). auto.
Qed.

Lemma emits_getToken Q :
  (forall t, Q (Clock t)) -> (forall req res, Q (TokenCall req res)) ->
  emits Q (getToken rt).
Proof.
  intros Hc Ht. unfold getToken.
  assert (Hfetch : emits Q
    (bind (post rt credentials)
       (fun res => bind (write_token (access_token res))
          (fun _ => bind (now rt)
             (fun t => bind (write_tokenExpiry (t + expires_in res * 1000))
                (fun _ => ret (access_token res))))))).
  { apply emits_bind; [apply emits_post; auto|]. intros res.
    apply emits_bind; [intros c w; constructor|]. intros _.
    apply emits_bind; [apply emits_now; auto|]. intros t.
    apply emits_bind; [intros c w; constructor|]. intros _.
    apply emits_ret. }
  apply emits_bind; [intros c w; constructor|]. intros c.
  destruct (token c) as [tk|]; [|exact Hfetch].
  destruct (tokenExpiry c) as [ex|]; [|exact Hfetch].
  destruct (JS.truthy_string tk && JS.truthy_number ex); [|exact Hfetch].
  apply emits_bind; [apply emits_now; auto|]. intros t.
  destruct (t <? ex - 300000); [apply emits_ret|exact Hfetch].
Qed.

Lemma stops_getToken : stops_at_rejection (getToken rt).
Proof.
  unfold getToken.
  assert (Hfetch : stops_at_rejection
    (bind (post rt credentials)
       (fun res => bind (write_token (access_token res))
          (fun _ => bind (now rt)
             (fun t => bind (write_tokenExpiry (t + expires_in res * 1000))
                (fun _ => ret (access_token res))))))).
  { apply stops_bind; [apply stops_post|]. intros res.
    apply stops_bind; [intros c w; reflexivity|]. intros _.
    apply stops_bind; [apply stops_now|]. intros t.
    apply stops_bind; [intros c w; reflexivity|]. intros _.
    apply stops_ret. }
  apply stops_bind; [intros c w; reflexivity|]. intros c.
  destruct (token c) as [tk|]; [|exact Hfetch].
  destruct (tokenExpiry c) as [ex|]; [|exact Hfetch].
  destruct (JS.truthy_string tk && JS.truthy_number ex); [|exact Hfetch].
  apply stops_bind; [apply stops_now|]. intros t.
  destruct (t <? ex - 300000); [apply stops_ret|exact Hfetch].
Qed.
End Runs.

(* ===================================================================== *)
(** ** [callMeevoAPI]: a token, then one request *)
(* ===================================================================== *)

Section Calls.
Context {W : Type} (rt : Runtime W).

Lemma getToken_no_api_call :
  emits (fun ev => is_api_call ev = false) (getToken rt).
Proof. apply emits_getToken; reflexivity. Qed.

(** A run of [callMeevoAPI] is a run of [getToken] followed, when the
    token came, by exactly one request, built by [config]. *)
Lemma callMeevoAPI_cases ep m d c w :
  let r := callMeevoAPI rt ep m d c w in
  exists tok,
    Forall (fun ev => is_api_call ev = false) tok /\
    ((exists e, outcome r = Thrown e /\ events r = tok) \/
     (exists tk res,
         outcome r = of_result res /\
         events r = tok ++ [ApiCall (config ep m d tk) res])).
Proof.
  unfold callMeevoAPI, bind. cbv zeta.
  pose proof (getToken_no_api_call c w) as Htok.
  destruct (getToken rt c w) as [[tk|e] c1 w1 evs]; cbn [outcome cache world events] in *.
  - exists evs. split; [exact Htok|]. right.
    unfold request. destruct (axios rt (config ep m d tk) w1) as [res w2].
    cbn [outcome cache world events].
    exists tk, res. split; reflexivity.
  - exists evs. split; [exact Htok|]. left. eauto.
Qed.

Lemma stops_callMeevoAPI ep m d : stops_at_rejection (callMeevoAPI rt ep m d).
Proof.
  apply stops_bind; [apply stops_getToken|]. intros tk. apply stops_request.
Qed.

(** Every API request of [callMeevoAPI ep m d] is [config ep m d _]. *)
Lemma emits_callMeevoAPI (Q : Event -> Prop) ep m d :
  (forall t, Q (Clock t)) -> (forall req res, Q (TokenCall req res)) ->
  (forall tk res, Q (ApiCall (config ep m d tk) res)) ->
  emits Q (callMeevoAPI rt ep m d).
Proof.
  intros Hc Ht Ha.
  apply emits_bind; [apply emits_getToken; auto|]. intros tk.
  apply emits_request. auto.
Qed.
End Calls.


(* ===================================================================== *)
(** ** Stepping through a run *)
(* ===================================================================== *)

Lemma after_nil {W A : Type} (r : Run W A) : after [] r = r.
Proof. destruct r. reflexivity. Qed.

Lemma after_after {W A : Type} (l1 l2 : list Event) (r : Run W A) :
  after l1 (after l2 r) = after (l1 ++ l2) r.
Proof. unfold after. simpl. now rewrite app_assoc. Qed.

Section Steps.
Context {W : Type} (rt : Runtime W).

Lemma bind_returned {A B : Type} (m : Prog W A) (k : A -> Prog W B) c w a c1 w1 evs :
  m c w = {| outcome := Returned a; cache := c1; world := w1; events := evs |} ->
  bind m k c w = after evs (k a c1 w1).
Proof. intros H. unfold bind. rewrite H. reflexivity. Qed.

Lemma bind_thrown {A B : Type} (m : Prog W A) (k : A -> Prog W B) c w e c1 w1 evs :
  m c w = {| outcome := Thrown e; cache := c1; world := w1; events := evs |} ->
  bind m k c w = {| outcome := Thrown e; cache := c1; world := w1; events := evs |}.
Proof. intros H. unfold bind. rewrite H. reflexivity. Qed.

Lemma bind_ret {A B : Type} (a : A) (k : A -> Prog W B) c w :
  bind (ret a) k c w = k a c w.
Proof. unfold bind, ret. simpl. apply after_nil. Qed.

Lemma bind_read_cache {B : Type} (k : TokenCache -> Prog W B) c w :
  bind read_cache k c w = k c c w.
Proof. unfold bind, read_cache. simpl. apply after_nil. Qed.

Lemma bind_write_token {B : Type} v (k : unit -> Prog W B) c w :
  bind (write_token v) k c w =
  k tt {| token := Some v; tokenExpiry := tokenExpiry c |} w.
Proof. unfold bind, write_token. simpl. apply after_nil. Qed.

Lemma bind_write_tokenExpiry {B : Type} v (k : unit -> Prog W B) c w :
  bind (write_tokenExpiry v) k c w =
  k tt {| token := token c; tokenExpiry := Some v |} w.
Proof. unfold bind, write_tokenExpiry. simpl. apply after_nil. Qed.

Lemma bind_now {B : Type} (k : Z -> Prog W B) c w t w0 :
  Date_now rt w = (t, w0) ->
  bind (now rt) k c w = after [Clock t] (k t c w0).
Proof. intros H. unfold bind, now. rewrite H. reflexivity. Qed.

Lemma bind_post {B : Type} req (k : TokenData -> Prog W B) c w res w1 :
  axios_post rt req w = (res, w1) ->
  bind (post rt req) k c w =
  match res with
  | inl e =>
      {| outcome := Thrown e; cache := c; world := w1;
         events := [TokenCall req (inl e)] |}
  | inr td => after [TokenCall req (inr td)] (k td c w1)
  end.
Proof. intros H. unfold bind, post. rewrite H. destruct res; reflexivity. Qed.

Lemma bind_request {B : Type} cfg (k : ResponseData -> Prog W B) c w res w1 :
  axios rt cfg w = (res, w1) ->
  bind (request rt cfg) k c w =
  match res with
  | inl e =>
      {| outcome := Thrown e; cache := c; world := w1;
         events := [ApiCall cfg (inl e)] |}
  | inr x => after [ApiCall cfg (inr x)] (k x c w1)
  end.
Proof. intros H. unfold bind, request. rewrite H. destruct res; reflexivity. Qed.
End Steps.

(* ===================================================================== *)
(** ** The token cache (lines 41-53) *)
(* ===================================================================== *)

Section Token.
Context {W : Type} (rt : Runtime W).

Lemma truthy_string_true (s : string) : s <> "" -> JS.truthy_string s = true.
Proof. destruct s; simpl; congruence. Qed.

Lemma truthy_number_true (n : Z) : n <> 0 -> JS.truthy_number n = true.
Proof. unfold JS.truthy_number. destruct (Z.eqb_spec n 0); simpl; congruence. Qed.

(** A truthy cached token read more than five minutes before its
    expiry is returned; nothing but the clock is touched. *)
Lemma getToken_hit (c : TokenCache) (w : W) tk expiry t w0 :
  token c = Some tk -> tk <> "" ->
  tokenExpiry c = Some expiry -> expiry <> 0 ->
  Date_now rt w = (t, w0) -> t < expiry - 300000 ->
  getToken rt c w =
  {| outcome := Returned tk; cache := c; world := w0; events := [Clock t] |}.
Proof.
  intros Htk Hne Hex Hnz Hnow Hlt.
  apply Z.ltb_lt in Hlt.
  unfold getToken. cbv zeta. rewrite bind_read_cache.
  rewrite Htk, Hex, (truthy_string_true _ Hne), (truthy_number_true _ Hnz).
  cbn [andb]. rewrite (bind_now rt _ _ _ _ _ Hnow), Hlt. reflexivity.
Qed.

(** Below the guard, from world [w0] and after the events [guard] of
    the guard: one token request; on success the two slots are
    assigned around a clock read, on rejection nothing is. *)
Lemma getToken_fetch_from (c : TokenCache) (w : W) (guard : list Event) (w0 : W) res w1 :
  (guard = [] /\ w0 = w /\
   (forall tk expiry, token c = Some tk -> tokenExpiry c = Some expiry ->
                      tk = "" \/ expiry = 0))
  \/
  (exists tk expiry t,
      token c = Some tk /\ tk <> "" /\ tokenExpiry c = Some expiry /\ expiry <> 0 /\
      Date_now rt w = (t, w0) /\ expiry - 300000 <= t /\ guard = [Clock t]) ->
  axios_post rt credentials w0 = (res, w1) ->
  getToken rt c w =
  match res with
  | inl e =>
      {| outcome := Thrown e; cache := c; world := w1;
         events := guard ++ [TokenCall credentials (inl e)] |}
  | inr td =>
      let (t', w2) := Date_now rt w1 in
      {| outcome := Returned (access_token td);
         cache := {| token := Some (access_token td);
                     tokenExpiry := Some (t' + expires_in td * 1000) |};
         world := w2;
         events := guard ++ [TokenCall credentials (inr td); Clock t'] |}
  end.
Proof.
  intros Hguard Hpost.
  assert (Hfetch : forall c,
    bind (post rt credentials)
      (fun res => bind (write_token (access_token res))
         (fun _ => bind (now rt)
            (fun t => bind (write_tokenExpiry (t + expires_in res * 1000))
               (fun _ => ret (access_token res))))) c w0 =
    match res with
    | inl e =>
        {| outcome := Thrown e; cache := c; world := w1;
           events := [TokenCall credentials (inl e)] |}
    | inr td =>
        let (t', w2) := Date_now rt w1 in
        {| outcome := Returned (access_token td);
           cache := {| token := Some (access_token td);
                       tokenExpiry := Some (t' + expires_in td * 1000) |};
           world := w2;
           events := [TokenCall credentials (inr td); Clock t'] |}
    end).
  { intros c0. rewrite (bind_post rt _ _ _ _ _ _ Hpost).
    destruct res as [e|td]; [reflexivity|].
    rewrite bind_write_token.
    destruct (Date_now rt w1) as [t' w2] eqn:Hnow.
    rewrite (bind_now rt _ _ _ _ _ Hnow), bind_write_tokenExpiry.
    reflexivity. }
  unfold getToken. cbv zeta. rewrite bind_read_cache.
  destruct Hguard as [(-> & -> & Hslots) | (tk & expiry & t & Htk & Hne & Hex & Hnz & Hnow & Hge & ->)].
  - cbn [app].
    destruct (token c) as [tk|]; [|apply Hfetch].
    destruct (tokenExpiry c) as [expiry|]; [|apply Hfetch].
    destruct (Hslots tk expiry eq_refl eq_refl) as [-> | ->].
    + apply Hfetch.
    + rewrite andb_false_r. apply Hfetch.
  - apply Z.ltb_ge in Hge.
    rewrite Htk, Hex, (truthy_string_true _ Hne), (truthy_number_true _ Hnz).
    cbn [andb]. rewrite (bind_now rt _ _ _ _ _ Hnow), Hge, Hfetch.
    destruct res as [e|td]; [reflexivity|].
    destruct (Date_now rt w1) as [t' w2]. reflexivity.
Qed.

(** Either the guard lets the cached token through, or it fails in one
    of the two ways of [getToken_fetch_from]. *)
Lemma getToken_guard (c : TokenCache) (w : W) :
  (exists tk expiry t w0,
      token c = Some tk /\ tk <> "" /\ tokenExpiry c = Some expiry /\ expiry <> 0 /\
      Date_now rt w = (t, w0) /\ t < expiry - 300000)
  \/
  (exists guard w0,
      (guard = [] /\ w0 = w /\
       (forall tk expiry, token c = Some tk -> tokenExpiry c = Some expiry ->
                          tk = "" \/ expiry = 0))
      \/
      (exists tk expiry t,
          token c = Some tk /\ tk <> "" /\ tokenExpiry c = Some expiry /\ expiry <> 0 /\
          Date_now rt w = (t, w0) /\ expiry - 300000 <= t /\ guard = [Clock t])).
Proof.
  destruct (token c) as [tk|] eqn:Htk.
  2:{ right. exists [], w. left. repeat split. discriminate. }
  destruct (tokenExpiry c) as [expiry|] eqn:Hex.
  2:{ right. exists [], w. left. repeat split. discriminate. }
  destruct (string_dec tk "") as [->|Hne].
  { right. exists [], w. left. repeat split. intros ? ? [= <-] _. now left. }
  destruct (Z.eq_dec expiry 0) as [->|Hnz].
  { right. exists [], w. left. repeat split. intros ? ? _ [= <-]. now right. }
  destruct (Date_now rt w) as [t w0] eqn:Hnow.
  destruct (Z.lt_ge_cases t (expiry - 300000)) as [Hlt|Hge].
  - left. exists tk, expiry, t, w0. auto 10.
  - right. exists [Clock t], w0. right. exists tk, expiry, t. auto 10.
Qed.

(** C3, as amended.  A truthy cached token read more than 300000 ms
    before its expiry is returned and nothing changes but the clock.  In
    every other case exactly one request goes to the token endpoint: when
    it succeeds both slots are replaced (the expiry is the time read
    after the response plus 1000 times the reported lifetime) and the new
    token is returned; when it is rejected the error is thrown and the
    slots are left as they were.  A run without a token request is a run
    that served the cached token outside the margin. *)
Theorem getToken_cache_or_refresh (c : TokenCache) (w : W) :
  (forall tk expiry t w0,
      token c = Some tk -> tk <> "" ->
      tokenExpiry c = Some expiry -> expiry <> 0 ->
      Date_now rt w = (t, w0) -> t < expiry - 300000 ->
      getToken rt c w =
      {| outcome := Returned tk; cache := c; world := w0; events := [Clock t] |})
  /\
  (forall guard w0 res w1,
      (guard = [] /\ w0 = w /\
       (forall tk expiry, token c = Some tk -> tokenExpiry c = Some expiry ->
                          tk = "" \/ expiry = 0))
      \/
      (exists tk expiry t,
          token c = Some tk /\ tk <> "" /\ tokenExpiry c = Some expiry /\ expiry <> 0 /\
          Date_now rt w = (t, w0) /\ expiry - 300000 <= t /\ guard = [Clock t]) ->
      axios_post rt credentials w0 = (res, w1) ->
      getToken rt c w =
      match res with
      | inl e =>
          {| outcome := Thrown e; cache := c; world := w1;
             events := guard ++ [TokenCall credentials (inl e)] |}
      | inr td =>
          let (t', w2) := Date_now rt w1 in
          {| outcome := Returned (access_token td);
             cache := {| token := Some (access_token td);
                         tokenExpiry := Some (t' + expires_in td * 1000) |};
             world := w2;
             events := guard ++ [TokenCall credentials (inr td); Clock t'] |}
      end)
  /\
  (token_requests (events (getToken rt c w)) = [] \/
   token_requests (events (getToken rt c w)) = [credentials])
  /\
  (token_requests (events (getToken rt c w)) = [] ->
   exists tk expiry t,
     token c = Some tk /\ tokenExpiry c = Some expiry /\
     outcome (getToken rt c w) = Returned tk /\
     cache (getToken rt c w) = c /\
     events (getToken rt c w) = [Clock t] /\
     t < expiry - 300000).
Proof.
  split; [intros tk expiry t w0 ? ? ? ? ? ?; now apply (getToken_hit c w tk expiry t w0)|].
  split; [intros guard w0 res w1 ? ?; now apply (getToken_fetch_from c w guard w0 res w1)|].
  destruct (getToken_guard c w)
    as [(tk & expiry & t & w0 & Htk & Hne & Hex & Hnz & Hnow & Hlt) | (guard & w0 & Hguard)].
  - rewrite (getToken_hit c w tk expiry t w0) by assumption.
    cbn [outcome cache world events token_requests].
    split; [now left|]. intros _. exists tk, expiry, t. auto 10.
  - destruct (axios_post rt credentials w0) as [res w1] eqn:Hpost.
    rewrite (getToken_fetch_from c w guard w0 res w1 Hguard Hpost).
    assert (Hg : token_requests guard = []).
    { destruct Hguard as [(-> & _) | (? & ? & ? & _ & _ & _ & _ & _ & _ & ->)];
        reflexivity. }
    assert (Happ : forall l, token_requests (guard ++ l) = token_requests l).
    { intros l. destruct Hguard as [(-> & _) | (? & ? & ? & _ & _ & _ & _ & _ & _ & ->)];
        reflexivity. }
    destruct res as [e|td].
    + cbn [events]. rewrite Happ. cbn [token_requests].
      split; [now right|discriminate].
    + destruct (Date_now rt w1) as [t' w2].
      cbn [events]. rewrite Happ. cbn [token_requests].
      split; [now right|discriminate].
Qed.
End Token.

(** A token cached at 2026-11-03T00:00 that expires an hour later is
    served again ten minutes later without any call. *)
Lemma getToken_cache_or_refresh_witness :
  getToken Demo.salon
    {| token := Some "tok"; tokenExpiry := Some (Demo.t0 + 3600000) |}
    (Demo.t0 + 600000) =
  {| outcome := Returned "tok";
     cache := {| token := Some "tok"; tokenExpiry := Some (Demo.t0 + 3600000) |};
     world := Demo.t0 + 600000;
     events := [Clock (Demo.t0 + 600000)] |}.
Proof.
  apply (proj1 (getToken_cache_or_refresh Demo.salon
                  {| token := Some "tok"; tokenExpiry := Some (Demo.t0 + 3600000) |}
                  (Demo.t0 + 600000))
           "tok" (Demo.t0 + 3600000) (Demo.t0 + 600000) (Demo.t0 + 600000)).
  - reflexivity.
  - discriminate.
  - reflexivity.
  - vm_compute. discriminate.
  - reflexivity.
  - vm_compute. reflexivity.
Defined.

(** C3, as stated, fails: a token whose reported lifetime is one minute
    is returned by the very call that fetched it, at a time that is not
    five minutes before its expiry. *)
Lemma getToken_serves_inside_margin :
  outcome (getToken Demo.short_lived empty_cache Demo.t0) = Returned "tok" /\
  tokenExpiry (cache (getToken Demo.short_lived empty_cache Demo.t0)) =
    Some (Demo.t0 + 1 + 60 * 1000) /\
  clock_reads (events (getToken Demo.short_lived empty_cache Demo.t0)) = [Demo.t0 + 1] /\
  ~ (Demo.t0 + 1 < (Demo.t0 + 1 + 60 * 1000) - 300000).
Proof.
  vm_compute. repeat split; discriminate.
Qed.

(* ===================================================================== *)
(** ** The handler, step by step *)
(* ===================================================================== *)

Section HandlerSteps.
Context {W : Type} (rt : Runtime W).

(** One [await callMeevoAPI(...)] and what follows it: the token fetch
    is rejected, or the request is, or the rest runs on its answer. *)
Lemma bind_callMeevoAPI {B : Type} ep m d (k : ResponseData -> Prog W B) c w :
  exists tok, token_events tok /\
    ((exists e c1 w1,
         bind (callMeevoAPI rt ep m d) k c w =
         {| outcome := Thrown e; cache := c1; world := w1; events := tok |} /\
         rejections tok = [e])
     \/
     (exists tk e c1 w1,
         bind (callMeevoAPI rt ep m d) k c w =
         {| outcome := Thrown e; cache := c1; world := w1;
            events := tok ++ [ApiCall (config ep m d tk) (inl e)] |} /\
         rejections tok = [])
     \/
     (exists tk x c1 w1,
         bind (callMeevoAPI rt ep m d) k c w =
         after (tok ++ [ApiCall (config ep m d tk) (inr x)]) (k x c1 w1) /\
         rejections tok = [])).
Proof.
  pose proof (callMeevoAPI_cases rt ep m d c w) as Hcases.
  pose proof (stops_rejections _ c w (stops_callMeevoAPI rt ep m d)) as Hstop.
  cbv zeta in Hcases.
  destruct (callMeevoAPI rt ep m d c w) as [o c1 w1 evs] eqn:Hrun.
  cbn [outcome events] in Hcases, Hstop.
  destruct Hcases as (tok & Htok & [(e & -> & ->) | (tk & res & -> & ->)]).
  - exists tok. split; [exact Htok|]. left. exists e, c1, w1.
    split; [|exact Hstop].
    now apply bind_thrown.
  - exists tok. split; [exact Htok|]. right.
    rewrite rejections_app in Hstop.
    destruct res as [e|x]; cbn [of_result] in *.
    + left. exists tk, e, c1, w1. split; [now apply bind_thrown|].
      cbn in Hstop. destruct (rejections tok); [reflexivity|].
      destruct l; discriminate.
    + right. exists tk, x, c1, w1. split; [now apply bind_returned|].
      cbn in Hstop. now rewrite app_nil_r in Hstop.
Qed.

Lemma mark_late_run (req : Req.t) c w :
  V3.mark_late rt req c w =
  {| outcome :=
       Returned (res_json match outcome (V3.attempt rt req c w) with
                          | Returned b => b
                          | Thrown e => on_error e
                          end);
     cache := cache (V3.attempt rt req c w);
     world := world (V3.attempt rt req c w);
     events := events (V3.attempt rt req c w) |}.
Proof.
  unfold V3.mark_late, try_catch, bind, after, ret.
  destruct (V3.attempt rt req c w) as [[b|e] c1 w1 evs];
    cbn [outcome cache world events]; now rewrite app_nil_r.
Qed.

Lemma legacy_mark_late_run (req : Req.t) c w :
  Legacy.mark_late rt req c w =
  {| outcome :=
       Returned (res_json match outcome (Legacy.attempt rt req c w) with
                          | Returned b => b
                          | Thrown e => on_error e
                          end);
     cache := cache (Legacy.attempt rt req c w);
     world := world (Legacy.attempt rt req c w);
     events := events (Legacy.attempt rt req c w) |}.
Proof.
  unfold Legacy.mark_late, try_catch, bind, after, ret.
  destruct (Legacy.attempt rt req c w) as [[b|e] c1 w1 evs];
    cbn [outcome cache world events]; now rewrite app_nil_r.
Qed.
End HandlerSteps.

(* ===================================================================== *)
(** ** Nothing runs after a rejected call *)
(* ===================================================================== *)

Ltac stops :=
  repeat first
    [ apply stops_ret
    | apply stops_now
    | apply stops_callMeevoAPI
    | apply stops_bind; [|intros ?]
    | match goal with
      | |- stops_at_rejection (match ?x with _ => _ end) => destruct x
      | |- stops_at_rejection (if ?x then _ else _) => destruct x
      end ].

Section Rejections.
Context {W : Type} (rt : Runtime W).

Lemma stops_resolve loc phone email :
  stops_at_rejection (V3.resolve rt loc phone email).
Proof. unfold V3.resolve. cbv zeta. stops. Qed.

Lemma stops_mark loc id : stops_at_rejection (V3.mark rt loc id).
Proof. unfold V3.mark. stops. Qed.

Lemma stops_attempt req : stops_at_rejection (V3.attempt rt req).
Proof.
  unfold V3.attempt. cbv zeta.
  apply stops_bind.
  - destruct (_ && _); [apply stops_resolve|apply stops_ret].
  - intros [response|[[|a id]|]]; first [apply stops_ret | apply stops_mark].
Qed.

(** C9. The handler never throws: it always answers, with status 200.
    When an upstream call of the request is rejected, the answer is the
    failure object whose [error] is the rejection's
    [response.data.error.message] when that is a non-empty string, and
    "Failed to mark appointment as running late" when it is absent (or
    empty); the rejected call is the last event of the run. *)
Theorem upstream_rejection_is_reported (req : Req.t) (c : TokenCache) (w : W) :
  (exists response,
      outcome (V3.mark_late rt req c w) = Returned response /\ status response = 200) /\
  (forall ev e,
      In ev (events (V3.mark_late rt req c w)) -> rejection ev = Some e ->
      outcome (V3.mark_late rt req c w) =
        Returned {| status := 200;
                    body := Res.mk false None None None None
                              (Some (JS.or_else (response_error_message e)
                                       "Failed to mark appointment as running late")) |} /\
      (forall m, response_error_message e = Some m -> m <> "" ->
                 outcome (V3.mark_late rt req c w) =
                   Returned {| status := 200; body := failure m |}) /\
      (response_error_message e = None ->
       outcome (V3.mark_late rt req c w) =
         Returned {| status := 200;
                     body := failure "Failed to mark appointment as running late" |}) /\
      exists before, events (V3.mark_late rt req c w) = before ++ [ev]).
Proof.
  rewrite mark_late_run. cbn [outcome events].
  split; [eexists; split; reflexivity|].
  intros ev e Hin Hrej.
  pose proof (stops_attempt req c w) as Hstop.
  destruct (in_split _ _ Hin) as (l1 & l2 & Hsplit).
  destruct (outcome (V3.attempt rt req c w)) as [b|e'].
  { rewrite Hsplit, rejections_app in Hstop. cbn in Hstop. rewrite Hrej in Hstop.
    destruct (rejections l1); discriminate. }
  destruct Hstop as (before & ev' & Hev & Hrej' & Hbefore).
  assert (Hsame : l1 = before /\ ev = ev' /\ l2 = []).
  { apply (split_unique (fun x => match rejection x with Some _ => true | None => false end)
             before ev' [] l1 ev l2).
    - congruence.
    - now rewrite Hrej.
    - clear - Hbefore. induction before as [|x l IH]; constructor.
      + unfold rejections in Hbefore. cbn in Hbefore.
        destruct (rejection x); [discriminate|reflexivity].
      + apply IH. unfold rejections in *. cbn in Hbefore.
        destruct (rejection x); [discriminate|exact Hbefore].
    - constructor. }
  destruct Hsame as (-> & <- & ->).
  assert (e' = e) by congruence. subst e'.
  unfold res_json, on_error.
  split; [reflexivity|].
  split; [|split].
  - intros m -> Hm. cbn. now rewrite truthy_string_true.
  - intros ->. reflexivity.
  - exists before. exact Hsplit.
Qed.
End Rejections.

(** Scenario E: the write is rejected with "Concurrency conflict". *)
Lemma upstream_rejection_is_reported_witness :
  outcome (V3.mark_late Demo.conflicting_salon (Demo.by_id "APT-42") empty_cache Demo.t0) =
  Returned {| status := 200; body := failure "Concurrency conflict" |}.
Proof.
  refine (proj1 (proj2 (proj2 (upstream_rejection_is_reported Demo.conflicting_salon
            (Demo.by_id "APT-42") empty_cache Demo.t0)
            (ApiCall (config (RunningLate "201664" "APT-42") PUT
                        (Some (UpdateData (V3.updateBody
                                             (Object (OfDetails (Demo.details_of 11)))))) "tok")
                     (inl {| response_error_message := Some "Concurrency conflict" |}))
            {| response_error_message := Some "Concurrency conflict" |} _ _))
            "Concurrency conflict" _ _).
  - vm_compute. tauto.
  - reflexivity.
  - reflexivity.
  - discriminate.
Defined.

(* ===================================================================== *)
(** ** Requests that name no one, and fields that are never read *)
(* ===================================================================== *)

Section Plain.
Context {W : Type} (rt : Runtime W).

(** C7. A request whose [appointment_service_id], [client_phone] and
    [client_email] are all falsy (absent, in particular) is answered at
    once with the "Missing ..." failure: the run has no event at all, so
    no token, lookup, appointments, read or write call, and it leaves the
    token cache and the world as they were. *)
Theorem missing_identifiers_no_upstream_call (req : Req.t) (c : TokenCache) (w : W) :
  JS.truthy (Req.appointment_service_id req) = false ->
  JS.truthy (Req.client_phone req) = false ->
  JS.truthy (Req.client_email req) = false ->
  V3.mark_late rt req c w =
  {| outcome :=
       Returned {| status := 200;
                   body := failure "Missing appointment_service_id or client_phone/client_email to lookup" |};
     cache := c; world := w; events := [] |}.
Proof.
  intros Hid Hphone Hemail.
  rewrite mark_late_run. unfold V3.attempt. cbv zeta.
  rewrite Hid, Hphone, Hemail. cbn [negb andb orb].
  rewrite bind_ret. unfold V3.finish.
  destruct (Req.appointment_service_id req) as [[|a id]|]; try discriminate; reflexivity.
Qed.

(** C10. Two requests that agree on every field but [estimated_minutes]
    have the same run: the same events (so the same upstream calls with
    the same payloads), the same answer, the same final cache and
    world. *)
Theorem estimated_minutes_is_ignored (r1 r2 : Req.t) (c : TokenCache) (w : W) :
  Req.appointment_service_id r1 = Req.appointment_service_id r2 ->
  Req.client_phone r1 = Req.client_phone r2 ->
  Req.client_email r1 = Req.client_email r2 ->
  Req.location_id r1 = Req.location_id r2 ->
  V3.mark_late rt r1 c w = V3.mark_late rt r2 c w.
Proof.
  destruct r1 as [id1 p1 e1 l1 m1], r2 as [id2 p2 e2 l2 m2]. cbn.
  intros -> -> -> ->. reflexivity.
Qed.
End Plain.

(** Scenario D: the empty request. *)
Lemma missing_identifiers_no_upstream_call_witness :
  V3.mark_late Demo.salon Demo.empty_request empty_cache Demo.t0 =
  {| outcome :=
       Returned {| status := 200;
                   body := failure "Missing appointment_service_id or client_phone/client_email to lookup" |};
     cache := empty_cache; world := Demo.t0; events := [] |}.
Proof.
  apply (missing_identifiers_no_upstream_call Demo.salon Demo.empty_request);
    reflexivity.
Defined.

Lemma estimated_minutes_is_ignored_witness :
  V3.mark_late Demo.salon (Req.mk None (Some "+1 (555) 123-4567") None None (Some 5))
    empty_cache Demo.t0 =
  V3.mark_late Demo.salon (Req.mk None (Some "+1 (555) 123-4567") None None (Some 45))
    empty_cache Demo.t0.
Proof.
  apply (estimated_minutes_is_ignored Demo.salon
           (Req.mk None (Some "+1 (555) 123-4567") None None (Some 5))
           (Req.mk None (Some "+1 (555) 123-4567") None None (Some 45)));
    reflexivity.
Defined.

(* ===================================================================== *)
(** ** The read and the write (lines 155-196) *)
(* ===================================================================== *)

Lemma api_calls_app (l1 l2 : list Event) :
  api_calls (l1 ++ l2) = api_calls l1 ++ api_calls l2.
Proof.
  induction l1 as [|[t|rq rs|cfg rs] l1 IH]; simpl; rewrite ?IH; reflexivity.
Qed.

Lemma api_calls_token_events (l : list Event) : token_events l -> api_calls l = [].
Proof.
  induction 1 as [|[t|rq rs|cfg rs] l Hx Hl IH]; simpl; auto; discriminate.
Qed.

Lemma api_requests_calls (l : list Event) : api_requests l = map fst (api_calls l).
Proof.
  induction l as [|[t|rq rs|cfg rs] l IH]; simpl; rewrite ?IH; reflexivity.
Qed.

Section Mark.
Context {W : Type} (rt : Runtime W).

(** The five ways [mark] can go: the token for the read is refused; the
    read is rejected; the read brings no details; the token for the
    write is refused; the write is sent, with the details just read. *)
Lemma mark_cases (loc id : string) c w :
  exists tok, token_events tok /\
    ((exists e,
         outcome (V3.mark rt loc id c w) = Thrown e /\
         events (V3.mark rt loc id c w) = tok)
     \/
     (exists tk e,
         outcome (V3.mark rt loc id c w) = Thrown e /\
         events (V3.mark rt loc id c w) =
           tok ++ [ApiCall (config (RunningLate loc id) GET None tk) (inl e)])
     \/
     (exists tk x,
         truthy_data (response_data x) = false /\
         outcome (V3.mark rt loc id c w) =
           Returned (failure "Could not get appointment details") /\
         events (V3.mark rt loc id c w) =
           tok ++ [ApiCall (config (RunningLate loc id) GET None tk) (inr x)])
     \/
     (exists tk x tok2,
         truthy_data (response_data x) = true /\
         token_events tok2 /\
         ((exists e,
              outcome (V3.mark rt loc id c w) = Thrown e /\
              events (V3.mark rt loc id c w) =
                tok ++ ApiCall (config (RunningLate loc id) GET None tk) (inr x) :: tok2)
          \/
          (exists tk2 res,
              outcome (V3.mark rt loc id c w) =
                match res with
                | inl e => Thrown e
                | inr _ =>
                    Returned (marked id (property Field.startTime (response_data x)))
                end /\
              events (V3.mark rt loc id c w) =
                tok ++ ApiCall (config (RunningLate loc id) GET None tk) (inr x)
                    :: tok2 ++
                       [ApiCall (config (RunningLate loc id) PUT
                                   (Some (UpdateData (V3.updateBody (response_data x))))
                                   tk2) res])))).
Proof.
  unfold V3.mark.
  match goal with
  | |- context [bind (callMeevoAPI rt ?ep ?m ?d) ?k c w] =>
      destruct (bind_callMeevoAPI rt ep m d k c w)
        as (tok & Htok & [(e & c1 & w1 & -> & _) |
                          [(tk & e & c1 & w1 & -> & _) | (tk & x & c1 & w1 & -> & _)]])
  end;
    exists tok; (split; [exact Htok|]).
  - left. exists e. split; reflexivity.
  - right. left. exists tk, e. split; reflexivity.
  - cbv zeta. destruct (truthy_data (response_data x)) eqn:Hx.
    + right. right. right.
      destruct (bind_callMeevoAPI rt (RunningLate loc id) PUT
                  (Some (UpdateData (V3.updateBody (response_data x))))
                  (fun _ => ret (marked id (property Field.startTime (response_data x))))
                  c1 w1)
        as (tok2 & Htok2 & [(e & c2 & w2 & -> & _) | [(tk2 & e & c2 & w2 & -> & _) | (tk2 & y & c2 & w2 & -> & _)]]);
        exists tk, x, tok2; (split; [exact Hx|]); (split; [exact Htok2|]);
        cbn [after outcome events ret].
      * left. exists e. split; [reflexivity|]. now rewrite <- app_assoc.
      * right. exists tk2, (inl e). split; [reflexivity|]. now rewrite <- app_assoc.
      * right. exists tk2, (inr y). split; [reflexivity|].
        rewrite app_nil_r. now rewrite <- app_assoc.
    + right. right. left. exists tk, x. cbn [after ret outcome events].
      rewrite app_nil_r. auto.
Qed.
End Mark.

Section Direct.
Context {W : Type} (rt : Runtime W).

Lemma attempt_direct (req : Req.t) (id : string) c w :
  Req.appointment_service_id req = Some id -> id <> "" ->
  V3.attempt rt req c w =
  V3.mark rt (JS.or_else (Req.location_id req) CONFIG.LOCATION_ID) id c w.
Proof.
  intros Hid Hne. unfold V3.attempt. cbv zeta. rewrite Hid.
  cbn [JS.truthy]. rewrite (truthy_string_true _ Hne). cbn [negb andb].
  rewrite bind_ret. unfold V3.finish. destruct id; [congruence|reflexivity].
Qed.

(** Line 162 lets through every body that has [data], and the write
    and the answer are then as [UpdateFrom] says. *)
Lemma truthy_data_update (x : ResponseData) :
  truthy_data (response_data x) = true ->
  UpdateFrom x (V3.updateBody (response_data x))
    (property Field.startTime (response_data x)).
Proof.
  destruct x as [l|l|d|]; cbn; intros H; first [constructor | discriminate H].
Qed.

Lemma falsy_data_absent (x : ResponseData) :
  truthy_data (response_data x) = false -> x = NoData.
Proof. destruct x as [l|l|d|]; cbn; intros H; first [reflexivity | discriminate H]. Qed.

(** C8. For a request with a (non-empty) [appointment_service_id],
    every API request of the run goes to the running-late endpoint of
    that identifier, in the request's location: there is no client
    lookup and no appointments query.  The run is one of three.  Either
    the GET of that endpoint returns a body with [data] and the PUT to
    the same endpoint is accepted: the PUT carries the five members read
    from that data with [IsRunningLate: true], and the answer is
    [success: true] with the identifier that was given and the start
    time read.  Or the GET returns a body without [data], nothing is
    written and the answer is "Could not get appointment details".  Or a
    call is rejected, and the answer is the failure of the [catch]. *)
Theorem direct_identifier_skips_resolution (req : Req.t) (id : string) c w :
  Req.appointment_service_id req = Some id -> id <> "" ->
  Forall (fun cfg =>
            endpoint cfg =
            RunningLate (JS.or_else (Req.location_id req) CONFIG.LOCATION_ID) id)
         (api_requests (events (V3.mark_late rt req c w)))
  /\
  ((exists tk x tk2 y sent time,
       api_calls (events (V3.mark_late rt req c w)) =
         [ ({| method := GET;
               endpoint :=
                 RunningLate (JS.or_else (Req.location_id req) CONFIG.LOCATION_ID) id;
               Authorization := "Bearer " ++ tk;
               data := None |}, inr x);
           ({| method := PUT;
               endpoint :=
                 RunningLate (JS.or_else (Req.location_id req) CONFIG.LOCATION_ID) id;
               Authorization := "Bearer " ++ tk2;
               data := Some (UpdateData sent) |}, inr y) ] /\
       UpdateFrom x sent time /\
       rejections (events (V3.mark_late rt req c w)) = [] /\
       outcome (V3.mark_late rt req c w) =
         Returned {| status := 200;
                     body := Res.mk true (Some true) (Some id) time
                               (Some "Your barber has been notified that you're running late.")
                               None |})
   \/
   (exists tk,
       api_calls (events (V3.mark_late rt req c w)) =
         [ ({| method := GET;
               endpoint :=
                 RunningLate (JS.or_else (Req.location_id req) CONFIG.LOCATION_ID) id;
               Authorization := "Bearer " ++ tk;
               data := None |}, inr NoData) ] /\
       outcome (V3.mark_late rt req c w) =
         Returned {| status := 200;
                     body := Res.mk false None None None None
                               (Some "Could not get appointment details") |})
   \/
   (exists e,
       rejections (events (V3.mark_late rt req c w)) = [e] /\
       outcome (V3.mark_late rt req c w) =
         Returned {| status := 200;
                     body := Res.mk false None None None None
                               (Some (JS.or_else (response_error_message e)
                                        "Failed to mark appointment as running late")) |})).
Proof.
  intros Hid Hne.
  rewrite mark_late_run. cbn [outcome events].
  rewrite (attempt_direct req id c w Hid Hne).
  set (loc := JS.or_else (Req.location_id req) CONFIG.LOCATION_ID).
  pose proof (stops_rejections _ c w (stops_mark rt loc id)) as Hstop.
  destruct (mark_cases rt loc id c w)
    as (tok & Htok & [(e & Hout & Hev) | [(tk & e & Hout & Hev) | [(tk & x & Hx & Hout & Hev) |
         (tk & x & tok2 & Hx & Htok2 & [(e & Hout & Hev) | (tk2 & res & Hout & Hev)])]]]);
    rewrite Hev, Hout in *; clear Hev Hout;
    rewrite ?api_requests_app, ?api_calls_app,
      ?(api_requests_none _ Htok), ?(api_calls_token_events _ Htok);
    cbn [api_requests api_calls app].
  - split; [constructor|]. right. right. exists e.
    split; [exact Hstop|reflexivity].
  - split; [repeat constructor|]. right. right. exists e.
    split; [exact Hstop|reflexivity].
  - split; [repeat constructor|]. right. left. exists tk.
    rewrite (falsy_data_absent x Hx). split; reflexivity.
  - rewrite (api_requests_none _ Htok2), (api_calls_token_events _ Htok2).
    split; [repeat constructor|]. right. right. exists e.
    split; [exact Hstop|reflexivity].
  - rewrite ?api_requests_app, ?api_calls_app,
      (api_requests_none _ Htok2), (api_calls_token_events _ Htok2).
    cbn [api_requests api_calls app].
    split; [repeat constructor|].
    destruct res as [e|y].
    + right. right. exists e. split; [exact Hstop|reflexivity].
    + left. exists tk, x, tk2, y, (V3.updateBody (response_data x)),
        (property Field.startTime (response_data x)).
      split; [reflexivity|]. split; [exact (truthy_data_update x Hx)|].
      split; [exact Hstop|reflexivity].
Qed.
End Direct.

(** Scenario C: [{appointment_service_id: "APT-42"}].  The read returns
    concurrency digits 11 and the write sends them back. *)
Lemma direct_identifier_skips_resolution_witness :
  Forall (fun cfg => endpoint cfg = RunningLate "201664" "APT-42")
    (api_requests (events (V3.mark_late Demo.salon (Demo.by_id "APT-42")
                             empty_cache Demo.t0))) /\
  api_calls (events (V3.mark_late Demo.salon (Demo.by_id "APT-42") empty_cache Demo.t0)) =
    [ ({| method := GET; endpoint := RunningLate "201664" "APT-42";
          Authorization := "Bearer tok"; data := None |},
       inr (DetailsData (Demo.details_of 11)));
      ({| method := PUT; endpoint := RunningLate "201664" "APT-42";
          Authorization := "Bearer tok";
          data := Some (UpdateData
                          {| ServiceId := Some "S-1"; ClientId := Some "C-1";
                             EmployeeId := Some "E-1";
                             ConcurrencyCheckDigits := Some 11;
                             StartTime := Some "2030-01-01T10:00:00.000Z";
                             IsRunningLate := true |}) |},
       inr NoData) ] /\
  outcome (V3.mark_late Demo.salon (Demo.by_id "APT-42") empty_cache Demo.t0) =
    Returned {| status := 200;
                body := Res.mk true (Some true) (Some "APT-42")
                          (Some "2030-01-01T10:00:00.000Z")
                          (Some "Your barber has been notified that you're running late.")
                          None |}.
Proof.
  destruct (direct_identifier_skips_resolution Demo.salon (Demo.by_id "APT-42")
              "APT-42" empty_cache Demo.t0 eq_refl)
    as [Hreq [(tk & x & tk2 & y & sent & time & Hcalls & Hfrom & _ & Hout) |
              [(tk & Hcalls & _) | (e & Hrej & _)]]].
  - discriminate.
  - split; [exact Hreq|]. split; reflexivity.
  - discriminate Hcalls.
  - discriminate Hrej.
Defined.

(* ===================================================================== *)
(** ** The lookup by phone or e-mail (lines 85-146) *)
(* ===================================================================== *)

Ltac step_call tok Htok e tk x c1 w1 :=
  match goal with
  | |- context [bind (callMeevoAPI ?rt ?ep ?m ?d) ?k ?c ?w] =>
      destruct (bind_callMeevoAPI rt ep m d k c w)
        as (tok & Htok & [(e & c1 & w1 & -> & _) |
                          [(tk & e & c1 & w1 & -> & _) | (tk & x & c1 & w1 & -> & _)]])
  end.

Section Resolve.
Context {W : Type} (rt : Runtime W).
Variables (loc : string) (phone email : option string).

Let lookup (tk : string) : AxiosConfig :=
  config (ClientsLookup loc) POST
    (Some (LookupData (lookupBody (normalizedPhone phone) (normalizedEmail rt email)))) tk.

Let listing (clientId tk : string) : AxiosConfig :=
  config (ClientServices clientId loc) GET None tk.

(** The ways [resolve] can go.  It stops at the lookup (token refused,
    request rejected, or no truthy [clientId] on the first element of
    the answer); or at the appointments query (token refused, request
    rejected, or no element in the answer); or it reads the clock and
    picks with [upcoming_entry]. *)
Lemma resolve_cases c w :
  exists tok, token_events tok /\
    ((exists e,
         outcome (V3.resolve rt loc phone email c w) = Thrown e /\
         events (V3.resolve rt loc phone email c w) = tok)
     \/
     (exists tk res,
         match res with
         | inl e => outcome (V3.resolve rt loc phone email c w) = Thrown e
         | inr x =>
             outcome (V3.resolve rt loc phone email c w) =
               Returned (inl (failure "No client found with that phone number or email")) /\
             JS.truthy (V3.first_clientId x) = false
         end /\
         events (V3.resolve rt loc phone email c w) = tok ++ [ApiCall (lookup tk) res])
     \/
     (exists tk x cid tok2,
         V3.first_clientId x = Some cid /\ cid <> "" /\ token_events tok2 /\
         ((exists e,
              outcome (V3.resolve rt loc phone email c w) = Thrown e /\
              events (V3.resolve rt loc phone email c w) =
                tok ++ ApiCall (lookup tk) (inr x) :: tok2)
          \/
          (exists tk2 res,
              match res with
              | inl e => outcome (V3.resolve rt loc phone email c w) = Thrown e
              | inr y =>
                  outcome (V3.resolve rt loc phone email c w) =
                    Returned (inl (failure "No appointments found for this client")) /\
                  (forall o l, response_data y <> Array (o :: l))
              end /\
              events (V3.resolve rt loc phone email c w) =
                tok ++ ApiCall (lookup tk) (inr x)
                    :: tok2 ++ [ApiCall (listing cid tk2) res])
          \/
          (exists tk2 y o l t,
              response_data y = Array (o :: l) /\
              outcome (V3.resolve rt loc phone email c w) =
                Returned match upcoming_entry rt t (o :: l) with
                         | Some u => inr (Field.appointmentServiceId u)
                         | None =>
                             inl (failure "No upcoming appointments found to mark as running late")
                         end /\
              events (V3.resolve rt loc phone email c w) =
                tok ++ ApiCall (lookup tk) (inr x)
                    :: tok2 ++ [ApiCall (listing cid tk2) (inr y); Clock t])))).
Proof.
  unfold V3.resolve. cbv zeta.
  step_call tok Htok e tk x c1 w1; exists tok; (split; [exact Htok|]).
  - left. exists e. split; reflexivity.
  - right. left. exists tk, (inl e). split; reflexivity.
  - destruct (V3.first_clientId x) as [[|ch cid]|] eqn:Hfirst.
    1,3: right; left; exists tk, (inr x); rewrite Hfirst;
      cbn [after ret outcome events]; rewrite app_nil_r; auto.
    right. right.
    step_call tok2 Htok2 e tk2 y c2 w2;
      exists tk, x, (String ch cid), tok2;
      (split; [exact Hfirst|]); (split; [discriminate|]); (split; [exact Htok2|]);
      cbn [after outcome events].
    + left. exists e. split; [reflexivity|]. now rewrite <- app_assoc.
    + right. left. exists tk2, (inl e). split; [reflexivity|]. now rewrite <- app_assoc.
    + destruct (response_data y) as [|o0|[|o l]] eqn:Hy.
      1,2,3: right; left; exists tk2, (inr y);
        cbn [after ret outcome events]; rewrite app_nil_r, <- app_assoc;
        (split; [split; [reflexivity|]|reflexivity]);
        rewrite Hy; intros ? ? Heq; discriminate Heq.
      right. right.
      destruct (Date_now rt w2) as [t w3] eqn:Hnow.
      rewrite (bind_now rt _ _ _ _ _ Hnow).
      exists tk2, y, o, l, t. split; [exact Hy|].
      destruct (upcoming_entry rt t (o :: l)) as [u|];
        cbn [after ret outcome events]; rewrite <- !app_assoc; auto.
Qed.
End Resolve.

(* ===================================================================== *)
(** ** What the calls of a run are about *)
(* ===================================================================== *)

Ltac emits_with Q :=
  repeat first
    [ apply emits_ret
    | apply emits_throw
    | apply (emits_now _ Q); intros; exact I
    | apply (emits_callMeevoAPI _ Q); [intros; exact I | intros; exact I | intros ? ?]
    | apply emits_bind; [|intros ?]
    | match goal with
      | |- emits _ (match ?x with _ => _ end) => destruct x
      | |- emits _ (if ?x then _ else _) => destruct x
      end ].

Lemma api_requests_satisfy (P : AxiosConfig -> Prop) (evs : list Event) :
  Forall (api_call_satisfies P) evs -> Forall P (api_requests evs).
Proof.
  induction 1 as [|[t|rq rs|cfg rs] l Hx Hl IH]; simpl; auto.
Qed.

Lemma token_events_satisfy (P : AxiosConfig -> Prop) (evs : list Event) :
  token_events evs -> Forall (api_call_satisfies P) evs.
Proof.
  unfold token_events. intros H. eapply Forall_impl; [|exact H].
  intros [t|rq rs|cfg rs]; simpl; intros; [exact I|exact I|discriminate].
Qed.


Lemma not_write_call (P : AxiosConfig -> Prop) (evs : list Event) :
  (forall cfg, P cfg -> method cfg <> PUT) ->
  Forall (api_call_satisfies P) evs ->
  Forall (fun ev => is_write_call ev = false) evs.
Proof.
  intros HP H. eapply Forall_impl; [|exact H].
  intros [t|rq rs|cfg rs]; simpl; auto.
  intros Hcfg. specialize (HP cfg Hcfg).
  destruct (method cfg); congruence.
Qed.

Section About.
Context {W : Type} (rt : Runtime W).


(** [resolve] reads: it never sends a PUT, and never calls the
    running-late endpoint. *)
Lemma resolve_reads (loc : string) (phone email : option string) :
  emits (api_call_satisfies
           (fun cfg => method cfg <> PUT /\
                       forall l id, endpoint cfg <> RunningLate l id))
        (V3.resolve rt loc phone email).
Proof.
  unfold V3.resolve. cbv zeta.
  emits_with (api_call_satisfies
                (fun cfg => method cfg <> PUT /\
                            forall l id, endpoint cfg <> RunningLate l id));
    (split; [discriminate|intros; discriminate]).
Qed.

End About.

(* ===================================================================== *)
(** ** The appointment that is marked (lines 132-145) *)
(* ===================================================================== *)

Lemma outcome_bind_returned {W A B : Type} (m : Prog W A) (k : A -> Prog W B) c w a :
  outcome (m c w) = Returned a ->
  outcome (bind m k c w) = outcome (k a (cache (m c w)) (world (m c w))) /\
  events (bind m k c w) = events (m c w) ++ events (k a (cache (m c w)) (world (m c w))).
Proof. intros H. unfold bind. rewrite H. split; reflexivity. Qed.

Lemma outcome_bind_thrown {W A B : Type} (m : Prog W A) (k : A -> Prog W B) c w e :
  outcome (m c w) = Thrown e ->
  outcome (bind m k c w) = Thrown e /\ events (bind m k c w) = events (m c w).
Proof. intros H. unfold bind. rewrite H. split; reflexivity. Qed.

Lemma cut_at_absent {A : Type} (P : A -> bool) (l pre : list A) (x : A) (post : list A) :
  l = pre ++ x :: post -> P x = true -> Forall (fun a => P a = false) l -> False.
Proof.
  intros -> Hx Hall. rewrite Forall_forall in Hall.
  assert (Hin : In x (pre ++ x :: post)) by (apply in_or_app; right; now left).
  specialize (Hall x Hin). congruence.
Qed.


Section Selection.
Context {W : Type} (rt : Runtime W).




(** The two shapes of [attempt]: with a lookup, or straight to
    [finish]. *)
Lemma attempt_shape (req : Req.t) c w :
  V3.attempt rt req c w =
  (if negb (JS.truthy (Req.appointment_service_id req)) &&
      (JS.truthy (Req.client_phone req) || JS.truthy (Req.client_email req))
   then bind (V3.resolve rt (JS.or_else (Req.location_id req) CONFIG.LOCATION_ID)
                (Req.client_phone req) (Req.client_email req))
             (V3.finish rt (JS.or_else (Req.location_id req) CONFIG.LOCATION_ID)) c w
   else V3.finish rt (JS.or_else (Req.location_id req) CONFIG.LOCATION_ID)
          (inr (Req.appointment_service_id req)) c w).
Proof.
  unfold V3.attempt. cbv zeta.
  destruct (negb _ && _); [reflexivity|apply bind_ret].
Qed.
End Selection.

Section Earliest.
Context {W : Type} (rt : Runtime W).

End Earliest.


(* ===================================================================== *)
(** ** The filter of the client lookup (lines 94-105, 298-314) *)
(* ===================================================================== *)

Lemma normalizePhone_is_last_digits (phone : string) :
  normalizePhone phone = last_digits 10 phone.
Proof.
  apply list_ascii_inj. unfold last_digits.
  rewrite list_ascii_of_string_of_list_ascii. apply normalizePhone_as_list.
Qed.

Lemma normalizePhone_truthy (phone : string) :
  JS.truthy_string (normalizePhone phone) =
  match digits_of phone with [] => false | _ :: _ => true end.
Proof.
  pose proof (normalizePhone_as_list phone) as Hl.
  rewrite last_n_skipn in Hl.
  destruct (digits_of phone) as [|d ds] eqn:Hd.
  - cbn in Hl. destruct (normalizePhone phone); [reflexivity|discriminate].
  - destruct (normalizePhone phone) as [|ch rest]; [|reflexivity].
    exfalso. cbn [list_ascii_of_string] in Hl.
    assert (Hlen : Datatypes.length
                     (skipn (Datatypes.length (d :: ds) - 10) (d :: ds)) = 0%nat)
      by now rewrite <- Hl.
    rewrite length_skipn in Hlen. cbn [Datatypes.length] in Hlen. lia.
Qed.

Section LookupBody.
Context {W : Type} (rt : Runtime W).

(** On an e-mail of ASCII characters the normalisation is the
    lower-casing of the specification. *)
Lemma normalizeEmail_lower_case (e : string) :
  JS.ascii_only e = true -> normalizeEmail rt e = lower_case e.
Proof.
  intros H. unfold normalizeEmail.
  now rewrite toLowerCase_ascii, lower_ascii_lower_case.
Qed.

(** The filter, by what the caller sent: a phone with a digit wins; a
    phone without any counts as no phone. *)
Lemma lookupBody_cases (phone email : option string) :
  (forall p, phone = Some p -> digits_of p <> [] ->
     lookupBody (normalizedPhone phone) (normalizedEmail rt email) =
     {| PhoneNumbers := Some [last_digits 10 p]; EmailIds := None |})
  /\
  (phone = None \/ (exists p, phone = Some p /\ digits_of p = []) ->
   (forall e, email = Some e -> e <> "" ->
      lookupBody (normalizedPhone phone) (normalizedEmail rt email) =
      {| PhoneNumbers := None; EmailIds := Some [normalizeEmail rt e] |}) /\
   (email = None \/ email = Some "" ->
      lookupBody (normalizedPhone phone) (normalizedEmail rt email) =
      {| PhoneNumbers := None; EmailIds := None |})).
Proof.
  split.
  - intros p -> Hd. unfold lookupBody. cbn [normalizedPhone option_map JS.truthy].
    rewrite normalizePhone_truthy.
    destruct (digits_of p); [congruence|].
    now rewrite normalizePhone_is_last_digits.
  - intros Hphone.
    assert (Hfalsy : JS.truthy (normalizedPhone phone) = false).
    { destruct Hphone as [-> | (p & -> & Hd)]; [reflexivity|].
      cbn [normalizedPhone option_map JS.truthy].
      now rewrite normalizePhone_truthy, Hd. }
    unfold lookupBody. rewrite Hfalsy. split.
    + intros e -> He. cbn [normalizedEmail option_map JS.truthy].
      unfold normalizeEmail.
      now rewrite toLowerCase_truthy, (truthy_string_true _ He).
    + intros [-> | ->]; reflexivity.
Qed.
End LookupBody.

Ltac emits_api P :=
  repeat first
    [ apply emits_ret
    | apply emits_throw
    | apply (emits_now _ (api_call_satisfies P)); intros; exact I
    | apply (emits_callMeevoAPI _ (api_call_satisfies P));
        [intros; exact I | intros; exact I | intros ? ?]
    | apply emits_bind; [|intros ?]
    | match goal with
      | |- emits _ (match ?x with _ => _ end) => destruct x
      | |- emits _ (if ?x then _ else _) => destruct x
      end ].

Section Filter.
Context {W : Type} (rt : Runtime W).

(** In the current handler a request to the lookup endpoint is a POST
    with [lookupBody] as its data. *)
Lemma attempt_lookup_requests (req : Req.t) :
  emits (api_call_satisfies
           (fun cfg => forall l, endpoint cfg = ClientsLookup l ->
              method cfg = POST /\
              data cfg = Some (LookupData
                                 (lookupBody (normalizedPhone (Req.client_phone req))
                                    (normalizedEmail rt (Req.client_email req))))))
        (V3.attempt rt req).
Proof.
  unfold V3.attempt, V3.resolve, V3.finish, V3.mark. cbv zeta.
  emits_api (fun cfg => forall l, endpoint cfg = ClientsLookup l ->
               method cfg = POST /\
               data cfg = Some (LookupData
                                  (lookupBody (normalizedPhone (Req.client_phone req))
                                     (normalizedEmail rt (Req.client_email req)))));
    cbn; intros l Hl; first [discriminate Hl | split; reflexivity].
Qed.

(** In the earlier revision no request goes to the lookup endpoint, and
    the client list is fetched by a GET without data. *)
Lemma legacy_attempt_client_requests (req : Req.t) :
  emits (api_call_satisfies
           (fun cfg => (forall l, endpoint cfg <> ClientsLookup l) /\
                       (forall l, endpoint cfg = ClientsList l ->
                                  method cfg = GET /\ data cfg = None)))
        (Legacy.attempt rt req).
Proof.
  unfold Legacy.attempt, Legacy.resolve, Legacy.found_clientId, Legacy.finish, Legacy.mark.
  cbv zeta.
  emits_api (fun cfg => (forall l, endpoint cfg <> ClientsLookup l) /\
                        (forall l, endpoint cfg = ClientsList l ->
                                   method cfg = GET /\ data cfg = None));
    cbn; (split; [intros l Hl; discriminate Hl|]);
    intros l Hl; first [discriminate Hl | split; reflexivity].
Qed.
End Filter.

Section LookupFilter.
Context {W : Type} (rt : Runtime W).

(** C6, as amended.  For a request without a truthy
    [appointment_service_id] and with a truthy phone or e-mail: unless
    the token fetch is rejected (and then no API request is made), the
    first API request of the current handler is the POST to the lookup
    endpoint, and every request to that endpoint carries the same filter.
    The filter is the phone's last ten digits alone when the phone has a
    digit, whatever the e-mail; the lower-cased e-mail alone when the
    phone is absent or has no digit and the e-mail is non-empty; and
    empty otherwise.  The earlier revision never calls the lookup
    endpoint: it fetches the client list by a GET without data. *)
Theorem lookup_filter_prefers_phone_with_digits (req : Req.t) c w :
  JS.truthy (Req.appointment_service_id req) = false ->
  JS.truthy (Req.client_phone req) || JS.truthy (Req.client_email req) = true ->
  ((exists e,
       rejections (events (V3.mark_late rt req c w)) = [e] /\
       api_requests (events (V3.mark_late rt req c w)) = [])
   \/
   (exists tk rest,
       api_requests (events (V3.mark_late rt req c w)) =
         config (ClientsLookup (JS.or_else (Req.location_id req) CONFIG.LOCATION_ID))
           POST
           (Some (LookupData (lookupBody (normalizedPhone (Req.client_phone req))
                                (normalizedEmail rt (Req.client_email req)))))
           tk :: rest))
  /\
  Forall (fun cfg => forall l, endpoint cfg = ClientsLookup l ->
            method cfg = POST /\
            data cfg = Some (LookupData
                               (lookupBody (normalizedPhone (Req.client_phone req))
                                  (normalizedEmail rt (Req.client_email req)))))
         (api_requests (events (V3.mark_late rt req c w)))
  /\
  (forall p, Req.client_phone req = Some p -> digits_of p <> [] ->
     lookupBody (normalizedPhone (Req.client_phone req))
       (normalizedEmail rt (Req.client_email req)) =
     {| PhoneNumbers := Some [last_digits 10 p]; EmailIds := None |})
  /\
  (Req.client_phone req = None \/
   (exists p, Req.client_phone req = Some p /\ digits_of p = []) ->
   (forall e, Req.client_email req = Some e -> e <> "" ->
      lookupBody (normalizedPhone (Req.client_phone req))
        (normalizedEmail rt (Req.client_email req)) =
      {| PhoneNumbers := None; EmailIds := Some [normalizeEmail rt e] |} /\
      (JS.ascii_only e = true -> normalizeEmail rt e = lower_case e)) /\
   (Req.client_email req = None \/ Req.client_email req = Some "" ->
      lookupBody (normalizedPhone (Req.client_phone req))
        (normalizedEmail rt (Req.client_email req)) =
      {| PhoneNumbers := None; EmailIds := None |}))
  /\
  Forall (fun cfg => (forall l, endpoint cfg <> ClientsLookup l) /\
                     (forall l, endpoint cfg = ClientsList l ->
                                method cfg = GET /\ data cfg = None))
         (api_requests (events (Legacy.mark_late rt req c w))).
Proof.
  intros Hid Hwho.
  split; [|split; [|split; [|split]]].
  - rewrite mark_late_run. cbn [events].
    pose proof (stops_rejections _ c w (stops_attempt rt req)) as Hstop.
    rewrite attempt_shape in *. rewrite Hid, Hwho in *. cbn [negb andb] in *.
    set (loc := JS.or_else (Req.location_id req) CONFIG.LOCATION_ID) in *.
    set (m := V3.resolve rt loc (Req.client_phone req) (Req.client_email req)) in *.
    destruct (resolve_cases rt loc (Req.client_phone req) (Req.client_email req) c w)
      as (tok & Htok & Hcases).
    fold m in Hcases.
    assert (Hfirst : forall tk res more,
              events (m c w) =
                tok ++ ApiCall (config (ClientsLookup loc) POST
                           (Some (LookupData
                              (lookupBody (normalizedPhone (Req.client_phone req))
                                 (normalizedEmail rt (Req.client_email req))))) tk) res
                    :: more ->
              exists tk0 rest,
                api_requests (events (bind m (V3.finish rt loc) c w)) =
                  config (ClientsLookup loc) POST
                    (Some (LookupData
                       (lookupBody (normalizedPhone (Req.client_phone req))
                          (normalizedEmail rt (Req.client_email req))))) tk0 :: rest).
    { intros tk res more HR.
      destruct (outcome (m c w)) as [a|e] eqn:Hout.
      - destruct (outcome_bind_returned m (V3.finish rt loc) c w a Hout) as [_ ->].
        rewrite HR, !api_requests_app, (api_requests_none _ Htok). cbn. eauto.
      - destruct (outcome_bind_thrown m (V3.finish rt loc) c w e Hout) as [_ ->].
        rewrite HR, !api_requests_app, (api_requests_none _ Htok). cbn. eauto. }
    destruct Hcases as [(e & Hout & HR) | [(tk & res & _ & HR) |
      (tk & x & cid & tok2 & _ & _ & _ &
         [(e & _ & HR) | [(tk2 & res & _ & HR) | (tk2 & y & o & l & t & _ & _ & HR)]])]].
    + left. exists e.
      destruct (outcome_bind_thrown m (V3.finish rt loc) c w e Hout) as [Ho He].
      rewrite Ho in Hstop. rewrite He in *. rewrite HR in *.
      split; [exact Hstop|now apply api_requests_none].
    + right. eapply Hfirst. exact HR.
    + right. eapply Hfirst. exact HR.
    + right. eapply Hfirst. exact HR.
    + right. eapply Hfirst. exact HR.
  - rewrite mark_late_run. cbn [events].
    apply api_requests_satisfy, attempt_lookup_requests.
  - apply lookupBody_cases.
  - intros Hphone.
    destruct (proj2 (lookupBody_cases rt (Req.client_phone req) (Req.client_email req))
                Hphone) as [Hmail Hnone].
    split; [|exact Hnone].
    intros e He Hne. split; [exact (Hmail e He Hne)|].
    apply normalizeEmail_lower_case.
  - rewrite legacy_mark_late_run. cbn [events].
    apply api_requests_satisfy, legacy_attempt_client_requests.
Qed.
End LookupFilter.

(** A phone with digits and an e-mail: the filter is the phone alone. *)
Lemma lookup_filter_prefers_phone_with_digits_witness :
  lookupBody (normalizedPhone (Some "+1 (555) 123-4567"))
    (normalizedEmail Demo.salon (Some "Ann@Example.com")) =
  {| PhoneNumbers := Some ["5551234567"]; EmailIds := None |}.
Proof.
  refine (proj1 (proj2 (proj2 (lookup_filter_prefers_phone_with_digits Demo.salon
            (Req.mk None (Some "+1 (555) 123-4567") (Some "Ann@Example.com") None None)
            empty_cache Demo.t0 _ _)))
            "+1 (555) 123-4567" _ _).
  - reflexivity.
  - reflexivity.
  - reflexivity.
  - vm_compute. discriminate.
Defined.

(** C6, as stated, fails: a request that supplies a phone without any
    digit and an e-mail is looked up by the e-mail, not by the phone. *)
Lemma lookup_by_email_despite_phone :
  JS.truthy (Some "n/a") = true /\
  JS.truthy (Some "Ann@Example.com") = true /\
  hd_error
    (api_requests
       (events (V3.mark_late Demo.salon
                  (Req.mk None (Some "n/a") (Some "Ann@Example.com") None None)
                  empty_cache Demo.t0))) =
  Some {| method := POST;
          endpoint := ClientsLookup "201664";
          Authorization := "Bearer tok";
          data := Some (LookupData {| PhoneNumbers := None;
                                      EmailIds := Some ["ann@example.com"] |}) |}.
Proof. vm_compute. repeat split; reflexivity. Qed.

(** In the earlier revision the e-mail takes part in the match: a client
    whose phone differs from the caller's is found by the e-mail. *)
Example legacy_matches_by_email :
  Legacy.matches Demo.salon (normalizedPhone (Some "555-000-0000"))
    (normalizedEmail Demo.salon (Some "ANN@example.com")) (OfClient Demo.ann) = true.
Proof. reflexivity. Qed.

(** Beyond ASCII the comparison is between what the engine makes of the
    two addresses: on an engine that lower-cases "É" to "é", a client
    registered as "JOSÉ@X.COM" is found by "josé@x.com". *)
Example legacy_matches_beyond_ascii :
  JS.ascii_only "JOSÉ@X.COM" = false /\
  Legacy.matches Demo.salon None (normalizedEmail Demo.salon (Some "josé@x.com"))
    (OfClient (Client.mk "C-2" "José" "Ruiz" None (Some "JOSÉ@X.COM"))) = true.
Proof. split; reflexivity. Qed.

(* ===================================================================== *)
(** ** The concurrency digits of the write (lines 155-187, 361-394) *)
(* ===================================================================== *)

Lemma cut_in_suffix {A : Type} (P : A -> bool) (l0 : list A) : forall l pre x post,
  l0 ++ l = pre ++ x :: post ->
  P x = true ->
  Forall (fun a => P a = false) l0 ->
  exists pre2, pre = l0 ++ pre2 /\ l = pre2 ++ x :: post.
Proof.
  induction l0 as [|a l0 IH]; intros l pre x post Heq Hx Hall.
  - exists pre. auto.
  - inversion Hall; subst.
    destruct pre as [|b pre]; cbn in Heq; injection Heq as -> Heq.
    + congruence.
    + destruct (IH _ _ _ _ Heq Hx) as (pre2 & -> & ->); [assumption|].
      exists pre2. auto.
Qed.

Lemma token_events_no_write (evs : list Event) :
  token_events evs -> Forall (fun ev => is_write_call ev = false) evs.
Proof.
  intros H. eapply Forall_impl; [|exact H].
  intros [t|rq rs|cfg rs]; simpl; auto. discriminate.
Qed.

Section FreshRead.
Context {W : Type} (rt : Runtime W).

(** In [mark], a PUT is the last event, and the read whose data fill
    its body comes before it with nothing but a token fetch in
    between. *)
Lemma mark_write_after_read (loc id : string) c w pre cfg res post :
  events (V3.mark rt loc id c w) = pre ++ ApiCall cfg res :: post ->
  method cfg = PUT ->
  exists tok tk x tok2 tk2,
    token_events tok /\ token_events tok2 /\
    truthy_data (response_data x) = true /\
    pre = tok ++ ApiCall (config (RunningLate loc id) GET None tk) (inr x) :: tok2 /\
    cfg = config (RunningLate loc id) PUT
            (Some (UpdateData (V3.updateBody (response_data x)))) tk2 /\
    post = [].
Proof.
  intros Hev Hput.
  assert (Hw : is_write_call (ApiCall cfg res) = true) by (cbn; now rewrite Hput).
  destruct (mark_cases rt loc id c w)
    as (tok & Htok & [(e & _ & HR) | [(tk & e & _ & HR) | [(tk & x & _ & _ & HR) |
         (tk & x & tok2 & Hx & Htok2 & [(e & _ & HR) | (tk2 & res2 & _ & HR)])]]]);
    rewrite HR in Hev; clear HR;
    pose proof (token_events_no_write _ Htok) as Hn.
  - exfalso. eapply cut_at_absent; [exact Hev|exact Hw|exact Hn].
  - exfalso. eapply cut_at_absent; [exact Hev|exact Hw|].
    apply Forall_app. split; [exact Hn|]. repeat constructor.
  - exfalso. eapply cut_at_absent; [exact Hev|exact Hw|].
    apply Forall_app. split; [exact Hn|]. repeat constructor.
  - exfalso. eapply cut_at_absent; [exact Hev|exact Hw|].
    apply Forall_app. split; [exact Hn|].
    constructor; [reflexivity|now apply token_events_no_write].
  - assert (Hcut :
      (tok ++ ApiCall (config (RunningLate loc id) GET None tk) (inr x) :: tok2)
      ++ ApiCall (config (RunningLate loc id) PUT
                    (Some (UpdateData (V3.updateBody (response_data x)))) tk2) res2 :: []
      = pre ++ ApiCall cfg res :: post).
    { rewrite <- Hev, <- app_assoc. reflexivity. }
    destruct (split_unique is_write_call _ _ _ _ _ _ Hcut Hw) as (-> & Heq & ->).
    + apply Forall_app. split; [exact Hn|].
      constructor; [reflexivity|now apply token_events_no_write].
    + constructor.
    + injection Heq as -> _. exists tok, tk, x, tok2, tk2. auto 7.
Qed.

(** The current handler reads before it writes.  When a run sends a PUT,
    that is its last event; it goes to the running-late endpoint of some
    appointment; the GET of the same endpoint comes before it with only a
    token fetch in between, it returned a body [x] with [data], and
    nothing before it touched the running-late endpoint.  The members of
    the PUT's body are read from that data: when it is a details object
    [d], the [ConcurrencyCheckDigits] sent are the ones of [d], just
    read. *)
Lemma write_uses_fresh_read (req : Req.t) c w pre cfg res post :
  events (V3.mark_late rt req c w) = pre ++ ApiCall cfg res :: post ->
  method cfg = PUT ->
  exists before loc id tk x tok2 tk2 b time,
    pre = before ++ ApiCall (config (RunningLate loc id) GET None tk) (inr x) :: tok2 /\
    token_events tok2 /\
    Forall (api_call_satisfies (fun rq => forall l i, endpoint rq <> RunningLate l i))
           before /\
    cfg = config (RunningLate loc id) PUT (Some (UpdateData b)) tk2 /\
    UpdateFrom x b time /\
    (forall d, x = DetailsData d ->
               ConcurrencyCheckDigits b = Some (Details.concurrencyCheckDigits d)) /\
    post = [].
Proof.
  intros Hev Hput.
  assert (Hw : is_write_call (ApiCall cfg res) = true) by (cbn; now rewrite Hput).
  rewrite mark_late_run in Hev. cbn [events] in Hev.
  rewrite attempt_shape in Hev.
  set (loc := JS.or_else (Req.location_id req) CONFIG.LOCATION_ID) in *.
  assert (Hfinish : forall E0 resolved c1 w1,
            E0 ++ events (V3.finish rt loc resolved c1 w1) = pre ++ ApiCall cfg res :: post ->
            Forall (api_call_satisfies
                      (fun rq => method rq <> PUT /\
                                 forall l i, endpoint rq <> RunningLate l i)) E0 ->
            exists before loc id tk x tok2 tk2 b time,
              pre = before ++ ApiCall (config (RunningLate loc id) GET None tk)
                                      (inr x) :: tok2 /\
              token_events tok2 /\
              Forall (api_call_satisfies
                        (fun rq => forall l i, endpoint rq <> RunningLate l i)) before /\
              cfg = config (RunningLate loc id) PUT (Some (UpdateData b)) tk2 /\
              UpdateFrom x b time /\
              (forall d, x = DetailsData d ->
                         ConcurrencyCheckDigits b = Some (Details.concurrencyCheckDigits d)) /\
              post = []).
  { intros E0 resolved c1 w1 Hcut HE0.
    assert (HnE0 : Forall (fun ev => is_write_call ev = false) E0).
    { eapply not_write_call; [|exact HE0]. cbn. tauto. }
    destruct (cut_in_suffix is_write_call _ _ _ _ _ Hcut Hw HnE0) as (pre2 & -> & Hfin).
    destruct resolved as [response|[[|a id]|]]; cbn in Hfin;
      try (destruct pre2; discriminate Hfin).
    destruct (mark_write_after_read _ _ _ _ _ _ _ _ Hfin Hput)
      as (tok & tk & x & tok2 & tk2 & Htok & Htok2 & Hx & -> & -> & ->).
    exists (E0 ++ tok), loc, (String a id), tk, x, tok2, tk2,
      (V3.updateBody (response_data x)), (property Field.startTime (response_data x)).
    rewrite <- app_assoc.
    split; [reflexivity|]. split; [exact Htok2|].
    split.
    { apply Forall_app. split.
      - eapply Forall_impl; [|exact HE0].
        intros [t|rq rs|rq rs]; cbn; tauto.
      - now apply token_events_satisfy. }
    split; [reflexivity|]. split; [exact (truthy_data_update x Hx)|].
    split; [|reflexivity]. intros d ->. reflexivity. }
  destruct (negb _ && _).
  - set (m := V3.resolve rt loc (Req.client_phone req) (Req.client_email req)) in *.
    pose proof (resolve_reads rt loc (Req.client_phone req) (Req.client_email req) c w)
      as Hreads.
    fold m in Hreads.
    destruct (outcome (m c w)) as [resolved|e] eqn:Hout.
    + destruct (outcome_bind_returned m (V3.finish rt loc) c w _ Hout) as [_ Hevs].
      rewrite Hevs in Hev. eapply Hfinish; eauto.
    + destruct (outcome_bind_thrown m (V3.finish rt loc) c w _ Hout) as [_ Hevs].
      rewrite Hevs in Hev. exfalso.
      eapply cut_at_absent; [exact Hev|exact Hw|].
      eapply not_write_call; [|exact Hreads]. cbn. tauto.
  - apply (Hfinish [] (inr (Req.appointment_service_id req)) c w); [exact Hev|constructor].
Qed.
End FreshRead.

(** C2 fails on the earlier revision (lines 337-394).  A caller known by
    phone has an upcoming appointment whose listing entry carries
    concurrency digits 10, while the running-late read would report 11.
    The run makes three API requests, none of them a GET of the
    running-late endpoint, and its PUT sends the listing's 10. *)
Theorem legacy_write_reuses_listing_digits :
  map (fun rq => (method rq, endpoint rq))
      (api_requests (events (Legacy.mark_late Demo.salon
                               (Demo.by_phone "+1 (555) 123-4567")
                               empty_cache Demo.t0))) =
    [ (GET, ClientsList "201664");
      (GET, ClientServices "C-1" "201664");
      (PUT, RunningLate "201664" "APT-1") ]
  /\
  map data
      (filter (fun rq => match method rq with PUT => true | _ => false end)
         (api_requests (events (Legacy.mark_late Demo.salon
                                  (Demo.by_phone "+1 (555) 123-4567")
                                  empty_cache Demo.t0)))) =
    [ Some (UpdateData {| ServiceId := Some "S-1"; ClientId := Some "C-1";
                          EmployeeId := Some "E-1";
                          ConcurrencyCheckDigits := Some 10;
                          StartTime := Some "2030-01-01T10:00:00.000Z";
                          IsRunningLate := true |}) ]
  /\
  Demo.salon_reply (config (RunningLate "201664" "APT-1") GET None "tok") =
    inr (DetailsData (Demo.details_of 11))
  /\
  outcome (Legacy.mark_late Demo.salon (Demo.by_phone "+1 (555) 123-4567")
             empty_cache Demo.t0) =
    Returned (res_json (marked "APT-1" (Some "2030-01-01T10:00:00.000Z"))).
Proof. vm_compute. repeat split; reflexivity. Qed.

(** The same request on the current handler: the read is made and the
    PUT carries its 11. *)
Example current_write_uses_read_digits :
  map (fun rq => (method rq, endpoint rq, data rq))
      (api_requests (events (V3.mark_late Demo.salon
                               (Demo.by_phone "+1 (555) 123-4567")
                               empty_cache Demo.t0))) =
    [ (POST, ClientsLookup "201664",
       Some (LookupData {| PhoneNumbers := Some ["5551234567"]; EmailIds := None |}));
      (GET, ClientServices "C-1" "201664", None);
      (GET, RunningLate "201664" "APT-1", None);
      (PUT, RunningLate "201664" "APT-1",
       Some (UpdateData {| ServiceId := Some "S-1"; ClientId := Some "C-1";
                           EmployeeId := Some "E-1";
                           ConcurrencyCheckDigits := Some 11;
                           StartTime := Some "2030-01-01T10:00:00.000Z";
                           IsRunningLate := true |})) ].
Proof. vm_compute. reflexivity. Qed.

(* ===================================================================== *)
(** * Further properties *)
(* ===================================================================== *)

(* ===================================================================== *)
(** ** More on the phone normalisation (lines 89, 304, 309) *)
(* ===================================================================== *)

Lemma filter_all {A : Type} (f : A -> bool) (l : list A) :
  Forall (fun a => f a = true) l -> filter f l = l.
Proof.
  induction 1 as [|a l Ha Hl IH]; simpl; [reflexivity|].
  now rewrite Ha, IH.
Qed.

Lemma last_n_all {A : Type} (n : nat) (l : list A) :
  (Datatypes.length l <= n)%nat -> last_n n l = l.
Proof.
  intros H. rewrite last_n_skipn.
  replace (Datatypes.length l - n)%nat with 0%nat by lia. reflexivity.
Qed.

Lemma last_n_length {A : Type} (n : nat) (l : list A) :
  (Datatypes.length (last_n n l) <= n)%nat.
Proof. rewrite last_n_skipn, length_skipn. lia. Qed.

Lemma last_n_app {A : Type} (n : nat) (l1 l2 : list A) :
  (n <= Datatypes.length l2)%nat -> last_n n (l1 ++ l2) = last_n n l2.
Proof.
  intros H. rewrite !last_n_skipn, length_app.
  replace (Datatypes.length l1 + Datatypes.length l2 - n)%nat
    with (Datatypes.length l1 + (Datatypes.length l2 - n))%nat by lia.
  rewrite skipn_app.
  replace (Datatypes.length l1 + (Datatypes.length l2 - n) - Datatypes.length l1)%nat
    with (Datatypes.length l2 - n)%nat by lia.
  rewrite skipn_all2 by lia. reflexivity.
Qed.

Lemma normalizePhone_digits (phone : string) :
  Forall (fun c => JS.is_digit c = true) (list_ascii_of_string (normalizePhone phone)).
Proof.
  rewrite normalizePhone_as_list, last_n_skipn.
  apply Forall_forall. intros c Hc.
  pose proof (digits_of_all_digits phone) as Hall.
  rewrite Forall_forall in Hall. apply Hall.
  rewrite <- (firstn_skipn (Datatypes.length (digits_of phone) - 10) (digits_of phone)).
  apply in_or_app. now right.
Qed.

(** X1. A phone with at most ten digit characters keeps all of them, in
    order, and nothing else; with none, the result is the empty string
    (which the handler then treats as no phone). *)
Theorem normalizePhone_keeps_short_numbers (phone : string) :
  (Datatypes.length (digits_of phone) <= 10)%nat ->
  normalizePhone phone = string_of_list_ascii (digits_of phone) /\
  (digits_of phone = [] -> normalizePhone phone = "" /\
                           JS.truthy (normalizedPhone (Some phone)) = false).
Proof.
  intros Hshort.
  assert (Heq : normalizePhone phone = string_of_list_ascii (digits_of phone)).
  { rewrite normalizePhone_is_last_digits. unfold last_digits.
    now rewrite last_n_all. }
  split; [exact Heq|].
  intros Hnone. cbn [normalizedPhone option_map JS.truthy].
  rewrite Heq, Hnone. split; reflexivity.
Qed.

Lemma normalizePhone_keeps_short_numbers_witness :
  normalizePhone "555-1234" = "5551234".
Proof.
  refine (proj1 (normalizePhone_keeps_short_numbers "555-1234" _)).
  vm_compute. lia.
Defined.

(** X2. The phone normalisation is idempotent, and its result never has
    more than ten characters, all of them digits. *)
Theorem normalizePhone_idempotent (phone : string) :
  normalizePhone (normalizePhone phone) = normalizePhone phone /\
  (String.length (normalizePhone phone) <= 10)%nat /\
  Forall (fun c => JS.is_digit c = true) (list_ascii_of_string (normalizePhone phone)).
Proof.
  pose proof (normalizePhone_digits phone) as Hd.
  assert (Hlen : (String.length (normalizePhone phone) <= 10)%nat).
  { rewrite <- length_list_ascii, normalizePhone_as_list. apply last_n_length. }
  split; [|split; assumption].
  apply list_ascii_inj.
  rewrite (normalizePhone_as_list (normalizePhone phone)).
  unfold digits_of. rewrite (filter_all _ _ Hd).
  apply last_n_all. now rewrite length_list_ascii.
Qed.

(** X3. The normalisation sees the digits only: two phones with the same
    digit characters normalise alike whatever separates the digits, and
    digits put in front of a number of ten or more digits (a country code)
    change nothing. *)
Theorem normalizePhone_ignores_formatting (p q : string) (country_code : list ascii) :
  digits_of q = country_code ++ digits_of p ->
  country_code = [] \/ (10 <= Datatypes.length (digits_of p))%nat ->
  normalizePhone q = normalizePhone p.
Proof.
  intros Hq Hcc. apply list_ascii_inj.
  rewrite !normalizePhone_as_list, Hq.
  destruct Hcc as [-> | Hten]; [reflexivity|].
  now apply last_n_app.
Qed.

Lemma normalizePhone_ignores_formatting_witness :
  normalizePhone "+1 (555) 123-4567" = normalizePhone "555.123.4567".
Proof.
  apply (normalizePhone_ignores_formatting "555.123.4567" "+1 (555) 123-4567" ["1"%char]).
  - reflexivity.
  - right. vm_compute. lia.
Defined.

(* ===================================================================== *)
(** ** More on the token cache (lines 38-53) and [callMeevoAPI] (55-73) *)
(* ===================================================================== *)

Section TokenMore.
Context {W : Type} (rt : Runtime W).

(** The three ways a run of [getToken] can go, each with its result. *)
Lemma getToken_runs (c : TokenCache) (w : W) :
  (exists tk expiry t w0,
      token c = Some tk /\ tk <> "" /\ tokenExpiry c = Some expiry /\ expiry <> 0 /\
      t < expiry - 300000 /\
      getToken rt c w =
      {| outcome := Returned tk; cache := c; world := w0; events := [Clock t] |})
  \/
  (exists guard e w1,
      Forall (fun ev => token_granted ev = false) guard /\
      getToken rt c w =
      {| outcome := Thrown e; cache := c; world := w1;
         events := guard ++ [TokenCall credentials (inl e)] |})
  \/
  (exists guard td t' w2,
      Forall (fun ev => token_granted ev = false) guard /\
      getToken rt c w =
      {| outcome := Returned (access_token td);
         cache := {| token := Some (access_token td);
                     tokenExpiry := Some (t' + expires_in td * 1000) |};
         world := w2;
         events := guard ++ [TokenCall credentials (inr td); Clock t'] |}).
Proof.
  destruct (getToken_guard rt c w)
    as [(tk & expiry & t & w0 & Htk & Hne & Hex & Hnz & Hnow & Hlt) | (guard & w0 & Hguard)].
  - left. exists tk, expiry, t, w0. repeat (split; [assumption|]).
    now apply (getToken_hit rt c w tk expiry t w0).
  - right.
    assert (Hg : Forall (fun ev => token_granted ev = false) guard).
    { destruct Hguard as [(-> & _) | (? & ? & ? & _ & _ & _ & _ & _ & _ & ->)];
        repeat constructor. }
    destruct (axios_post rt credentials w0) as [res w1] eqn:Hpost.
    pose proof (getToken_fetch_from rt c w guard w0 res w1 Hguard Hpost) as Hrun.
    destruct res as [e|td].
    + left. exists guard, e, w1. auto.
    + right. destruct (Date_now rt w1) as [t' w2]. exists guard, td, t', w2. auto.
Qed.

(** What [getToken] returns is what the cache then holds. *)
Lemma getToken_returns_cached (c : TokenCache) (w : W) (tk : string) :
  outcome (getToken rt c w) = Returned tk ->
  token (cache (getToken rt c w)) = Some tk /\
  exists expiry, tokenExpiry (cache (getToken rt c w)) = Some expiry.
Proof.
  destruct (getToken_runs c w)
    as [(tk0 & expiry & t & w0 & Htk & _ & Hex & _ & _ & ->) |
        [(guard & e & w1 & _ & ->) | (guard & td & t' & w2 & _ & ->)]];
    cbn [outcome cache]; intros Heq; try discriminate Heq; injection Heq as <-;
    (split; [first [reflexivity|assumption]|eexists; first [reflexivity|eassumption]]).
Qed.

(** X4. A token that [getToken] has returned is returned again, with no
    network call and no change of the cache, by any later call made more
    than 300000 ms before the expiry now recorded (for a non-empty token
    and a non-zero expiry). *)
Theorem getToken_reuses_token (c : TokenCache) (w : W) tk c1 w1 evs w2 t w3 :
  getToken rt c w =
    {| outcome := Returned tk; cache := c1; world := w1; events := evs |} ->
  tk <> "" ->
  Date_now rt w2 = (t, w3) ->
  (forall expiry, tokenExpiry c1 = Some expiry -> expiry <> 0 /\ t < expiry - 300000) ->
  getToken rt c1 w2 =
    {| outcome := Returned tk; cache := c1; world := w3; events := [Clock t] |}.
Proof.
  intros Hrun Hne Hnow Hfresh.
  destruct (getToken_returns_cached c w tk) as (Htk & expiry & Hex).
  { now rewrite Hrun. }
  rewrite Hrun in Htk, Hex. cbn [cache] in Htk, Hex.
  destruct (Hfresh expiry Hex) as [Hnz Hlt].
  now apply (getToken_hit rt c1 w2 tk expiry t w3).
Qed.

(** A call re-authorises its request with the token in the cache. *)
Lemma callMeevoAPI_run ep m d c w :
  (exists e,
      outcome (callMeevoAPI rt ep m d c w) = Thrown e /\
      api_calls (events (callMeevoAPI rt ep m d c w)) = [])
  \/
  (exists tk res,
      token (cache (callMeevoAPI rt ep m d c w)) = Some tk /\
      outcome (callMeevoAPI rt ep m d c w) = of_result res /\
      api_calls (events (callMeevoAPI rt ep m d c w)) = [(config ep m d tk, res)]).
Proof.
  unfold callMeevoAPI.
  pose proof (getToken_returns_cached c w) as Hcached.
  pose proof (getToken_no_api_call rt c w) as Htok.
  destruct (getToken rt c w) as [[tk|e] c1 w1 evs] eqn:Hrun;
    cbn [outcome cache] in Hcached; cbn [events] in Htok.
  - right. destruct (Hcached tk eq_refl) as (Htk & _).
    rewrite (bind_returned _ _ _ _ _ _ _ _ Hrun).
    unfold request. destruct (axios rt (config ep m d tk) w1) as [res w2].
    exists tk, res. cbn [after outcome cache events].
    rewrite api_calls_app, (api_calls_token_events _ Htok). auto.
  - left. exists e. rewrite (bind_thrown _ _ _ _ _ _ _ _ Hrun). cbn [outcome events].
    split; [reflexivity|now apply api_calls_token_events].
Qed.

End TokenMore.

Lemma getToken_reuses_token_witness :
  getToken Demo.salon
    {| token := Some "tok"; tokenExpiry := Some (Demo.t0 + 1 + 3600 * 1000) |}
    (Demo.t0 + 5) =
  {| outcome := Returned "tok";
     cache := {| token := Some "tok"; tokenExpiry := Some (Demo.t0 + 1 + 3600 * 1000) |};
     world := Demo.t0 + 5; events := [Clock (Demo.t0 + 5)] |}.
Proof.
  apply (getToken_reuses_token Demo.salon empty_cache Demo.t0 "tok"
           {| token := Some "tok"; tokenExpiry := Some (Demo.t0 + 1 + 3600 * 1000) |}
           (Demo.t0 + 1)
           [TokenCall credentials Demo.hour_token; Clock (Demo.t0 + 1)]
           (Demo.t0 + 5) (Demo.t0 + 5) (Demo.t0 + 5)).
  - reflexivity.
  - discriminate.
  - reflexivity.
  - intros expiry [= <-]. split; [discriminate|]. vm_compute. reflexivity.
Defined.

(* ===================================================================== *)
(** ** The cache across a whole request *)
(* ===================================================================== *)

Section CacheSteps.
Context {W : Type} (rt : Runtime W).

Lemma moves_ret {A : Type} (a : A) : cache_moves_by_grant (ret a : Prog W A).
Proof. intros c w _. reflexivity. Qed.

Lemma moves_throw {A : Type} e : cache_moves_by_grant (throw e : Prog W A).
Proof. intros c w _. reflexivity. Qed.

Lemma moves_bind {A B : Type} (m : Prog W A) (k : A -> Prog W B) :
  cache_moves_by_grant m -> (forall a, cache_moves_by_grant (k a)) ->
  cache_moves_by_grant (bind m k).
Proof.
  intros Hm Hk c w. unfold bind. specialize (Hm c w).
  destruct (outcome (m c w)) as [a|e]; cbn [after cache events]; [|exact Hm].
  intros Hall. apply Forall_app in Hall as [H1 H2].
  rewrite (Hk a _ _ H2). now apply Hm.
Qed.

Lemma moves_try_catch {A : Type} (m : Prog W A) (h : AxiosError -> Prog W A) :
  cache_moves_by_grant m -> (forall e, cache_moves_by_grant (h e)) ->
  cache_moves_by_grant (try_catch m h).
Proof.
  intros Hm Hh c w. unfold try_catch. specialize (Hm c w).
  destruct (outcome (m c w)) as [a|e]; cbn [after cache events]; [exact Hm|].
  intros Hall. apply Forall_app in Hall as [H1 H2].
  rewrite (Hh e _ _ H2). now apply Hm.
Qed.

Lemma moves_now : cache_moves_by_grant (now rt).
Proof. intros c w _. unfold now. destruct (Date_now rt w). reflexivity. Qed.

Lemma moves_request cfg : cache_moves_by_grant (request rt cfg).
Proof. intros c w _. unfold request. destruct (axios rt cfg w). reflexivity. Qed.

Lemma moves_getToken : cache_moves_by_grant (getToken rt).
Proof.
  intros c w.
  destruct (getToken_runs rt c w)
    as [(tk0 & expiry & t & w0 & _ & _ & _ & _ & _ & ->) |
        [(guard & e & w1 & _ & ->) | (guard & td & t' & w2 & _ & ->)]];
    cbn [cache events]; intros Hall; try reflexivity.
  exfalso. apply Forall_app in Hall as [_ Hall].
  inversion Hall as [|? ? Hgrant _]. discriminate Hgrant.
Qed.

Lemma moves_callMeevoAPI ep m d : cache_moves_by_grant (callMeevoAPI rt ep m d).
Proof.
  apply moves_bind; [apply moves_getToken|]. intros tk. apply moves_request.
Qed.

Lemma keeps_ret {A : Type} I (a : A) : keeps I (ret a : Prog W A).
Proof. intros c w Hc. exact Hc. Qed.

Lemma keeps_throw {A : Type} I e : keeps I (throw e : Prog W A).
Proof. intros c w Hc. exact Hc. Qed.

Lemma keeps_bind {A B : Type} I (m : Prog W A) (k : A -> Prog W B) :
  keeps I m -> (forall a, keeps I (k a)) -> keeps I (bind m k).
Proof.
  intros Hm Hk c w Hc. unfold bind. specialize (Hm c w Hc).
  destruct (outcome (m c w)) as [a|e]; cbn [after cache]; [|exact Hm].
  now apply Hk.
Qed.

Lemma keeps_try_catch {A : Type} I (m : Prog W A) (h : AxiosError -> Prog W A) :
  keeps I m -> (forall e, keeps I (h e)) -> keeps I (try_catch m h).
Proof.
  intros Hm Hh c w Hc. unfold try_catch. specialize (Hm c w Hc).
  destruct (outcome (m c w)) as [a|e]; cbn [after cache]; [exact Hm|].
  now apply Hh.
Qed.

Lemma keeps_now I : keeps I (now rt).
Proof. intros c w Hc. unfold now. destruct (Date_now rt w). exact Hc. Qed.

Lemma keeps_request I cfg : keeps I (request rt cfg).
Proof. intros c w Hc. unfold request. destruct (axios rt cfg w). exact Hc. Qed.

Lemma keeps_paired_getToken : keeps slots_paired (getToken rt).
Proof.
  intros c w Hc.
  destruct (getToken_runs rt c w)
    as [(tk0 & expiry & t & w0 & _ & _ & _ & _ & _ & ->) |
        [(guard & e & w1 & _ & ->) | (guard & td & t' & w2 & _ & ->)]];
    cbn [cache]; try exact Hc.
  unfold slots_paired. cbn. split; discriminate.
Qed.

Lemma keeps_paired_callMeevoAPI ep m d : keeps slots_paired (callMeevoAPI rt ep m d).
Proof.
  apply keeps_bind; [apply keeps_paired_getToken|]. intros tk. apply keeps_request.
Qed.
End CacheSteps.

Ltac moves :=
  repeat first
    [ apply moves_ret
    | apply moves_throw
    | apply moves_now
    | apply moves_callMeevoAPI
    | apply moves_bind; [|intros ?]
    | apply moves_try_catch; [|intros ?]
    | match goal with
      | |- cache_moves_by_grant (match ?x with _ => _ end) => destruct x
      | |- cache_moves_by_grant (if ?x then _ else _) => destruct x
      end ].

Ltac keeps_paired :=
  repeat first
    [ apply keeps_ret
    | apply keeps_throw
    | apply keeps_now
    | apply keeps_paired_callMeevoAPI
    | apply keeps_bind; [|intros ?]
    | apply keeps_try_catch; [|intros ?]
    | match goal with
      | |- keeps _ (match ?x with _ => _ end) => destruct x
      | |- keeps _ (if ?x then _ else _) => destruct x
      end ].

Section CacheAcrossRequest.
Context {W : Type} (rt : Runtime W).

(** X6. A request during which no token request is granted leaves the
    token cache exactly as it found it, in both revisions of the handler:
    the cache is written by a successful refresh and by nothing else. *)
Theorem cache_written_only_by_refresh (req : Req.t) (c : TokenCache) (w : W) :
  (Forall (fun ev => token_granted ev = false) (events (V3.mark_late rt req c w)) ->
   cache (V3.mark_late rt req c w) = c) /\
  (Forall (fun ev => token_granted ev = false) (events (Legacy.mark_late rt req c w)) ->
   cache (Legacy.mark_late rt req c w) = c).
Proof.
  split.
  - revert c w. change (cache_moves_by_grant (V3.mark_late rt req)).
    unfold V3.mark_late, V3.attempt, V3.resolve, V3.finish, V3.mark. cbv zeta. moves.
  - revert c w. change (cache_moves_by_grant (Legacy.mark_late rt req)).
    unfold Legacy.mark_late, Legacy.attempt, Legacy.resolve, Legacy.found_clientId,
      Legacy.finish, Legacy.mark.
    cbv zeta. moves.
Qed.

(** X7. The two slots of the token cache go together: if before a
    request both are set or neither is, the same holds after it, in both
    revisions, however the request ends.  (Both are unset when the process
    starts.) *)
Theorem token_slots_stay_paired (req : Req.t) (c : TokenCache) (w : W) :
  slots_paired c ->
  slots_paired (cache (V3.mark_late rt req c w)) /\
  slots_paired (cache (Legacy.mark_late rt req c w)).
Proof.
  intros Hc. split.
  - revert c w Hc. change (keeps slots_paired (V3.mark_late rt req)).
    unfold V3.mark_late, V3.attempt, V3.resolve, V3.finish, V3.mark. cbv zeta.
    keeps_paired.
  - revert c w Hc. change (keeps slots_paired (Legacy.mark_late rt req)).
    unfold Legacy.mark_late, Legacy.attempt, Legacy.resolve, Legacy.found_clientId,
      Legacy.finish, Legacy.mark.
    cbv zeta. keeps_paired.
Qed.
End CacheAcrossRequest.

(** With a warm cache the whole request runs without a token request. *)
Lemma cache_written_only_by_refresh_witness :
  cache (V3.mark_late Demo.salon (Demo.by_id "APT-42") Scenarios.warm_cache Demo.t0) =
  Scenarios.warm_cache.
Proof.
  apply (proj1 (cache_written_only_by_refresh Demo.salon (Demo.by_id "APT-42")
                  Scenarios.warm_cache Demo.t0)).
  vm_compute. repeat constructor.
Defined.

Lemma token_slots_stay_paired_witness :
  slots_paired (cache (V3.mark_late Demo.salon (Demo.by_phone "+1 (555) 123-4567")
                         empty_cache Demo.t0)).
Proof.
  apply (token_slots_stay_paired Demo.salon (Demo.by_phone "+1 (555) 123-4567")
           empty_cache Demo.t0).
  unfold slots_paired. split; reflexivity.
Defined.

(* ===================================================================== *)
(** ** What the handler's requests look like (lines 101-105, 121-123,
       158-160, 183-187 and their counterparts in the earlier revision) *)
(* ===================================================================== *)

Lemma string_append_assoc (a b c : string) :
  ((a ++ b) ++ c)%string = (a ++ (b ++ c))%string.
Proof. induction a as [|ch a IH]; simpl; [reflexivity|now rewrite IH]. Qed.

Lemma string_append_empty (a : string) : (a ++ "")%string = a.
Proof. induction a as [|ch a IH]; simpl; [reflexivity|now rewrite IH]. Qed.

(** Every rendered path holds the tenant and the location of its
    endpoint, in that order. *)
Lemma endpoint_path_scope (e : Endpoint) :
  exists before after,
    endpoint_path e =
    (before ++ "?TenantId=200507&LocationId=" ++ endpoint_location e ++ after)%string.
Proof.
  destruct e as [loc|loc|cid loc|loc apt]; cbn [endpoint_path endpoint_location].
  - exists "/clients/lookup", "". now rewrite string_append_empty.
  - exists "/clients", "". now rewrite string_append_empty.
  - exists ("/book/client/" ++ cid ++ "/services")%string, "".
    rewrite string_append_empty.
    change ("/book/client/" ++ cid ++ "/services" ++ scope loc)%string
      with ("/book/client/" ++ (cid ++ ("/services" ++ scope loc)))%string.
    rewrite (string_append_assoc "/book/client/" (cid ++ "/services")),
            (string_append_assoc cid "/services"). reflexivity.
  - exists "/book/service/runninglate", ("&AppointmentServiceId=" ++ apt)%string.
    unfold scope.
    change CONFIG.TENANT_ID with "200507".
    cbn [append]. reflexivity.
Qed.

Section Requests.
Context {W : Type} (rt : Runtime W).

(** X8. Every API request of the current handler is one of three kinds:
    the POST of the lookup endpoint with a lookup body; a GET, without
    data, of the appointments or of the running-late endpoint; the PUT of
    the running-late endpoint with an update body whose [IsRunningLate] is
    true.  The earlier revision sends no POST: its requests are GETs
    without data (client list, appointments, running-late) and the same
    PUT. *)
Theorem requests_are_well_formed (req : Req.t) (c : TokenCache) (w : W) :
  Forall (fun cfg =>
            (method cfg = POST /\
             exists l b, endpoint cfg = ClientsLookup l /\ data cfg = Some (LookupData b))
            \/
            (method cfg = GET /\ data cfg = None /\
             ((exists cid l, endpoint cfg = ClientServices cid l) \/
              (exists l i, endpoint cfg = RunningLate l i)))
            \/
            (method cfg = PUT /\
             exists l i b, endpoint cfg = RunningLate l i /\
                           data cfg = Some (UpdateData b) /\ IsRunningLate b = true))
         (api_requests (events (V3.mark_late rt req c w)))
  /\
  Forall (fun cfg =>
            (method cfg = GET /\ data cfg = None /\
             ((exists l, endpoint cfg = ClientsList l) \/
              (exists cid l, endpoint cfg = ClientServices cid l) \/
              (exists l i, endpoint cfg = RunningLate l i)))
            \/
            (method cfg = PUT /\
             exists l i b, endpoint cfg = RunningLate l i /\
                           data cfg = Some (UpdateData b) /\ IsRunningLate b = true))
         (api_requests (events (Legacy.mark_late rt req c w))).
Proof.
  split.
  - rewrite mark_late_run. cbn [events]. apply api_requests_satisfy.
    revert c w.
    match goal with
    | |- forall c w, Forall (api_call_satisfies ?P) _ =>
        change (emits (api_call_satisfies P) (V3.attempt rt req));
        unfold V3.attempt, V3.resolve, V3.finish, V3.mark; cbv zeta;
        emits_api P
    end; cbn.
    all: try (left; split; [reflexivity|]; eauto; fail).
    all: try (right; left; split; [reflexivity|]; split; [reflexivity|]; eauto; fail).
    all: right; right; split; [reflexivity|]; eauto 10.
  - rewrite legacy_mark_late_run. cbn [events]. apply api_requests_satisfy.
    revert c w.
    match goal with
    | |- forall c w, Forall (api_call_satisfies ?P) _ =>
        change (emits (api_call_satisfies P) (Legacy.attempt rt req));
        unfold Legacy.attempt, Legacy.resolve, Legacy.found_clientId, Legacy.finish,
          Legacy.mark; cbv zeta;
        emits_api P
    end; cbn.
    all: try (left; split; [reflexivity|]; split; [reflexivity|]; eauto 10; fail).
    all: right; split; [reflexivity|]; eauto 10.
Qed.

(** X9. Every API request of a run, in both revisions, is scoped to one
    location: the request's [location_id] when it is a non-empty string,
    and [CONFIG.LOCATION_ID] otherwise; the URL it is sent to is the API
    base followed by a path that holds [?TenantId=200507&LocationId=] and
    that location. *)
Theorem requests_are_scoped_to_the_location (req : Req.t) (c : TokenCache) (w : W) :
  Forall (fun cfg =>
            endpoint_location (endpoint cfg) =
              JS.or_else (Req.location_id req) CONFIG.LOCATION_ID /\
            exists before after,
              url cfg =
              (CONFIG.API_URL ++ before ++ "?TenantId=200507&LocationId=" ++
               JS.or_else (Req.location_id req) CONFIG.LOCATION_ID ++ after)%string)
         (api_requests (events (V3.mark_late rt req c w)) ++
          api_requests (events (Legacy.mark_late rt req c w)))
  /\
  (Req.location_id req = None \/ Req.location_id req = Some "" ->
   JS.or_else (Req.location_id req) CONFIG.LOCATION_ID = "201664")
  /\
  (forall l, Req.location_id req = Some l -> l <> "" ->
   JS.or_else (Req.location_id req) CONFIG.LOCATION_ID = l).
Proof.
  split; [|split].
  - assert (Hurl : forall cfg loc,
               endpoint_location (endpoint cfg) = loc ->
               endpoint_location (endpoint cfg) = loc /\
               exists before after,
                 url cfg =
                 (CONFIG.API_URL ++ before ++ "?TenantId=200507&LocationId=" ++
                  loc ++ after)%string).
    { intros cfg loc Hloc. split; [exact Hloc|].
      destruct (endpoint_path_scope (endpoint cfg)) as (before & after & Hpath).
      exists before, after. unfold url. now rewrite Hpath, Hloc. }
    apply Forall_app. split.
    + rewrite mark_late_run. cbn [events].
      eapply Forall_impl; [intros cfg; apply Hurl|].
      apply api_requests_satisfy. revert c w.
      match goal with
      | |- forall c w, Forall (api_call_satisfies ?P) _ =>
          change (emits (api_call_satisfies P) (V3.attempt rt req));
          unfold V3.attempt, V3.resolve, V3.finish, V3.mark; cbv zeta;
          emits_api P
      end; reflexivity.
    + rewrite legacy_mark_late_run. cbn [events].
      eapply Forall_impl; [intros cfg; apply Hurl|].
      apply api_requests_satisfy. revert c w.
      match goal with
      | |- forall c w, Forall (api_call_satisfies ?P) _ =>
          change (emits (api_call_satisfies P) (Legacy.attempt rt req));
          unfold Legacy.attempt, Legacy.resolve, Legacy.found_clientId, Legacy.finish,
            Legacy.mark; cbv zeta;
          emits_api P
      end; reflexivity.
  - intros [-> | ->]; reflexivity.
  - intros l -> Hl. cbn. now rewrite (truthy_string_true _ Hl).
Qed.
End Requests.

(* ===================================================================== *)
(** ** Every run follows a path *)
(* ===================================================================== *)

Section PathOfRun.
Context {W : Type} (rt : Runtime W).

Lemma mark_path (loc id : string) c w :
  MarkPath loc id (api_calls (events (V3.mark rt loc id c w)))
                  (outcome (V3.mark rt loc id c w)).
Proof.
  destruct (mark_cases rt loc id c w)
    as (tok & Htok & [(e & Hout & Hev) | [(tk & e & Hout & Hev) | [(tk & x & Hx & Hout & Hev) |
         (tk & x & tok2 & Hx & Htok2 & [(e & Hout & Hev) | (tk2 & res & Hout & Hev)])]]]);
    rewrite Hev, Hout; clear Hev Hout;
    rewrite ?api_calls_app, ?(api_calls_token_events _ Htok);
    cbn [api_calls app].
  - constructor.
  - constructor.
  - now constructor.
  - rewrite (api_calls_token_events _ Htok2). now constructor.
  - rewrite ?api_calls_app, (api_calls_token_events _ Htok2). cbn [api_calls app].
    destruct res as [e|y]; now constructor.
Qed.

Lemma resolve_path (loc : string) (phone email : option string) c w :
  ResolvePath rt loc phone email
    (api_calls (events (V3.resolve rt loc phone email c w)))
    (outcome (V3.resolve rt loc phone email c w)).
Proof.
  destruct (resolve_cases rt loc phone email c w) as (tok & Htok & Hcases).
  destruct Hcases as [(e & Hout & Hev) | [(tk & res & Hres & Hev) |
    (tk & x & cid & tok2 & Hfirst & Hcid & Htok2 &
       [(e & Hout & Hev) | [(tk2 & res & Hres & Hev) |
                            (tk2 & y & o & l & t & Hy & Hout & Hev)]])]];
    rewrite Hev; clear Hev;
    rewrite ?api_calls_app, ?(api_calls_token_events _ Htok);
    cbn [api_calls app];
    rewrite ?api_calls_app, ?(api_calls_token_events _ Htok2);
    cbn [api_calls app].
  - rewrite Hout. constructor.
  - destruct res as [e|x].
    + rewrite Hres. constructor.
    + destruct Hres as [Hout Hx]. rewrite Hout. now constructor.
  - rewrite Hout. now apply resolve_listing_unauthorised with (cid := cid).
  - destruct res as [e|y].
    + rewrite Hres. now constructor.
    + destruct Hres as [Hout Hy]. rewrite Hout. now constructor.
  - rewrite Hout. now constructor.
Qed.

Lemma finish_path (loc : string) (resolved : Res.t + option string) c w :
  FinishPath loc resolved (api_calls (events (V3.finish rt loc resolved c w)))
                          (outcome (V3.finish rt loc resolved c w)).
Proof.
  destruct resolved as [response|[[|a id]|]]; cbn.
  - constructor.
  - now constructor.
  - constructor; [discriminate|]. apply mark_path.
  - now constructor.
Qed.

Lemma attempt_path (req : Req.t) c w :
  AttemptPath rt req (api_calls (events (V3.attempt rt req c w)))
                     (outcome (V3.attempt rt req c w)).
Proof.
  rewrite attempt_shape.
  set (loc := JS.or_else (Req.location_id req) CONFIG.LOCATION_ID).
  destruct (negb _ && _) eqn:Hguard.
  - set (m := V3.resolve rt loc (Req.client_phone req) (Req.client_email req)).
    pose proof (resolve_path loc (Req.client_phone req) (Req.client_email req) c w) as HR.
    fold m in HR.
    destruct (outcome (m c w)) as [resolved|e] eqn:Hout.
    + destruct (outcome_bind_returned m (V3.finish rt loc) c w _ Hout) as [-> ->].
      rewrite api_calls_app.
      eapply attempt_lookup_returned; [exact Hguard|exact HR|apply finish_path].
    + destruct (outcome_bind_thrown m (V3.finish rt loc) c w _ Hout) as [-> ->].
      now apply attempt_lookup_thrown.
  - apply attempt_without_lookup; [exact Hguard|apply finish_path].
Qed.

(** The answer of the handler, from the path of its [try] block. *)
Lemma mark_late_path (req : Req.t) c w :
  exists o,
    AttemptPath rt req (api_calls (events (V3.mark_late rt req c w))) o /\
    outcome (V3.mark_late rt req c w) =
      Returned (res_json match o with Returned b => b | Thrown e => on_error e end).
Proof.
  rewrite mark_late_run. cbn [outcome events].
  exists (outcome (V3.attempt rt req c w)). split; [apply attempt_path|reflexivity].
Qed.
End PathOfRun.

(* ===================================================================== *)
(** ** Where the lookup stops (lines 107-130) *)
(* ===================================================================== *)

Ltac inv H := inversion H; subst; clear H.

Ltac calls_eq :=
  cbn [app] in *;
  repeat match goal with
         | H : _ :: _ = [] |- _ => discriminate H
         | H : [] = _ :: _ |- _ => discriminate H
         | H : _ :: _ = _ :: _ |- _ => injection H; clear H; intros; subst
         end.

Ltac finish_inv :=
  match goal with H : FinishPath _ _ _ _ |- _ => inv H end.

Ltac mark_inv :=
  match goal with H : MarkPath _ _ _ _ |- _ => inv H end.

Ltac resolve_inv :=
  match goal with H : ResolvePath _ _ _ _ _ _ |- _ => inv H end.

Section LookupStops.
Context {W : Type} (rt : Runtime W).

(** Lines 107-111 on each shape of the lookup's answer: the [clientId]
    is read on the first element of an array, whatever the element is. *)
Lemma first_clientId_cases (x : ResponseData) :
  V3.first_clientId x =
  match x with
  | ClientsData (cl :: _) => Some (Client.clientId cl)
  | AppointmentsData (a :: _) => Some (Appointment.clientId a)
  | _ => None
  end.
Proof. destruct x as [[|cl l]|[|a l]|d|]; reflexivity. Qed.

(** X10. When the lookup's answer has no usable first element (its
    [data] is absent, is an object or an empty array, or is an array whose
    first element has an empty [clientId]), the handler answers "No client
    found with that phone number or email" and the lookup is the only API
    call of the request.  The [clientId] is read on the first element of
    whatever array comes back: an array of appointments counts too. *)
Theorem no_client_ends_the_request (req : Req.t) c w cfg x rest l :
  api_calls (events (V3.mark_late rt req c w)) = (cfg, inr x) :: rest ->
  endpoint cfg = ClientsLookup l ->
  (forall cl others, x = ClientsData (cl :: others) -> Client.clientId cl = "") ->
  (forall a others, x = AppointmentsData (a :: others) -> Appointment.clientId a = "") ->
  rest = [] /\
  outcome (V3.mark_late rt req c w) =
    Returned {| status := 200;
                body := Res.mk false None None None None
                          (Some "No client found with that phone number or email") |}.
Proof.
  intros Hcalls Hcfg Hclients Happointments.
  assert (Hx : forall cid, V3.first_clientId x = Some cid -> cid <> "" -> False).
  { intros cid Hfirst Hcid. rewrite first_clientId_cases in Hfirst.
    destruct x as [[|cl others]|[|a others]|d|]; try discriminate Hfirst;
      injection Hfirst as <-; apply Hcid; eauto. }
  destruct (mark_late_path rt req c w) as (o & Hpath & Hout).
  rewrite Hout. clear Hout. rewrite Hcalls in Hpath. clear Hcalls.
  inv Hpath.
  - finish_inv. mark_inv; discriminate Hcfg.
  - resolve_inv; exfalso; eauto.
  - resolve_inv; calls_eq; try (exfalso; eauto; fail).
    finish_inv. split; reflexivity.
Qed.

(** X11. When the appointments query's answer is not a non-empty array
    of appointments, the query is the last API call of the request, after
    the lookup.  If the answer has no element at all (its [data] is absent,
    is an object or an empty array), the handler answers "No appointments
    found for this client".  If it is a non-empty array whose elements
    have no [startTime] (an array of clients), line 125 lets it through,
    the filter keeps nothing and the handler answers "No upcoming
    appointments found to mark as running late". *)
Theorem no_appointment_ends_the_request (req : Req.t) c w first cfg y rest cid l :
  api_calls (events (V3.mark_late rt req c w)) = first :: (cfg, inr y) :: rest ->
  endpoint cfg = ClientServices cid l ->
  (forall a others, y <> AppointmentsData (a :: others)) ->
  rest = [] /\
  (exists l', endpoint (fst first) = ClientsLookup l') /\
  ((forall cl others, y <> ClientsData (cl :: others)) ->
   outcome (V3.mark_late rt req c w) =
     Returned {| status := 200;
                 body := Res.mk false None None None None
                           (Some "No appointments found for this client") |}) /\
  (forall cl others, y = ClientsData (cl :: others) ->
   outcome (V3.mark_late rt req c w) =
     Returned {| status := 200;
                 body := Res.mk false None None None None
                           (Some "No upcoming appointments found to mark as running late") |}).
Proof.
  intros Hcalls Hcfg Hy.
  destruct (mark_late_path rt req c w) as (o & Hpath & Hout).
  rewrite Hout. clear Hout. rewrite Hcalls in Hpath. clear Hcalls.
  inv Hpath.
  - finish_inv. mark_inv; discriminate Hcfg.
  - resolve_inv.
  - resolve_inv; calls_eq.
    + finish_inv; calls_eq.
    + finish_inv. split; [reflexivity|]. split; [cbn; eauto|].
      split; [reflexivity|].
      intros cl others ->. exfalso.
      match goal with H : forall o l, response_data _ <> _ |- _ =>
        eapply H; reflexivity end.
    + match goal with
      | H : response_data ?y = Array _ |- _ =>
          destruct y as [[|cl others]|[|a others]|d|]; try discriminate H;
            cbn [response_data map] in H; injection H as <- <-
      end.
      * change (OfClient cl :: map OfClient others)
          with (map OfClient (cl :: others)) in *.
        rewrite upcoming_entry_clients in *.
        finish_inv. split; [reflexivity|]. split; [cbn; eauto|].
        split; [|reflexivity].
        intros Hno. exfalso. eapply Hno. reflexivity.
      * exfalso. eapply Hy. reflexivity.
Qed.

(** X12. Only the first client of the lookup's answer counts: the
    appointments query that follows the lookup is the GET, without data,
    of the appointments of that first client, in the request's location. *)
Theorem first_client_is_taken (req : Req.t) c w cfg1 cl others cfg2 res2 rest l :
  api_calls (events (V3.mark_late rt req c w)) =
    (cfg1, inr (ClientsData (cl :: others))) :: (cfg2, res2) :: rest ->
  endpoint cfg1 = ClientsLookup l ->
  Client.clientId cl <> "" /\
  method cfg2 = GET /\ data cfg2 = None /\
  endpoint cfg2 =
    ClientServices (Client.clientId cl)
      (JS.or_else (Req.location_id req) CONFIG.LOCATION_ID).
Proof.
  intros Hcalls Hcfg.
  destruct (mark_late_path rt req c w) as (o & Hpath & _).
  rewrite Hcalls in Hpath. clear Hcalls.
  inv Hpath.
  - finish_inv. mark_inv; discriminate Hcfg.
  - resolve_inv;
      match goal with H : V3.first_clientId _ = Some _ |- _ =>
        cbn in H; injection H as <- end;
      repeat split; assumption || reflexivity.
  - resolve_inv; calls_eq;
      try match goal with H : V3.first_clientId _ = Some _ |- _ =>
        cbn in H; injection H as <- end.
    + finish_inv; calls_eq.
    + repeat split; assumption || reflexivity.
    + repeat split; assumption || reflexivity.
Qed.
End LookupStops.

(* ===================================================================== *)
(** ** The answer (lines 114-117, 126-129, 138-141, 149-152, 163-166,
       190-196, 200-203 and their counterparts) *)
(* ===================================================================== *)

Section AnswerSteps.
Context {W : Type} (rt : Runtime W).

Lemma answers_ret {A : Type} (Q : A -> Prop) (a : A) :
  Q a -> answers Q (ret a : Prog W A).
Proof. intros Ha c w a' [= <-]. exact Ha. Qed.

Lemma answers_throw {A : Type} (Q : A -> Prop) e : answers Q (throw e : Prog W A).
Proof. intros c w a H. discriminate H. Qed.

Lemma answers_bind {A B : Type} (Qm : A -> Prop) (Q : B -> Prop)
    (m : Prog W A) (k : A -> Prog W B) :
  answers Qm m -> (forall a, Qm a -> answers Q (k a)) -> answers Q (bind m k).
Proof.
  intros Hm Hk c w b. unfold bind.
  destruct (outcome (m c w)) as [a|e] eqn:Hout; cbn [after outcome]; [|discriminate].
  apply Hk. eapply Hm. exact Hout.
Qed.

Lemma answers_bind_any {A B : Type} (Q : B -> Prop) (m : Prog W A) (k : A -> Prog W B) :
  (forall a, answers Q (k a)) -> answers Q (bind m k).
Proof.
  intros Hk. apply (answers_bind (fun _ => True)); [|auto].
  intros c w a _. exact I.
Qed.
End AnswerSteps.

Ltac answering :=
  repeat first
    [ apply answers_bind_any; intros ?
    | match goal with
      | |- answers _ (match ?x with _ => _ end) => destruct x
      | |- answers _ (if ?x then _ else _) => destruct x
      end
    | apply answers_throw
    | apply answers_ret ].

Section Answer.
Context {W : Type} (rt : Runtime W).

Lemma resolve_answers (loc : string) (phone email : option string) :
  answers (fun r : Res.t + option string =>
             match r with inl b => is_failure b | inr _ => True end)
          (V3.resolve rt loc phone email).
Proof.
  unfold V3.resolve. cbv zeta. answering; cbn; unfold is_failure; eauto.
Qed.

Lemma attempt_answers (req : Req.t) :
  answers (fun b => is_marked b \/ is_failure b) (V3.attempt rt req).
Proof.
  unfold V3.attempt. cbv zeta.
  eapply answers_bind.
  - destruct (negb _ && _); [apply resolve_answers|now apply answers_ret].
  - intros [b|id] Hr; unfold V3.finish, V3.mark.
    + apply answers_ret. now right.
    + answering; unfold is_marked, is_failure; eauto.
Qed.

Lemma legacy_resolve_answers (loc : string) (phone email : option string) :
  answers (fun r : Res.t + (option string * Json) =>
             match r with inl b => is_failure b | inr _ => True end)
          (Legacy.resolve rt loc phone email).
Proof.
  unfold Legacy.resolve, Legacy.found_clientId. cbv zeta.
  answering; cbn; unfold is_failure; eauto.
Qed.

Lemma legacy_attempt_answers (req : Req.t) :
  answers (fun b => is_marked b \/ is_failure b) (Legacy.attempt rt req).
Proof.
  unfold Legacy.attempt. cbv zeta.
  eapply answers_bind.
  - destruct (negb _ && _); [apply legacy_resolve_answers|now apply answers_ret].
  - intros [b|[id details]] Hr; unfold Legacy.finish, Legacy.mark.
    + apply answers_ret. now right.
    + answering; unfold is_marked, is_failure; eauto.
Qed.

(** X13. In both revisions the handler always answers, with status 200,
    one of two objects: the success object (success and marked_late true,
    the appointment's identifier, the fixed message, no error, and the
    appointment's time when the data read had one) or a failure object
    (success false and an error text, nothing else).  So [success] is true
    exactly when [error] is absent. *)
Theorem answer_is_success_or_failure (req : Req.t) (c : TokenCache) (w : W) :
  (exists b,
      outcome (V3.mark_late rt req c w) = Returned {| status := 200; body := b |} /\
      ((exists aptServiceId time,
           b = Res.mk true (Some true) (Some aptServiceId) time
                 (Some "Your barber has been notified that you're running late.") None)
       \/ (exists msg, b = Res.mk false None None None None (Some msg))) /\
      (Res.success b = true <-> Res.error b = None))
  /\
  (exists b,
      outcome (Legacy.mark_late rt req c w) = Returned {| status := 200; body := b |} /\
      ((exists aptServiceId time,
           b = Res.mk true (Some true) (Some aptServiceId) time
                 (Some "Your barber has been notified that you're running late.") None)
       \/ (exists msg, b = Res.mk false None None None None (Some msg))) /\
      (Res.success b = true <-> Res.error b = None)).
Proof.
  assert (Hshape : forall b, is_marked b \/ is_failure b ->
            ((exists aptServiceId time,
                 b = Res.mk true (Some true) (Some aptServiceId) time
                       (Some "Your barber has been notified that you're running late.") None)
             \/ (exists msg, b = Res.mk false None None None None (Some msg))) /\
            (Res.success b = true <-> Res.error b = None)).
  { intros b [(id & st & ->) | (msg & ->)]; cbn.
    - split; [left; exists id, st; reflexivity|]. split; intros _; reflexivity.
    - split; [right; exists msg; reflexivity|]. split; intros H; discriminate H. }
  split.
  - rewrite mark_late_run. cbn [outcome].
    eexists. split; [reflexivity|]. apply Hshape.
    destruct (outcome (V3.attempt rt req c w)) as [b|e] eqn:Hout.
    + eapply attempt_answers. exact Hout.
    + right. unfold on_error, is_failure. eauto.
  - rewrite legacy_mark_late_run. cbn [outcome].
    eexists. split; [reflexivity|]. apply Hshape.
    destruct (outcome (Legacy.attempt rt req c w)) as [b|e] eqn:Hout.
    + eapply legacy_attempt_answers. exact Hout.
    + right. unfold on_error, is_failure. eauto.
Qed.
End Answer.

(* ===================================================================== *)
(** ** Success, and the order of the calls (lines 75-205) *)
(* ===================================================================== *)

Lemma in_firstn {A : Type} (x : A) (n : nat) (l : list A) :
  In x (firstn n l) -> In x l.
Proof.
  intros H. rewrite <- (firstn_skipn n l). apply in_or_app. now left.
Qed.

Section Success.
Context {W : Type} (rt : Runtime W).

Lemma resolve_path_reads loc phone email calls o :
  ResolvePath rt loc phone email calls o ->
  (forall cfg res, In (cfg, res) calls -> method cfg <> PUT) /\
  (forall b, o = Returned (inl b) -> Res.success b = false).
Proof.
  intros H. inv H;
    (split; [intros cfg res Hin Hput; cbn in Hin;
             repeat match goal with
                    | H : _ \/ _ |- _ => destruct H
                    | H : False |- _ => destruct H
                    | H : (_, _) = (_, _) |- _ => inv H
                    end; cbn in Hput; discriminate Hput|]);
    intros b Heq; try discriminate Heq; try (injection Heq as <-; reflexivity).
  destruct (upcoming_entry rt t (o0 :: l)); [discriminate Heq|].
  injection Heq as <-. reflexivity.
Qed.

Lemma mark_path_success loc id calls o :
  MarkPath loc id calls o ->
  (Res.success (answer_of o) = true <->
   exists cfg y, In (cfg, inr y) calls /\ method cfg = PUT) /\
  (Res.success (answer_of o) = true ->
   exists tk x tk2 y,
     truthy_data (response_data x) = true /\
     calls = [(config (RunningLate loc id) GET None tk, inr x);
              (config (RunningLate loc id) PUT
                 (Some (UpdateData (V3.updateBody (response_data x)))) tk2, inr y)] /\
     answer_of o = marked id (property Field.startTime (response_data x))).
Proof.
  intros H. inv H; cbn [answer_of on_error failure marked Res.success].
  1-5: split; [split; [discriminate|]|discriminate];
    intros (cfg0 & y0 & Hin & Hput); cbn in Hin;
    repeat match goal with
           | H : _ \/ _ |- _ => destruct H
           | H : False |- _ => destruct H
           | H : (_, _) = (_, _) |- _ => inv H
           end; cbn in Hput; discriminate Hput.
  split; [split; [intros _|reflexivity]|intros _].
  - eexists _, y. split; [right; left; reflexivity|reflexivity].
  - exists tk, x, tk2, y. auto.
Qed.

Lemma finish_path_success loc resolved calls o :
  FinishPath loc resolved calls o ->
  (forall b, resolved = inl b -> Res.success b = false) ->
  (Res.success (answer_of o) = true <->
   exists cfg y, In (cfg, inr y) calls /\ method cfg = PUT) /\
  (Res.success (answer_of o) = true ->
   exists id tk x tk2 y,
     truthy_data (response_data x) = true /\
     calls = [(config (RunningLate loc id) GET None tk, inr x);
              (config (RunningLate loc id) PUT
                 (Some (UpdateData (V3.updateBody (response_data x)))) tk2, inr y)] /\
     answer_of o = marked id (property Field.startTime (response_data x))).
Proof.
  intros H Hinl. inv H; cbn [answer_of].
  - rewrite (Hinl response eq_refl).
    split; [split; [discriminate|]|discriminate].
    intros (cfg & x & [] & _).
  - cbn. split; [split; [discriminate|]|discriminate].
    intros (cfg & x & [] & _).
  - destruct (mark_path_success _ _ _ _ H1) as [Hiff Hshape].
    split; [exact Hiff|]. intros Hok.
    destruct (Hshape Hok) as (tk & x & tk2 & y & Hx & -> & Hb).
    exists id, tk, x, tk2, y. auto.
Qed.

Lemma update_from_time x sent time : UpdateFrom x sent time -> StartTime sent = time.
Proof. intros H. now inversion H. Qed.

(** X14. The handler answers [success: true] exactly when the run holds a
    PUT that the upstream accepted.  In that case the run ends with the
    GET of a running-late endpoint, which returned a body [x] with [data],
    followed by the PUT to the same endpoint; the PUT carries the members
    read from that data ([UpdateFrom]: the five members of a details
    object, none of them when the data is an array) with
    [IsRunningLate: true]; and the answer names the appointment of that
    endpoint and has the start time read, which is also the [StartTime]
    that was sent. *)
Theorem success_means_the_write_was_accepted (req : Req.t) (c : TokenCache) (w : W) :
  exists b,
    outcome (V3.mark_late rt req c w) = Returned {| status := 200; body := b |} /\
    (Res.success b = true <->
     exists cfg y,
       In (cfg, inr y) (api_calls (events (V3.mark_late rt req c w))) /\
       method cfg = PUT) /\
    (Res.success b = true ->
     exists before id tk x tk2 y sent time,
       api_calls (events (V3.mark_late rt req c w)) =
         before ++
         [({| method := GET;
              endpoint :=
                RunningLate (JS.or_else (Req.location_id req) CONFIG.LOCATION_ID) id;
              Authorization := "Bearer " ++ tk;
              data := None |}, inr x);
          ({| method := PUT;
              endpoint :=
                RunningLate (JS.or_else (Req.location_id req) CONFIG.LOCATION_ID) id;
              Authorization := "Bearer " ++ tk2;
              data := Some (UpdateData sent) |}, inr y)] /\
       UpdateFrom x sent time /\
       StartTime sent = time /\
       b = Res.mk true (Some true) (Some id) time
             (Some "Your barber has been notified that you're running late.") None).
Proof.
  destruct (mark_late_path rt req c w) as (o & Hpath & Hout).
  exists (answer_of o). split; [exact Hout|]. clear Hout.
  set (loc := JS.or_else (Req.location_id req) CONFIG.LOCATION_ID) in *.
  set (calls := api_calls (events (V3.mark_late rt req c w))) in *.
  clearbody calls.
  assert (Hdone : forall before id tk x tk2 y,
            truthy_data (response_data x) = true ->
            answer_of o = marked id (property Field.startTime (response_data x)) ->
            calls = before ++
                    [(config (RunningLate loc id) GET None tk, inr x);
                     (config (RunningLate loc id) PUT
                        (Some (UpdateData (V3.updateBody (response_data x)))) tk2, inr y)] ->
            exists before id tk x tk2 y sent time,
              calls =
                before ++
                [({| method := GET; endpoint := RunningLate loc id;
                     Authorization := "Bearer " ++ tk; data := None |}, inr x);
                 ({| method := PUT; endpoint := RunningLate loc id;
                     Authorization := "Bearer " ++ tk2;
                     data := Some (UpdateData sent) |}, inr y)] /\
              UpdateFrom x sent time /\
              StartTime sent = time /\
              answer_of o =
                Res.mk true (Some true) (Some id) time
                  (Some "Your barber has been notified that you're running late.") None).
  { intros before id tk x tk2 y Hx Hb Hcalls.
    exists before, id, tk, x, tk2, y, (V3.updateBody (response_data x)),
      (property Field.startTime (response_data x)).
    split; [exact Hcalls|].
    pose proof (truthy_data_update x Hx) as Hfrom.
    split; [exact Hfrom|]. split; [exact (update_from_time _ _ _ Hfrom)|exact Hb]. }
  inv Hpath.
  - match goal with H : FinishPath _ _ _ _ |- _ =>
      destruct (finish_path_success _ _ _ _ H) as [Hiff Hshape]; [discriminate|] end.
    split; [exact Hiff|]. intros Hok.
    destruct (Hshape Hok) as (id & tk & x & tk2 & y & Hx & Hcalls & Hb).
    apply (Hdone [] id tk x tk2 y Hx Hb Hcalls).
  - match goal with H : ResolvePath _ _ _ _ _ _ |- _ =>
      destruct (resolve_path_reads _ _ _ _ _ H) as [Hreads _] end.
    cbn [answer_of on_error failure Res.success].
    split; [split; [discriminate|]|discriminate].
    intros (cfg & x & Hin & Hput). exfalso. eapply Hreads; eauto.
  - match goal with H : ResolvePath _ _ _ _ _ _ |- _ =>
      destruct (resolve_path_reads _ _ _ _ _ H) as [Hreads Hinl] end.
    match goal with H : FinishPath _ _ _ _ |- _ =>
      destruct (finish_path_success _ _ _ _ H) as [Hiff Hshape] end.
    { intros b ->. now apply Hinl. }
    split; [split|].
    + intros Hok. destruct (proj1 Hiff Hok) as (cfg & x & Hin & Hput).
      exists cfg, x. split; [apply in_or_app; now right|exact Hput].
    + intros (cfg & x & Hin & Hput). apply Hiff.
      apply in_app_or in Hin as [Hin|Hin].
      * exfalso. eapply Hreads; eauto.
      * eauto.
    + intros Hok.
      destruct (Hshape Hok) as (id & tk & x & tk2 & y & Hx & -> & Hb).
      apply (Hdone calls1 id tk x tk2 y Hx Hb eq_refl).
Qed.

(** X15. The API requests of a run follow the chain lookup (POST),
    appointments (GET), read (GET), write (PUT), or, without a lookup, the
    chain read, write: the methods of a run are a prefix of one of the two
    chains, so there are at most four requests, and no pair of method and
    endpoint occurs twice (nothing is retried). *)
Theorem calls_follow_the_chain (req : Req.t) (c : TokenCache) (w : W) :
  ((exists n, map method (api_requests (events (V3.mark_late rt req c w))) =
              firstn n [POST; GET; GET; PUT])
   \/
   (exists n, map method (api_requests (events (V3.mark_late rt req c w))) =
              firstn n [GET; PUT]))
  /\
  (Datatypes.length (api_requests (events (V3.mark_late rt req c w))) <= 4)%nat
  /\
  NoDup (map (fun cfg => (method cfg, endpoint cfg))
             (api_requests (events (V3.mark_late rt req c w)))).
Proof.
  destruct (mark_late_path rt req c w) as (o & Hpath & _).
  rewrite api_requests_calls.
  set (calls := api_calls (events (V3.mark_late rt req c w))) in *.
  clearbody calls.
  assert (Hmark : forall loc id calls o',
            MarkPath loc id calls o' ->
            exists n, map method (map fst calls) = firstn n [GET; PUT] /\
                      map (fun cfg => (method cfg, endpoint cfg)) (map fst calls) =
                      firstn n [(GET, RunningLate loc id); (PUT, RunningLate loc id)]).
  { intros loc id calls0 o' H. inv H;
      [exists 0%nat|exists 1%nat|exists 1%nat|exists 1%nat|exists 2%nat|exists 2%nat];
      split; reflexivity. }
  assert (Hfinish : forall loc resolved calls o',
            FinishPath loc resolved calls o' ->
            exists n id, map method (map fst calls) = firstn n [GET; PUT] /\
                      map (fun cfg => (method cfg, endpoint cfg)) (map fst calls) =
                      firstn n [(GET, RunningLate loc id); (PUT, RunningLate loc id)]).
  { intros loc resolved calls0 o' H. inv H.
    - exists 0%nat, "". split; reflexivity.
    - exists 0%nat, "". split; reflexivity.
    - match goal with H : MarkPath _ _ _ _ |- _ =>
        destruct (Hmark _ _ _ _ H) as (n & H2 & H3) end. eauto. }
  assert (Hnodup : forall n loc id,
            NoDup (firstn n [(GET, RunningLate loc id); (PUT, RunningLate loc id)])).
  { intros [|[|[|n]]] loc id; cbn; repeat constructor; cbn; intuition discriminate. }
  assert (Hshort : forall (n : nat) (l : list AxiosConfig),
            map method l = firstn n [GET; PUT] -> (Datatypes.length l <= 2)%nat).
  { intros n l H. rewrite <- (length_map method), H, length_firstn. cbn. lia. }
  inv Hpath.
  - match goal with H : FinishPath _ _ _ _ |- _ =>
      destruct (Hfinish _ _ _ _ H) as (n & id & Hm & Hp) end.
    split; [right; eauto|]. split.
    + apply Hshort in Hm. lia.
    + rewrite Hp. apply Hnodup.
  - resolve_inv; cbn;
      (split; [left;
               first [exists 0%nat; reflexivity | exists 1%nat; reflexivity
                     | exists 2%nat; reflexivity]|]);
      (split; [lia|]); repeat constructor; cbn; intuition discriminate.
  - match goal with H : FinishPath _ _ _ _ |- _ =>
      destruct (Hfinish _ _ _ _ H) as (n & id & Hm & Hp) end.
    pose proof (Hshort _ _ Hm) as Hle.
    rewrite !map_app, length_app.
    resolve_inv; cbn [app map fst length method endpoint config] in *.
    1,2: finish_inv; cbn;
      (split; [left;
               first [exists 1%nat; reflexivity | exists 2%nat; reflexivity]|]);
      (split; [lia|]); repeat constructor; cbn; intuition discriminate.
    rewrite Hm, Hp.
    split; [|split].
    + left. exists (2 + n)%nat. reflexivity.
    + cbn [Datatypes.length]. lia.
    + constructor; [|constructor; [|apply Hnodup]].
      * cbn. intros [Heq|Hin]; [discriminate Heq|].
        apply in_firstn in Hin. cbn in Hin. intuition discriminate.
      * intros Hin. apply in_firstn in Hin. cbn in Hin. intuition discriminate.
Qed.
End Success.

(* ===================================================================== *)
(** ** The write of the current handler (lines 155-187) *)
(* ===================================================================== *)

Section Write.
Context {W : Type} (rt : Runtime W).

Lemma resolve_path_elsewhere loc phone email calls o :
  ResolvePath rt loc phone email calls o ->
  Forall (fun call => method (fst call) <> PUT /\
                      forall l i, endpoint (fst call) <> RunningLate l i) calls.
Proof.
  intros H. inv H; repeat constructor; cbn; discriminate.
Qed.

Lemma mark_path_write loc id calls o cfg res :
  MarkPath loc id calls o ->
  In (cfg, res) calls -> method cfg = PUT ->
  exists tk x tk2,
    truthy_data (response_data x) = true /\
    calls = [(config (RunningLate loc id) GET None tk, inr x); (cfg, res)] /\
    cfg = config (RunningLate loc id) PUT
            (Some (UpdateData (V3.updateBody (response_data x)))) tk2.
Proof.
  intros H Hin Hput. inv H; cbn in Hin;
    repeat match goal with
           | H : _ \/ _ |- _ => destruct H
           | H : False |- _ => destruct H
           | H : (_, _) = (_, _) |- _ => inv H
           end; cbn in Hput; try discriminate Hput; eauto 7.
Qed.

(** X16. In the current handler a PUT, accepted or not, is the last API
    call of its run and comes right after the GET of the same running-late
    endpoint, which returned a body [x] with [data]; the PUT carries the
    members read from that data ([UpdateFrom]: the service, client and
    employee identifiers, the concurrency digits and the start time of a
    details object; none of them when the data is an array) with
    [IsRunningLate: true]; no earlier call of the run touched the
    running-late endpoint. *)
Theorem write_follows_its_read (req : Req.t) (c : TokenCache) (w : W) cfg res :
  In (cfg, res) (api_calls (events (V3.mark_late rt req c w))) ->
  method cfg = PUT ->
  exists before id tk x tk2 sent time,
    api_calls (events (V3.mark_late rt req c w)) =
      before ++
      [({| method := GET;
           endpoint := RunningLate (JS.or_else (Req.location_id req) CONFIG.LOCATION_ID) id;
           Authorization := "Bearer " ++ tk;
           data := None |}, inr x);
       (cfg, res)] /\
    cfg =
      {| method := PUT;
         endpoint := RunningLate (JS.or_else (Req.location_id req) CONFIG.LOCATION_ID) id;
         Authorization := "Bearer " ++ tk2;
         data := Some (UpdateData sent) |} /\
    UpdateFrom x sent time /\
    Forall (fun call => forall l i, endpoint (fst call) <> RunningLate l i) before.
Proof.
  intros Hin Hput.
  destruct (mark_late_path rt req c w) as (o & Hpath & _).
  set (loc := JS.or_else (Req.location_id req) CONFIG.LOCATION_ID) in *.
  set (calls := api_calls (events (V3.mark_late rt req c w))) in *.
  clearbody calls.
  assert (Hfinish : forall resolved calls0 o0,
            FinishPath loc resolved calls0 o0 -> In (cfg, res) calls0 ->
            exists id tk x tk2,
              truthy_data (response_data x) = true /\
              calls0 = [(config (RunningLate loc id) GET None tk, inr x); (cfg, res)] /\
              cfg = config (RunningLate loc id) PUT
                      (Some (UpdateData (V3.updateBody (response_data x)))) tk2).
  { intros resolved calls0 o0 H Hin0. inv H; try (destruct Hin0; fail).
    match goal with H : MarkPath _ _ _ _ |- _ =>
      destruct (mark_path_write _ _ _ _ _ _ H Hin0 Hput) as (tk & x & tk2 & Hx & -> & ->) end.
    eauto 10. }
  inv Hpath.
  - match goal with H : FinishPath _ _ _ _ |- _ =>
      destruct (Hfinish _ _ _ H Hin) as (id & tk & x & tk2 & Hx & -> & ->) end.
    exists [], id, tk, x, tk2, (V3.updateBody (response_data x)),
      (property Field.startTime (response_data x)).
    split; [reflexivity|]. split; [reflexivity|].
    split; [exact (truthy_data_update x Hx)|constructor].
  - exfalso.
    match goal with H : ResolvePath _ _ _ _ _ _ |- _ =>
      pose proof (resolve_path_elsewhere _ _ _ _ _ H) as Hno end.
    rewrite Forall_forall in Hno. destruct (Hno _ Hin) as [Hnp _]. now apply Hnp.
  - match goal with H : ResolvePath _ _ _ _ _ _ |- _ =>
      pose proof (resolve_path_elsewhere _ _ _ _ _ H) as Hno end.
    apply in_app_or in Hin as [Hin|Hin].
    + exfalso. rewrite Forall_forall in Hno. destruct (Hno _ Hin) as [Hnp _].
      now apply Hnp.
    + match goal with H : FinishPath _ _ _ _ |- _ =>
        destruct (Hfinish _ _ _ H Hin) as (id & tk & x & tk2 & Hx & -> & ->) end.
      exists calls1, id, tk, x, tk2, (V3.updateBody (response_data x)),
        (property Field.startTime (response_data x)).
      split; [reflexivity|]. split; [reflexivity|].
      split; [exact (truthy_data_update x Hx)|].
      eapply Forall_impl; [|exact Hno]. cbn. tauto.
Qed.
End Write.

(* ===================================================================== *)
(** ** The earlier revision against the current one (lines 284-412) *)
(* ===================================================================== *)

Section Revisions.
Context {W : Type} (rt : Runtime W).

Lemma bind_assoc {A B C : Type} (m : Prog W A) (f : A -> Prog W B) (g : B -> Prog W C) c w :
  bind (bind m f) g c w = bind m (fun a => bind (f a) g) c w.
Proof.
  destruct (m c w) as [[a|e] c1 w1 evs] eqn:Hm.
  - rewrite (bind_returned m (fun a => bind (f a) g) _ _ _ _ _ _ Hm).
    pose proof (bind_returned m f _ _ _ _ _ _ Hm) as Hmf.
    destruct (f a c1 w1) as [[b|e] c2 w2 evs2] eqn:Hf.
    + rewrite (bind_returned (f a) g _ _ _ _ _ _ Hf), after_after.
      apply bind_returned. exact Hmf.
    + rewrite (bind_thrown (f a) g _ _ _ _ _ _ Hf).
      apply bind_thrown. exact Hmf.
  - rewrite (bind_thrown m (fun a => bind (f a) g) _ _ _ _ _ _ Hm).
    apply bind_thrown. now apply bind_thrown.
Qed.

Lemma bind_ext {A B : Type} (m : Prog W A) (k1 k2 : A -> Prog W B) c w :
  (forall a c' w', k1 a c' w' = k2 a c' w') -> bind m k1 c w = bind m k2 c w.
Proof.
  intros H. unfold bind. destruct (outcome (m c w)); [|reflexivity]. now rewrite H.
Qed.

(** Given no details, the earlier [mark] is the current [mark]. *)
Lemma legacy_mark_without_details (loc id : string) c w :
  Legacy.mark rt loc id Undefined c w = V3.mark rt loc id c w.
Proof.
  unfold Legacy.mark, V3.mark. cbn [truthy_data]. cbv zeta. rewrite bind_assoc.
  apply bind_ext. intros detailsResult c' w'. apply bind_ret.
Qed.

(** X17. On a request that skips the lookup block (a non-empty
    [appointment_service_id], or no phone and no e-mail) the two revisions
    of the handler have the same run: the same events, answer, cache and
    world.  They can differ only on requests resolved by phone or
    e-mail. *)
Theorem revisions_agree_without_lookup (req : Req.t) (c : TokenCache) (w : W) :
  negb (JS.truthy (Req.appointment_service_id req)) &&
    (JS.truthy (Req.client_phone req) || JS.truthy (Req.client_email req)) = false ->
  Legacy.mark_late rt req c w = V3.mark_late rt req c w.
Proof.
  intros Hguard.
  rewrite mark_late_run, legacy_mark_late_run.
  assert (Heq : Legacy.attempt rt req c w = V3.attempt rt req c w).
  { unfold Legacy.attempt, V3.attempt. cbv zeta. rewrite Hguard, !bind_ret.
    unfold Legacy.finish, V3.finish.
    destruct (Req.appointment_service_id req) as [[|a id]|]; try reflexivity.
    apply legacy_mark_without_details. }
  now rewrite Heq.
Qed.
End Revisions.

Lemma revisions_agree_without_lookup_witness :
  Legacy.mark_late Demo.salon (Demo.by_id "APT-42") empty_cache Demo.t0 =
  V3.mark_late Demo.salon (Demo.by_id "APT-42") empty_cache Demo.t0.
Proof.
  apply (revisions_agree_without_lookup Demo.salon (Demo.by_id "APT-42")).
  reflexivity.
Defined.

(* ===================================================================== *)
(** ** The match of the earlier revision (lines 304-316) *)
(* ===================================================================== *)

Lemma truthy_string_false (s : string) : JS.truthy_string s = false <-> s = "".
Proof. destruct s; cbn; split; congruence. Qed.

Section LegacyMatch.
Context {W : Type} (rt : Runtime W).

(** X18. The earlier revision takes a client of the list when its phone
    has the same last ten digits as the caller's (which must have a
    digit), or when the caller's e-mail is non-empty and the client's
    e-mail address lower-cases to the same string as the caller's; for
    e-mails of ASCII characters that is: they are equal up to the case of
    letters.  A client without phone and without e-mail address is never
    taken, and neither is an element of another shape (it has neither
    property). *)
Theorem legacy_match_is_phone_or_email (phone email : option string) (cl : Client.t) :
  (Legacy.matches rt (normalizedPhone phone) (normalizedEmail rt email) (OfClient cl) = true <->
   (exists p, phone = Some p /\ digits_of p <> [] /\
              last_digits 10 (JS.or_else (Client.primaryPhoneNumber cl) "") =
              last_digits 10 p)
   \/
   (exists e address,
       email = Some e /\ e <> "" /\ Client.emailAddress cl = Some address /\
       normalizeEmail rt address = normalizeEmail rt e))
  /\
  (forall e address,
      JS.ascii_only e = true -> JS.ascii_only address = true ->
      (normalizeEmail rt address = normalizeEmail rt e <->
       lower_case address = lower_case e))
  /\
  (Client.primaryPhoneNumber cl = None -> Client.emailAddress cl = None ->
   Legacy.matches rt (normalizedPhone phone) (normalizedEmail rt email) (OfClient cl) = false)
  /\
  (forall a,
      Legacy.matches rt (normalizedPhone phone) (normalizedEmail rt email)
        (OfAppointment a) = false).
Proof.
  assert (Hphone :
    (match normalizedPhone phone with
     | Some (String _ _ as p) =>
         String.eqb (JS.slice (-10)
                       (JS.replace_non_digits (JS.or_else (Client.primaryPhoneNumber cl) "")))
                    p
     | _ => false
     end) = true <->
    exists p, phone = Some p /\ digits_of p <> [] /\
              last_digits 10 (JS.or_else (Client.primaryPhoneNumber cl) "") =
              last_digits 10 p).
  { destruct phone as [p|]; cbn [normalizedPhone option_map].
    2:{ split; [discriminate|]. intros (p & Hp & _). discriminate Hp. }
    pose proof (normalizePhone_truthy p) as Htruthy.
    fold (normalizePhone (JS.or_else (Client.primaryPhoneNumber cl) "")).
    rewrite <- !normalizePhone_is_last_digits.
    destruct (normalizePhone p) as [|ch np] eqn:Hnp; cbn [JS.truthy_string] in Htruthy.
    - split; [discriminate|]. intros (p' & Hp' & Hd & _). injection Hp' as <-.
      destruct (digits_of p); [congruence|discriminate].
    - rewrite String.eqb_eq. split.
      + intros Heq. exists p. split; [reflexivity|].
        split; [|rewrite <- ?(normalizePhone_is_last_digits p);
                 unfold normalizePhone in *; congruence].
        destruct (digits_of p); [discriminate|discriminate].
      + intros (p' & Hp' & _ & Heq). injection Hp' as <-.
        rewrite <- ?(normalizePhone_is_last_digits p) in Heq.
        unfold normalizePhone in *. congruence. }
  assert (Hemail :
    (match normalizedEmail rt email, Client.emailAddress cl with
     | Some (String _ _ as e), Some address => String.eqb (normalizeEmail rt address) e
     | _, _ => false
     end) = true <->
    exists e address,
      email = Some e /\ e <> "" /\ Client.emailAddress cl = Some address /\
      normalizeEmail rt address = normalizeEmail rt e).
  { destruct email as [e|]; cbn [normalizedEmail option_map].
    2:{ split; [discriminate|]. intros (e & a & He & _). discriminate He. }
    pose proof (toLowerCase_truthy (toLowerCase_unicode rt) e) as Htruthy.
    fold (normalizeEmail rt e) in Htruthy.
    destruct (normalizeEmail rt e) as [|ch ne] eqn:Hne; cbn [JS.truthy_string] in Htruthy.
    - split; [discriminate|]. intros (e' & a & [= <-] & Hne' & _).
      destruct e; [congruence|discriminate Htruthy].
    - destruct (Client.emailAddress cl) as [address|].
      + rewrite String.eqb_eq. split.
        * intros Heq. exists e, address.
          split; [reflexivity|]. split; [|split; [reflexivity|congruence]].
          intros ->. discriminate Htruthy.
        * intros (e' & a & [= <-] & _ & [= <-] & Heq). congruence.
      + split; [discriminate|]. intros (e' & a & _ & _ & Ha & _). discriminate Ha. }
  split; [|split; [|split]].
  - unfold Legacy.matches. cbn [Field.primaryPhoneNumber Field.emailAddress].
    rewrite orb_true_iff, Hphone, Hemail. reflexivity.
  - intros e address He Ha.
    now rewrite !normalizeEmail_lower_case.
  - intros Hp He. unfold Legacy.matches.
    cbn [Field.primaryPhoneNumber Field.emailAddress]. rewrite Hp, He. cbn [JS.or_else].
    replace (JS.slice (-10) (JS.replace_non_digits "")) with "" by reflexivity.
    destruct (normalizedPhone phone) as [[|ch p]|],
      (normalizedEmail rt email) as [[|ch' e]|]; reflexivity.
  - intros a. unfold Legacy.matches.
    cbn [Field.primaryPhoneNumber Field.emailAddress JS.or_else].
    replace (JS.slice (-10) (JS.replace_non_digits "")) with "" by reflexivity.
    destruct (normalizedPhone phone) as [[|ch p]|],
      (normalizedEmail rt email) as [[|ch' e]|]; reflexivity.
Qed.
End LegacyMatch.

(* ===================================================================== *)
(** ** The earlier revision on a request resolved by phone or e-mail
       (lines 295-403) *)
(* ===================================================================== *)

Section LegacyLookup.
Context {W : Type} (rt : Runtime W).

Lemma upcoming_in (t : Z) (l : list Appointment.t) (u : Appointment.t) :
  upcoming rt t l = Some u -> In u l.
Proof.
  intros H. pose proof (upcoming_spec rt t l) as Hspec. rewrite H in Hspec.
  destruct Hspec as (tu & before & after & -> & _).
  apply in_or_app. right. now left.
Qed.

(** What the filter keeps has a [startTime]: when an entry is picked
    from the [data] of a body, the body is a listing of appointments and
    the entry is one of them. *)
Lemma upcoming_entry_of_response (t : Z) (y : ResponseData) o l u :
  response_data y = Array (o :: l) ->
  upcoming_entry rt t (o :: l) = Some u ->
  exists entries a,
    y = AppointmentsData entries /\ In a entries /\ u = OfAppointment a.
Proof.
  intros Hy Hu.
  destruct y as [cls|entries|d|]; cbn [response_data] in Hy; try discriminate Hy;
    injection Hy as Hl; rewrite <- Hl in Hu.
  - rewrite upcoming_entry_clients in Hu. discriminate Hu.
  - rewrite upcoming_entry_appointments in Hu.
    destruct (upcoming rt t entries) as [a|] eqn:Ha; [|discriminate Hu].
    injection Hu as <-. exists entries, a.
    split; [reflexivity|]. split; [now apply (upcoming_in t)|reflexivity].
Qed.

Lemma bind_throw {A B : Type} e (k : A -> Prog W B) c w :
  bind (throw e) k c w = throw e c w.
Proof. reflexivity. Qed.

Lemma legacy_resolve_reads (loc : string) (phone email : option string) :
  emits (api_call_satisfies (fun cfg => forall l i, endpoint cfg <> RunningLate l i))
        (Legacy.resolve rt loc phone email).
Proof.
  unfold Legacy.resolve, Legacy.found_clientId. cbv zeta.
  emits_api (fun cfg : AxiosConfig => forall l i, endpoint cfg <> RunningLate l i);
    cbn; discriminate.
Qed.

(** When the lookup block of the earlier revision leaves an appointment,
    it is an entry of the listing it has just received, and it leaves that
    entry as the details. *)
Lemma legacy_resolve_returns (loc : string) (phone email : option string) c w oid od :
  outcome (Legacy.resolve rt loc phone email c w) = Returned (inr (oid, od)) ->
  exists cfg entries a,
    In (cfg, inr (AppointmentsData entries))
       (api_calls (events (Legacy.resolve rt loc phone email c w))) /\
    In a entries /\
    oid = Some (Appointment.appointmentServiceId a) /\
    od = Object (OfAppointment a).
Proof.
  unfold Legacy.resolve. cbv zeta.
  step_call tok Htok e tk x c1 w1; cbn [outcome]; try discriminate.
  unfold Legacy.found_clientId.
  destruct (response_data x) as [|o|clients];
    rewrite ?bind_ret, ?bind_throw; cbn [after throw outcome]; try discriminate.
  destruct (match find _ clients with Some client => _ | None => None end)
    as [[|ch cid]|]; cbn [after ret outcome]; try discriminate.
  step_call tok2 Htok2 e tk2 y c2 w2; cbn [after outcome]; try discriminate.
  destruct (response_data y) as [|o|[|o l]] eqn:Hy; cbn [after ret outcome];
    try discriminate.
  destruct (Date_now rt w2) as [t w3] eqn:Hnow.
  rewrite (bind_now rt _ _ _ _ _ Hnow).
  destruct (upcoming_entry rt t (o :: l)) as [u|] eqn:Hup;
    cbn [after ret outcome events]; try discriminate.
  intros [= <- <-].
  destruct (upcoming_entry_of_response t y o l u Hy Hup)
    as (entries & a & -> & Ha & ->).
  exists (config (ClientServices (String ch cid) loc) GET None tk2), entries, a.
  split; [|split; [exact Ha|split; reflexivity]].
  rewrite !api_calls_app, (api_calls_token_events _ Htok),
    (api_calls_token_events _ Htok2). cbn. auto.
Qed.

Lemma legacy_attempt_shape (req : Req.t) c w :
  Legacy.attempt rt req c w =
  (if negb (JS.truthy (Req.appointment_service_id req)) &&
      (JS.truthy (Req.client_phone req) || JS.truthy (Req.client_email req))
   then bind (Legacy.resolve rt (JS.or_else (Req.location_id req) CONFIG.LOCATION_ID)
                (Req.client_phone req) (Req.client_email req))
             (Legacy.finish rt (JS.or_else (Req.location_id req) CONFIG.LOCATION_ID)) c w
   else Legacy.finish rt (JS.or_else (Req.location_id req) CONFIG.LOCATION_ID)
          (inr (Req.appointment_service_id req, Undefined)) c w).
Proof.
  unfold Legacy.attempt. cbv zeta.
  destruct (negb _ && _); [reflexivity|apply bind_ret].
Qed.

(** X19. In the earlier revision, on a request resolved by phone or
    e-mail, the only call to the running-late endpoint is the PUT: no
    running-late GET is made.  The PUT goes to the endpoint of an entry of
    the appointments listing received in the same run, and its body is
    copied from that entry: its service, client and employee identifiers,
    its concurrency digits and its start time, with [IsRunningLate: true]. *)
Theorem legacy_lookup_writes_from_the_listing (req : Req.t) (c : TokenCache) (w : W)
    cfg res l i :
  negb (JS.truthy (Req.appointment_service_id req)) &&
    (JS.truthy (Req.client_phone req) || JS.truthy (Req.client_email req)) = true ->
  In (cfg, res) (api_calls (events (Legacy.mark_late rt req c w))) ->
  endpoint cfg = RunningLate l i ->
  method cfg = PUT /\
  exists listing entries a,
    In (listing, inr (AppointmentsData entries))
       (api_calls (events (Legacy.mark_late rt req c w))) /\
    In a entries /\
    endpoint cfg =
      RunningLate (JS.or_else (Req.location_id req) CONFIG.LOCATION_ID)
        (Appointment.appointmentServiceId a) /\
    data cfg =
      Some (UpdateData
              {| ServiceId := Some (Appointment.serviceId a);
                 ClientId := Some (Appointment.clientId a);
                 EmployeeId := Some (Appointment.employeeId a);
                 ConcurrencyCheckDigits := Some (Appointment.concurrencyCheckDigits a);
                 StartTime := Some (Appointment.startTime a);
                 IsRunningLate := true |}).
Proof.
  intros Hguard Hin Hcfg.
  rewrite legacy_mark_late_run in *. cbn [events] in *.
  rewrite legacy_attempt_shape in *. rewrite Hguard in *.
  set (loc := JS.or_else (Req.location_id req) CONFIG.LOCATION_ID) in *.
  set (m := Legacy.resolve rt loc (Req.client_phone req) (Req.client_email req)) in *.
  assert (Hreads : forall cfg0 res0,
            In (cfg0, res0) (api_calls (events (m c w))) ->
            forall l0 i0, endpoint cfg0 <> RunningLate l0 i0).
  { intros cfg0 res0 Hin0.
    pose proof (api_requests_satisfy _ _
                  (legacy_resolve_reads loc (Req.client_phone req)
                     (Req.client_email req) c w)) as Hall.
    fold m in Hall. rewrite api_requests_calls, Forall_forall in Hall.
    apply Hall. change cfg0 with (fst (cfg0, res0)). now apply in_map. }
  destruct (outcome (m c w)) as [resolved|e] eqn:Hout.
  2:{ destruct (outcome_bind_thrown m (Legacy.finish rt loc) c w e Hout) as [_ Hev].
      rewrite Hev in Hin. exfalso. eapply Hreads; eauto. }
  destruct (outcome_bind_returned m (Legacy.finish rt loc) c w _ Hout) as [_ Hev].
  rewrite Hev in *. clear Hev. rewrite api_calls_app in *.
  apply in_app_or in Hin as [Hin|Hin]; [exfalso; eapply Hreads; eauto|].
  destruct resolved as [b|[oid od]]; [destruct Hin|].
  destruct (legacy_resolve_returns loc _ _ c w oid od Hout)
    as (listing & entries & a & Hlisting & Ha & -> & ->).
  cbn [Legacy.finish] in Hin |- *.
  destruct (Appointment.appointmentServiceId a) as [|ch id] eqn:Hid; [destruct Hin|].
  unfold Legacy.mark in Hin. cbn [truthy_data] in Hin. rewrite bind_ret in Hin.
  cbn [truthy_data] in Hin.
  set (sent := V3.updateBody (Object (OfAppointment a))) in *.
  set (k := fun _ : ResponseData =>
              (ret (marked (String ch id)
                      (property Field.startTime (Object (OfAppointment a))))
               : Prog W Res.t)) in *.
  assert (Hput : cfg = config (RunningLate loc (String ch id)) PUT
                         (Some (UpdateData sent))
                         (match token (cache (callMeevoAPI rt (RunningLate loc (String ch id))
                                                PUT (Some (UpdateData sent))
                                                (cache (m c w)) (world (m c w)))) with
                          | Some tk => tk | None => "" end)).
  { destruct (callMeevoAPI_run rt (RunningLate loc (String ch id)) PUT
                (Some (UpdateData sent))
                (cache (m c w)) (world (m c w)))
      as [(e & Ho & Hcalls) | (tk & res0 & Htk & Ho & Hcalls)].
    - destruct (outcome_bind_thrown _ k _ _ e Ho) as [_ Hev].
      rewrite Hev, Hcalls in Hin. destruct Hin.
    - rewrite Htk.
      destruct res0 as [e|x]; cbn [of_result] in Ho.
      + destruct (outcome_bind_thrown _ k _ _ e Ho) as [_ Hev].
        rewrite Hev, Hcalls in Hin. destruct Hin as [Heq|[]].
        injection Heq as Hc _. now rewrite <- Hc.
      + destruct (outcome_bind_returned _ k _ _ x Ho) as [_ Hev].
        rewrite Hev, api_calls_app, Hcalls in Hin. cbn in Hin.
        destruct Hin as [Heq|[]]. injection Heq as Hc _. now rewrite <- Hc. }
  rewrite Hput. cbn [method endpoint data config].
  split; [reflexivity|].
  exists listing, entries, a. split; [apply in_or_app; now left|].
  split; [exact Ha|]. rewrite Hid. split; reflexivity.
Qed.
End LegacyLookup.

(* ===================================================================== *)
(** ** The [catch] of the earlier revision (lines 405-411) *)
(* ===================================================================== *)

Section LegacyCatch.
Context {W : Type} (rt : Runtime W).

Lemma ends_of_stops {A : Type} (m : Prog W A) : stops_at_rejection m -> rejection_ends m.
Proof.
  intros H c w. specialize (H c w).
  destruct (outcome (m c w)) as [a|e] eqn:Hout; [now left|].
  destruct H as (before & ev & Hev & Hrej & Hbefore).
  right. exists before, ev, e. auto.
Qed.

Lemma ends_ret {A : Type} (a : A) : rejection_ends (ret a : Prog W A).
Proof. intros c w. now left. Qed.

Lemma ends_throw {A : Type} e : rejection_ends (throw e : Prog W A).
Proof. intros c w. now left. Qed.

Lemma ends_bind {A B : Type} (m : Prog W A) (k : A -> Prog W B) :
  rejection_ends m -> (forall a, rejection_ends (k a)) -> rejection_ends (bind m k).
Proof.
  intros Hm Hk c w. unfold bind.
  destruct (Hm c w) as [Hnone | (before & ev & e & Hev & Hrej & Hbefore & Hout)].
  - destruct (outcome (m c w)) as [a|e]; cbn [after events outcome]; [|now left].
    rewrite rejections_app, Hnone. cbn [app].
    destruct (Hk a (cache (m c w)) (world (m c w)))
      as [Hnone2 | (before & ev & e & Hev & Hrej & Hbefore & Hout)]; [now left|].
    right. exists (events (m c w) ++ before), ev, e.
    rewrite Hev, app_assoc, rejections_app, Hnone, Hbefore. auto.
  - rewrite Hout. cbn [events outcome]. right. exists before, ev, e. auto.
Qed.

Ltac ends :=
  repeat first
    [ apply ends_ret
    | apply ends_throw
    | apply ends_of_stops; first [apply stops_now | apply stops_callMeevoAPI]
    | apply ends_bind; [|intros ?]
    | match goal with
      | |- rejection_ends (match ?x with _ => _ end) => destruct x
      | |- rejection_ends (if ?x then _ else _) => destruct x
      end ].

Lemma ends_legacy_attempt req : rejection_ends (Legacy.attempt rt req).
Proof.
  unfold Legacy.attempt, Legacy.resolve, Legacy.found_clientId, Legacy.finish, Legacy.mark.
  cbv zeta. ends.
Qed.

(** A rejected call of such a run is its last event, and its error is
    the one thrown. *)
Lemma rejection_is_last {A : Type} (m : Prog W A) c w ev e :
  rejection_ends m ->
  In ev (events (m c w)) -> rejection ev = Some e ->
  outcome (m c w) = Thrown e /\ exists before, events (m c w) = before ++ [ev].
Proof.
  intros Hends Hin Hrej.
  destruct (in_split _ _ Hin) as (l1 & l2 & Hsplit).
  destruct (Hends c w) as [Hnone | (before & ev' & e' & Hev & Hrej' & Hbefore & Hout)].
  { rewrite Hsplit, rejections_app in Hnone. cbn in Hnone. rewrite Hrej in Hnone.
    destruct (rejections l1); discriminate. }
  assert (Hsame : l1 = before /\ ev = ev' /\ l2 = []).
  { apply (split_unique (fun x => match rejection x with Some _ => true | None => false end)
             before ev' [] l1 ev l2).
    - congruence.
    - now rewrite Hrej.
    - clear - Hbefore. induction before as [|x l IH]; constructor.
      + unfold rejections in Hbefore. cbn in Hbefore.
        destruct (rejection x); [discriminate|reflexivity].
      + apply IH. unfold rejections in *. cbn in Hbefore.
        destruct (rejection x); [discriminate|exact Hbefore].
    - constructor. }
  destruct Hsame as (-> & <- & ->).
  split; [congruence|]. exists before. exact Hsplit.
Qed.

(** X20. The earlier revision, too, never throws: it always answers with
    status 200, and when an upstream call (token or API) of the request is
    rejected, that call is the last event of the run and the answer is the
    failure object whose error is the rejection's
    [response.data.error.message] when that is a non-empty string and
    "Failed to mark appointment as running late" otherwise. *)
Theorem legacy_rejection_is_reported (req : Req.t) (c : TokenCache) (w : W) :
  (exists response,
      outcome (Legacy.mark_late rt req c w) = Returned response /\ status response = 200) /\
  (forall ev e,
      In ev (events (Legacy.mark_late rt req c w)) -> rejection ev = Some e ->
      outcome (Legacy.mark_late rt req c w) =
        Returned {| status := 200;
                    body := Res.mk false None None None None
                              (Some (JS.or_else (response_error_message e)
                                       "Failed to mark appointment as running late")) |} /\
      exists before, events (Legacy.mark_late rt req c w) = before ++ [ev]).
Proof.
  rewrite legacy_mark_late_run. cbn [outcome events].
  split; [eexists; split; reflexivity|].
  intros ev e Hin Hrej.
  destruct (rejection_is_last _ c w ev e (ends_legacy_attempt req) Hin Hrej) as [-> Hlast].
  split; [reflexivity|exact Hlast].
Qed.
End LegacyCatch.

(* ===================================================================== *)
(** ** Concrete runs of the further properties *)
(* ===================================================================== *)

(** Scenario B: nobody has the caller's phone. *)
Lemma no_client_ends_the_request_witness :
  outcome (V3.mark_late Scenarios.nobody (Demo.by_phone "5550000000")
             empty_cache Demo.t0) =
  Returned {| status := 200;
              body := Res.mk false None None None None
                        (Some "No client found with that phone number or email") |}.
Proof.
  refine (proj2 (no_client_ends_the_request Scenarios.nobody
                   (Demo.by_phone "5550000000") empty_cache Demo.t0
                   {| method := POST; endpoint := ClientsLookup "201664";
                      Authorization := "Bearer tok";
                      data := Some (LookupData {| PhoneNumbers := Some ["5550000000"];
                                                  EmailIds := None |}) |}
                   (ClientsData []) [] "201664" _ _ _ _)).
  - reflexivity.
  - reflexivity.
  - intros cl others H. discriminate H.
  - intros a others H. discriminate H.
Defined.

Lemma no_appointment_ends_the_request_witness :
  outcome (V3.mark_late Scenarios.idle (Demo.by_phone "+1 (555) 123-4567")
             empty_cache Demo.t0) =
  Returned {| status := 200;
              body := Res.mk false None None None None
                        (Some "No appointments found for this client") |}.
Proof.
  refine (proj1 (proj2 (proj2 (no_appointment_ends_the_request Scenarios.idle
                   (Demo.by_phone "+1 (555) 123-4567") empty_cache Demo.t0
                   ({| method := POST; endpoint := ClientsLookup "201664";
                       Authorization := "Bearer tok";
                       data := Some (LookupData {| PhoneNumbers := Some ["5551234567"];
                                                   EmailIds := None |}) |},
                    inr (ClientsData [Demo.ann]))
                   {| method := GET; endpoint := ClientServices "C-1" "201664";
                      Authorization := "Bearer tok"; data := None |}
                   (AppointmentsData []) [] "C-1" "201664" _ _ _))) _).
  - reflexivity.
  - reflexivity.
  - intros a others H. discriminate H.
  - intros cl others H. discriminate H.
Defined.

Lemma first_client_is_taken_witness :
  endpoint {| method := GET; endpoint := ClientServices "C-1" "201664";
              Authorization := "Bearer tok"; data := None |} =
  ClientServices (Client.clientId Demo.ann) "201664".
Proof.
  refine (proj2 (proj2 (proj2 (first_client_is_taken Demo.salon
                   (Demo.by_phone "+1 (555) 123-4567") empty_cache Demo.t0
                   {| method := POST; endpoint := ClientsLookup "201664";
                      Authorization := "Bearer tok";
                      data := Some (LookupData {| PhoneNumbers := Some ["5551234567"];
                                                  EmailIds := None |}) |}
                   Demo.ann []
                   {| method := GET; endpoint := ClientServices "C-1" "201664";
                      Authorization := "Bearer tok"; data := None |}
                   (inr (AppointmentsData Demo.listing))
                   [ ({| method := GET; endpoint := RunningLate "201664" "APT-1";
                         Authorization := "Bearer tok"; data := None |},
                      inr (DetailsData (Demo.details_of 11)));
                     ({| method := PUT; endpoint := RunningLate "201664" "APT-1";
                         Authorization := "Bearer tok";
                         data := Some (UpdateData
                                         {| ServiceId := Some "S-1"; ClientId := Some "C-1";
                                            EmployeeId := Some "E-1";
                                            ConcurrencyCheckDigits := Some 11;
                                            StartTime := Some "2030-01-01T10:00:00.000Z";
                                            IsRunningLate := true |}) |},
                      inr NoData) ]
                   "201664" _ _)))).
  - reflexivity.
  - reflexivity.
Defined.

(** Scenario C again: the PUT that carries the digits 11 comes right
    after the GET that returned them. *)
Lemma write_follows_its_read_witness :
  exists before id tk x tk2 sent time,
    api_calls (events (V3.mark_late Demo.salon (Demo.by_id "APT-42") empty_cache Demo.t0)) =
      before ++
      [({| method := GET; endpoint := RunningLate "201664" id;
           Authorization := "Bearer " ++ tk; data := None |}, inr x);
       ({| method := PUT; endpoint := RunningLate "201664" "APT-42";
           Authorization := "Bearer tok";
           data := Some (UpdateData
                           {| ServiceId := Some "S-1"; ClientId := Some "C-1";
                              EmployeeId := Some "E-1";
                              ConcurrencyCheckDigits := Some 11;
                              StartTime := Some "2030-01-01T10:00:00.000Z";
                              IsRunningLate := true |}) |}, inr NoData)] /\
    {| method := PUT; endpoint := RunningLate "201664" "APT-42";
       Authorization := "Bearer tok";
       data := Some (UpdateData
                       {| ServiceId := Some "S-1"; ClientId := Some "C-1";
                          EmployeeId := Some "E-1";
                          ConcurrencyCheckDigits := Some 11;
                          StartTime := Some "2030-01-01T10:00:00.000Z";
                          IsRunningLate := true |}) |} =
    {| method := PUT; endpoint := RunningLate "201664" id;
       Authorization := "Bearer " ++ tk2; data := Some (UpdateData sent) |} /\
    UpdateFrom x sent time /\
    Forall (fun call => forall l i, endpoint (fst call) <> RunningLate l i) before.
Proof.
  apply (write_follows_its_read Demo.salon (Demo.by_id "APT-42") empty_cache Demo.t0
           {| method := PUT; endpoint := RunningLate "201664" "APT-42";
              Authorization := "Bearer tok";
              data := Some (UpdateData
                              {| ServiceId := Some "S-1"; ClientId := Some "C-1";
                                 EmployeeId := Some "E-1";
                                 ConcurrencyCheckDigits := Some 11;
                                 StartTime := Some "2030-01-01T10:00:00.000Z";
                                 IsRunningLate := true |}) |}
           (inr NoData)).
  - vm_compute. tauto.
  - reflexivity.
Defined.

(** Scenario A on the earlier revision: the digits 10 that the PUT
    carries are those of an entry of the listing. *)
Lemma legacy_lookup_writes_from_the_listing_witness :
  exists listing entries a,
    In (listing, inr (AppointmentsData entries))
       (api_calls (events (Legacy.mark_late Demo.salon (Demo.by_phone "+1 (555) 123-4567")
                             empty_cache Demo.t0))) /\
    In a entries /\
    Appointment.concurrencyCheckDigits a = 10.
Proof.
  destruct (legacy_lookup_writes_from_the_listing Demo.salon
              (Demo.by_phone "+1 (555) 123-4567") empty_cache Demo.t0
              {| method := PUT; endpoint := RunningLate "201664" "APT-1";
                 Authorization := "Bearer tok";
                 data := Some (UpdateData
                                 {| ServiceId := Some "S-1"; ClientId := Some "C-1";
                                    EmployeeId := Some "E-1";
                                    ConcurrencyCheckDigits := Some 10;
                                    StartTime := Some "2030-01-01T10:00:00.000Z";
                                    IsRunningLate := true |}) |}
              (inr NoData) "201664" "APT-1")
    as (_ & listing & entries & a & Hlisting & Ha & _ & Hdata).
  - reflexivity.
  - vm_compute. tauto.
  - reflexivity.
  - exists listing, entries, a. split; [exact Hlisting|]. split; [exact Ha|].
    cbn [data] in Hdata. injection Hdata as _ _ _ Hdigits _. symmetry. exact Hdigits.
Defined.

(** Scenario: the token endpoint rejects the credentials. *)
Lemma legacy_rejection_is_reported_witness :
  outcome (Legacy.mark_late Scenarios.locked_out (Demo.by_phone "+1 (555) 123-4567")
             empty_cache Demo.t0) =
  Returned {| status := 200;
              body := Res.mk false None None None None
                        (Some "Failed to mark appointment as running late") |}.
Proof.
  refine (proj1 (proj2 (legacy_rejection_is_reported Scenarios.locked_out
                          (Demo.by_phone "+1 (555) 123-4567") empty_cache Demo.t0)
                   (TokenCall credentials (inl {| response_error_message := None |}))
                   {| response_error_message := None |} _ _)).
  - vm_compute. tauto.
  - reflexivity.
Defined.

(* ===================================================================== *)
(** ** Answers of another shape *)
(* ===================================================================== *)

(** The handler tests what comes back for truthiness and length only.
    A lookup answered with the appointments listing: the first element
    has a [clientId], and the request goes on to mark APT-1. *)
Example lookup_answered_with_a_listing :
  map (fun rq => (method rq, endpoint rq))
      (api_requests (events (V3.mark_late Scenarios.listing_for_lookup
                               (Demo.by_phone "+1 (555) 123-4567")
                               empty_cache Demo.t0))) =
    [ (POST, ClientsLookup "201664");
      (GET, ClientServices "C-1" "201664");
      (GET, RunningLate "201664" "APT-1");
      (PUT, RunningLate "201664" "APT-1") ] /\
  outcome (V3.mark_late Scenarios.listing_for_lookup (Demo.by_phone "+1 (555) 123-4567")
             empty_cache Demo.t0) =
    Returned (res_json (marked "APT-1" (Some "2030-01-01T10:00:00.000Z"))).
Proof. vm_compute. split; reflexivity. Qed.

(** An appointments query answered with a list of clients: the clock
    is read, no element has a [startTime], and the answer is "No upcoming
    appointments ...". *)
Example listing_answered_with_clients :
  clock_reads
    (skipn 5 (events (V3.mark_late Scenarios.clients_for_listing
                        (Demo.by_phone "+1 (555) 123-4567") empty_cache Demo.t0))) =
    [Demo.t0 + 3] /\
  outcome (V3.mark_late Scenarios.clients_for_listing (Demo.by_phone "+1 (555) 123-4567")
             empty_cache Demo.t0) =
    Returned (res_json
                (failure "No upcoming appointments found to mark as running late")).
Proof. vm_compute. split; reflexivity. Qed.

(** A running-late read answered with a list: the PUT is sent with
    [IsRunningLate: true] alone and the answer is [success: true]
    without [appointment_time]. *)
Example read_answered_with_a_list :
  map (fun rq => (method rq, data rq))
      (api_requests (events (V3.mark_late Scenarios.listing_for_details
                               (Demo.by_id "APT-42") empty_cache Demo.t0))) =
    [ (GET, None);
      (PUT, Some (UpdateData {| ServiceId := None; ClientId := None; EmployeeId := None;
                                ConcurrencyCheckDigits := None; StartTime := None;
                                IsRunningLate := true |})) ] /\
  outcome (V3.mark_late Scenarios.listing_for_details (Demo.by_id "APT-42")
             empty_cache Demo.t0) =
    Returned (res_json (marked "APT-42" None)).
Proof. vm_compute. split; reflexivity. Qed.

(** The earlier revision, its client list answered with one object:
    [find] is not a function, the [TypeError] is caught, and the answer
    is the generic failure after that single call. *)
Example client_list_answered_with_an_object :
  map (fun rq => (method rq, endpoint rq))
      (api_requests (events (Legacy.mark_late Scenarios.details_for_clients
                               (Demo.by_phone "+1 (555) 123-4567")
                               empty_cache Demo.t0))) =
    [ (GET, ClientsList "201664") ] /\
  outcome (Legacy.mark_late Scenarios.details_for_clients
             (Demo.by_phone "+1 (555) 123-4567") empty_cache Demo.t0) =
    Returned (res_json (failure "Failed to mark appointment as running late")).
Proof. vm_compute. split; reflexivity. Qed.
